(** * SHOT: hyperplane selection, the Gurobi lazy-constraint callback and the
      Cbc adapter

    A shallow embedding of
    - [TaskSelectHyperplanePointsSolution::run] (the ECP point selector),
    - [MIPSolverCbc::addVariable], [MIPSolverCbc::updateVariableBound] and
      [MIPSolverCbc::solveProblem],
    - [GurobiCallback::callback], [GurobiCallback::createHyperplane],
      [GurobiCallback::addLazyConstraint] and the [GurobiCallback] constructor,
    together with the properties of the cut-generation loop that are stated
    about them.

    C++ [double] is IEEE binary64 and is embedded as Rocq's primitive [float],
    so that comparisons involving not-a-number behave as in the program.
    C++ [int] counters are embedded as [Z]; none of the counters modelled here
    can leave the 32-bit range before the lists they count do. *)

From Stdlib Require Import String ZArith List Bool Lia.
From Stdlib Require Import Floats.
Import ListNotations.

Set Warnings "-inexact-float".

(** ** IEEE binary64 comparisons *)

Module Double.

Definition double := float.

(** [a > b] of C++ is [b < a]. *)
Definition gtb (a b : double) : bool := (b <? a)%float.

(** [a != a], the idiom the sources use to detect not-a-number. *)
Definition neqb (a b : double) : bool := negb (a =? b)%float.

Lemma SFcompare_antisym x y :
  SFcompare y x = option_map CompOpp (SFcompare x y).
Proof.
  destruct x as [s1|s1| |s1 m1 e1], y as [s2|s2| |s2 m2 e2]; simpl;
    try reflexivity;
    try (destruct s1; reflexivity); try (destruct s2; reflexivity);
    try (destruct s1, s2; reflexivity).
  destruct s1, s2; simpl; try reflexivity;
    rewrite (Z.compare_antisym e1 e2);
    destruct (e1 ?= e2)%Z eqn:E; simpl; try reflexivity;
    rewrite (Pos.compare_cont_antisym m1 m2 Eq); simpl;
    rewrite ?CompOpp_involutive; reflexivity.
Qed.

Lemma SFcompare_refl_not_lt x : SFcompare x x <> Some Lt.
Proof.
  destruct x as [s|s| |s m e]; simpl; try destruct s; try discriminate;
    rewrite Z.compare_refl, ?Pos.compare_cont_refl; simpl; discriminate.
Qed.

Lemma ltb_irrefl (x : double) : (x <? x)%float = false.
Proof.
  rewrite ltb_spec. unfold SFltb.
  pose proof (SFcompare_refl_not_lt (Prim2SF x)) as H.
  destruct (SFcompare (Prim2SF x) (Prim2SF x)) as [[]|]; congruence.
Qed.

Lemma ltb_asym (x y : double) : (x <? y)%float = true -> (y <? x)%float = false.
Proof.
  rewrite !ltb_spec. unfold SFltb.
  rewrite (SFcompare_antisym (Prim2SF x) (Prim2SF y)).
  destruct (SFcompare (Prim2SF x) (Prim2SF y)) as [[]|]; simpl; congruence.
Qed.

Lemma gtb_irrefl (x : double) : gtb x x = false.
Proof. apply ltb_irrefl. Qed.

Lemma SFcompare_lt_trans x y z :
  SFcompare x y = Some Lt -> SFcompare y z = Some Lt -> SFcompare x z = Some Lt.
Proof.
  destruct x as [s1|s1| |s1 m1 e1], y as [s2|s2| |s2 m2 e2], z as [s3|s3| |s3 m3 e3];
    simpl; try discriminate; try (destruct s1; discriminate);
    try (destruct s2; discriminate); try (destruct s3; discriminate);
    try (destruct s1, s2; discriminate); try (destruct s2, s3; discriminate);
    try (destruct s1, s3; try discriminate; reflexivity);
    try (destruct s1; try discriminate; reflexivity);
    try (destruct s3; try discriminate; reflexivity);
    try (destruct s1, s2, s3; try discriminate; reflexivity).
  all: destruct s1, s2, s3; try discriminate; try reflexivity.
  all: change (Pos.compare_cont Eq) with Pos.compare.
  all: destruct (Z.compare_spec e1 e2), (Z.compare_spec e2 e3), (Z.compare_spec e1 e3);
       try discriminate; try reflexivity; try lia; subst.
  all: destruct (Pos.compare_spec m1 m2), (Pos.compare_spec m2 m3),
                (Pos.compare_spec m1 m3);
       simpl; try discriminate; try reflexivity; try lia.
Qed.

Lemma ltb_trans (x y z : double) :
  (x <? y)%float = true -> (y <? z)%float = true -> (x <? z)%float = true.
Proof.
  rewrite !ltb_spec. unfold SFltb.
  pose proof (SFcompare_lt_trans (Prim2SF x) (Prim2SF y) (Prim2SF z)) as H.
  destruct (SFcompare (Prim2SF x) (Prim2SF y)) as [[]|]; try discriminate.
  destruct (SFcompare (Prim2SF y) (Prim2SF z)) as [[]|]; try discriminate.
  intros _ _. rewrite H; reflexivity.
Qed.

End Double.

Import Double.

(** ** The ECP point selector: [TaskSelectHyperplanePointsSolution] *)

Module Selector.

Record PairIndexValue := mkPairIndexValue { idx : Z; value : double }.

(** The three source tags [run] assigns. *)
Inductive E_HyperplaneSource :=
| MIPOptimalSolutionPoint
| MIPSolutionPoolSolutionPoint
| LPRelaxedSolutionPoint.

Record Hyperplane := mkHyperplane {
  sourceConstraintIndex : Z;
  generatedPoint : list double;
  source : E_HyperplaneSource }.

Record SolutionPoint := mkSolutionPoint {
  point : list double;
  objectiveValue : double;
  iterFound : Z;
  maxDeviation : PairIndexValue }.

(** The part of the [ProcessInfo] singleton that [run] writes: the waiting
    list it pushes onto and the warnings it prints. *)
Record ProcessInfo := mkProcessInfo {
  hyperplaneWaitingList : list Hyperplane;
  warnings : list string }.

Definition push_back (h : Hyperplane) (p : ProcessInfo) : ProcessInfo :=
  mkProcessInfo (hyperplaneWaitingList p ++ [h]) (warnings p).

Definition outputWarning (w : string) (p : ProcessInfo) : ProcessInfo :=
  mkProcessInfo (hyperplaneWaitingList p) (warnings p ++ [w]).

(** How a loop body ends: it falls through to the next round, or it executes
    the [return] of line 41, which leaves both loops at once. *)
Inductive LoopExit := Continue | Return.

Section Run.

(** [originalProblem->getMostDeviatingConstraints], the two settings read by
    [run], and [currIter->isMILP()]. *)
Variable getMostDeviatingConstraints : list double -> double -> list PairIndexValue.
Variable constrSelFactor : double.
Variable MaxHyperplanesPerIteration : Z.
Variable isMILP : bool.

(** Lines 53-64. *)
Definition hyperplaneSource (i : nat) : E_HyperplaneSource :=
  if Nat.eqb i 0 && isMILP then MIPOptimalSolutionPoint
  else if isMILP then MIPSolutionPoolSolutionPoint
  else LPRelaxedSolutionPoint.

(** The inner loop over [tmpMostDevConstrs] (lines 39-70), for point [i]. *)
Fixpoint constraintLoop (i : nat) (pt : list double)
  (tmpMostDevConstrs : list PairIndexValue)
  (addedHyperplanes : Z) (p : ProcessInfo) : LoopExit * Z * ProcessInfo :=
  match tmpMostDevConstrs with
  | [] => (Continue, addedHyperplanes, p)
  | c :: rest =>
    if (MaxHyperplanesPerIteration <=? addedHyperplanes)%Z
    then (Return, addedHyperplanes, p)
    else if (value c <? 0)%float
    then constraintLoop i pt rest addedHyperplanes
           (outputWarning "LP point is in the interior!"%string p)
    else constraintLoop i pt rest (addedHyperplanes + 1)%Z
           (push_back (mkHyperplane (idx c) pt (hyperplaneSource i)) p)
  end.

(** The outer loop over [solPoints] (lines 35-71), from point number [i] on. *)
Fixpoint pointLoop (i : nat) (solPoints : list SolutionPoint)
  (addedHyperplanes : Z) (p : ProcessInfo) : Z * ProcessInfo :=
  match solPoints with
  | [] => (addedHyperplanes, p)
  | sp :: rest =>
    match constraintLoop i (point sp)
            (getMostDeviatingConstraints (point sp) constrSelFactor)
            addedHyperplanes p with
    | (Return, a, p') => (a, p')
    | (Continue, a, p') => pointLoop (S i) rest a p'
    end
  end.

(** [run(solPoints)]. *)
Definition run (solPoints : list SolutionPoint) (p : ProcessInfo) : ProcessInfo :=
  snd (pointLoop 0 solPoints 0%Z p).

(** The enumeration [run] walks through when nothing caps it: for every point
    in order, every most-deviating constraint in order whose value is not
    negative. *)
Definition candidatesOf (i : nat) (sp : SolutionPoint) : list Hyperplane :=
  map (fun c => mkHyperplane (idx c) (point sp) (hyperplaneSource i))
      (filter (fun c => negb (value c <? 0)%float)
              (getMostDeviatingConstraints (point sp) constrSelFactor)).

Fixpoint candidatesFrom (i : nat) (solPoints : list SolutionPoint) : list Hyperplane :=
  match solPoints with
  | [] => []
  | sp :: rest => candidatesOf i sp ++ candidatesFrom (S i) rest
  end.

(** What one invocation pushed: the waiting list's new tail. *)
Definition enqueued (before after : ProcessInfo) : list Hyperplane :=
  skipn (length (hyperplaneWaitingList before)) (hyperplaneWaitingList after).

Lemma constraintLoop_spec i pt cs : forall a p,
  let cands := map (fun c => mkHyperplane (idx c) pt (hyperplaneSource i))
                   (filter (fun c => negb (value c <? 0)%float) cs) in
  let taken := firstn (Z.to_nat (MaxHyperplanesPerIteration - a)) cands in
  let '(ex, a', p') := constraintLoop i pt cs a p in
  hyperplaneWaitingList p' = hyperplaneWaitingList p ++ taken /\
  a' = (a + Z.of_nat (length taken))%Z /\
  (ex = Return -> (MaxHyperplanesPerIteration <= a')%Z).
Proof.
  induction cs as [|c rest IH]; intros a p; cbn zeta.
  - simpl. rewrite firstn_nil, app_nil_r. simpl. repeat split; try lia. discriminate.
  - simpl constraintLoop.
    destruct (MaxHyperplanesPerIteration <=? a)%Z eqn:Hcap.
    + apply Z.leb_le in Hcap.
      replace (Z.to_nat (MaxHyperplanesPerIteration - a)) with 0%nat by lia.
      simpl. rewrite app_nil_r. repeat split; lia.
    + apply Z.leb_gt in Hcap. simpl filter.
      destruct (value c <? 0)%float; simpl negb; cbv iota.
      * specialize (IH a (outputWarning "LP point is in the interior!"%string p)).
        cbn zeta in IH.
        destruct (constraintLoop i pt rest a _) as [[ex a'] p'].
        exact IH.
      * specialize (IH (a + 1)%Z
          (push_back (mkHyperplane (idx c) pt (hyperplaneSource i)) p)).
        cbn zeta in IH.
        destruct (constraintLoop i pt rest (a + 1) _) as [[ex a'] p'].
        destruct IH as (Hwl & Ha & Hex).
        replace (Z.to_nat (MaxHyperplanesPerIteration - a))
          with (S (Z.to_nat (MaxHyperplanesPerIteration - (a + 1)))) by lia.
        simpl map. rewrite firstn_cons.
        split; [|split].
        -- rewrite Hwl. simpl. rewrite <- app_assoc. reflexivity.
        -- rewrite Ha. simpl length. lia.
        -- exact Hex.
Qed.

Lemma pointLoop_spec solPoints : forall i a p,
  let taken := firstn (Z.to_nat (MaxHyperplanesPerIteration - a))
                      (candidatesFrom i solPoints) in
  hyperplaneWaitingList (snd (pointLoop i solPoints a p))
    = hyperplaneWaitingList p ++ taken.
Proof.
  induction solPoints as [|sp rest IH]; intros i a p; cbn zeta.
  - simpl. rewrite firstn_nil, app_nil_r. reflexivity.
  - simpl pointLoop. simpl candidatesFrom. unfold candidatesOf.
    pose proof (constraintLoop_spec i (point sp)
      (getMostDeviatingConstraints (point sp) constrSelFactor) a p) as H.
    cbn zeta in H.
    set (cands := map _ (filter _ _)) in *.
    destruct (constraintLoop i (point sp) _ a p) as [[ex a'] p'].
    destruct H as (Hwl & Ha & Hex).
    rewrite firstn_app.
    set (taken := firstn (Z.to_nat (MaxHyperplanesPerIteration - a)) cands) in *.
    assert (Hlen : (length taken <= length cands)%nat).
    { unfold taken. rewrite length_firstn. lia. }
    assert (Htk : length taken
                  = Nat.min (Z.to_nat (MaxHyperplanesPerIteration - a)) (length cands)).
    { unfold taken. apply length_firstn. }
    destruct ex.
    + rewrite IH. cbn zeta. rewrite Hwl, <- app_assoc. f_equal. f_equal.
      destruct (Nat.le_gt_cases (length cands)
                  (Z.to_nat (MaxHyperplanesPerIteration - a))) as [Hle|Hgt].
      * f_equal. lia.
      * replace (Z.to_nat (MaxHyperplanesPerIteration - a')) with 0%nat by lia.
        replace (Z.to_nat (MaxHyperplanesPerIteration - a) - length cands)%nat
          with 0%nat by lia.
        reflexivity.
    + simpl snd. rewrite Hwl. f_equal.
      specialize (Hex eq_refl).
      replace (Z.to_nat (MaxHyperplanesPerIteration - a) - length cands)%nat
        with 0%nat by lia.
      simpl. rewrite app_nil_r. reflexivity.
Qed.

Lemma run_enqueues solPoints p :
  hyperplaneWaitingList (run solPoints p)
  = hyperplaneWaitingList p
    ++ firstn (Z.to_nat MaxHyperplanesPerIteration) (candidatesFrom 0 solPoints).
Proof.
  unfold run. rewrite pointLoop_spec. cbn zeta.
  rewrite Z.sub_0_r. reflexivity.
Qed.

Lemma enqueued_run solPoints p :
  enqueued p (run solPoints p)
  = firstn (Z.to_nat MaxHyperplanesPerIteration) (candidatesFrom 0 solPoints).
Proof.
  unfold enqueued. rewrite run_enqueues.
  rewrite skipn_app, skipn_all, Nat.sub_diag. reflexivity.
Qed.

Definition interiorWarning : string := "LP point is in the interior!"%string.

Lemma constraintLoop_warnings i pt cs : forall a p,
  exists n, warnings (snd (constraintLoop i pt cs a p))
            = warnings p ++ repeat interiorWarning n.
Proof.
  induction cs as [|c rest IH]; intros a p; simpl.
  - exists 0%nat. simpl. rewrite app_nil_r. reflexivity.
  - destruct (MaxHyperplanesPerIteration <=? a)%Z.
    + exists 0%nat. simpl. rewrite app_nil_r. reflexivity.
    + destruct (value c <? 0)%float.
      * destruct (IH a (outputWarning interiorWarning p)) as [n Hn].
        exists (S n). unfold interiorWarning in *. rewrite Hn. simpl.
        rewrite <- app_assoc. reflexivity.
      * destruct (IH (a + 1)%Z (push_back (mkHyperplane (idx c) pt (hyperplaneSource i)) p))
          as [n Hn].
        exists n. rewrite Hn. reflexivity.
Qed.

Lemma pointLoop_warnings solPoints : forall i a p,
  exists n, warnings (snd (pointLoop i solPoints a p))
            = warnings p ++ repeat interiorWarning n.
Proof.
  induction solPoints as [|sp rest IH]; intros i a p; simpl.
  - exists 0%nat. simpl. rewrite app_nil_r. reflexivity.
  - destruct (constraintLoop_warnings i (point sp)
                (getMostDeviatingConstraints (point sp) constrSelFactor) a p) as [n Hn].
    destruct (constraintLoop i (point sp) _ a p) as [[ex a'] p']. simpl in Hn.
    destruct ex.
    + destruct (IH (S i) a' p') as [m Hm]. exists (n + m)%nat.
      rewrite Hm, Hn, repeat_app, app_assoc. reflexivity.
    + exists n. exact Hn.
Qed.

(** C1. One invocation of [run(solPoints)] pushes at most
    [MaxHyperplanesPerIteration] hyperplanes onto the waiting list, whatever
    the points are and whatever the list held before: what it pushes is the
    first [MaxHyperplanesPerIteration] entries of the uncapped enumeration,
    and everything after them (remaining constraints and points) is dropped.
    Dropping is silent: the only warnings an invocation prints are those for
    constraints of negative value.  The cap is a count, so it is taken
    non-negative. *)
Theorem run_respects_hyperplane_cap (solPoints : list SolutionPoint) (p : ProcessInfo) :
  (0 <= MaxHyperplanesPerIteration)%Z ->
  hyperplaneWaitingList (run solPoints p)
    = hyperplaneWaitingList p ++ enqueued p (run solPoints p) /\
  (Z.of_nat (length (enqueued p (run solPoints p))) <= MaxHyperplanesPerIteration)%Z /\
  enqueued p (run solPoints p)
    = firstn (Z.to_nat MaxHyperplanesPerIteration) (candidatesFrom 0 solPoints) /\
  (exists n, warnings (run solPoints p) = warnings p ++ repeat interiorWarning n).
Proof.
  intros Hcap. rewrite enqueued_run. split; [apply run_enqueues|].
  split; [rewrite length_firstn; lia|]. split; [reflexivity|].
  apply pointLoop_warnings.
Qed.

End Run.

(** A run on two points with two violated constraints each and a cap of
    three: the fourth hyperplane is dropped. *)
Definition demoConstraints (pt : list double) (_ : double) : list PairIndexValue :=
  [mkPairIndexValue 4 2%float; mkPairIndexValue 7 (-1)%float; mkPairIndexValue 9 0.5%float].

Definition demoPoints : list SolutionPoint :=
  [mkSolutionPoint [1%float] 0%float 1 (mkPairIndexValue 4 2%float);
   mkSolutionPoint [3%float] 0%float 1 (mkPairIndexValue 4 2%float)].

Lemma run_respects_hyperplane_cap_witness :
  (0 <= 3)%Z /\
  length (enqueued (mkProcessInfo [] [])
            (run demoConstraints 0.5%float 3 true demoPoints (mkProcessInfo [] []))) = 3%nat.
Proof.
  split; [lia|].
  pose proof (run_respects_hyperplane_cap demoConstraints 0.5%float 3 true
                demoPoints (mkProcessInfo [] []) ltac:(lia)) as (_ & _ & H & _).
  rewrite H. reflexivity.
Defined.

End Selector.

(** ** Enumerations shared by the solver adapters *)

Module Enums.

(** Modelled from the spec: the declaration of
    [E_ObjectiveFunctionClassification] is not among the sources.  The
    sources name [Linear], [Quadratic] and [QuadraticConsideredAsNonlinear]
    and compare classifications with [>] and [>=]; the spec puts "linear or
    quadratic" below everything "above quadratic".  The enumerators are
    ranked in that order, the remaining (nonlinear) ones after them. *)
Inductive E_ObjectiveFunctionClassification :=
| NoClassification
| Linear
| Quadratic
| QuadraticConsideredAsNonlinear
| Signomial
| Nonlinear
| GeneralizedSignomial
| Nonalgebraic.

(** The underlying integer of an enumerator, which [>] and [>=] compare. *)
Definition rank (c : E_ObjectiveFunctionClassification) : Z :=
  match c with
  | NoClassification => 0
  | Linear => 1
  | Quadratic => 2
  | QuadraticConsideredAsNonlinear => 3
  | Signomial => 4
  | Nonlinear => 5
  | GeneralizedSignomial => 6
  | Nonalgebraic => 7
  end.

Definition classification_eqb (a b : E_ObjectiveFunctionClassification) : bool :=
  (rank a =? rank b)%Z.
Definition classification_gtb (a b : E_ObjectiveFunctionClassification) : bool :=
  (rank b <? rank a)%Z.
Definition classification_geb (a b : E_ObjectiveFunctionClassification) : bool :=
  (rank b <=? rank a)%Z.

(** The statuses [getSolutionStatus] and the callers distinguish. *)
Inductive E_ProblemSolutionStatus :=
| Optimal | Feasible | Infeasible | Unbounded | SolutionLimit | TimeLimit
| NodeLimit | Abort | Error.

Definition status_eqb (a b : E_ProblemSolutionStatus) : bool :=
  match a, b with
  | Optimal, Optimal | Feasible, Feasible | Infeasible, Infeasible
  | Unbounded, Unbounded | SolutionLimit, SolutionLimit | TimeLimit, TimeLimit
  | NodeLimit, NodeLimit | Abort, Abort | Error, Error => true
  | _, _ => false
  end.

End Enums.

Import Enums.

(** ** The Cbc adapter: [MIPSolverCbc] *)

Module Cbc.

Inductive E_VariableType :=
| NoType | Real | Binary | Integer | Semicontinuous | Semiinteger.

(** What [addVariable] has asked of the [CoinModel] so far. *)
Record CoinModel := mkCoinModel {
  columnBounds : list (Z * (double * double));
  colNames : list (Z * string);
  integerColumns : list Z }.

(** The members of [MIPSolverCbc] that the modelled functions read or write.
    [osiColBounds] is the column-bound array of [osiInterface];
    [cbcRuns] counts the calls of [CbcMain1]; [errors] is what went to
    [env->output->outputError]; [hasInfeasibilityRepairBeenPerformed] is the
    flag of the current iteration; [MIPStarts] holds the MIP starts provided
    and not yet handed to Cbc, each a list of variable names and values. *)
Record MIPSolverCbc := mkMIPSolverCbc {
  numberOfVariables : Z;
  variableTypes : list E_VariableType;
  variableNames : list string;
  variableLowerBounds : list double;
  variableUpperBounds : list double;
  isProblemDiscrete : bool;
  coinModel : CoinModel;
  osiColBounds : list (double * double);
  cbcRuns : nat;
  hasInfeasibilityRepairBeenPerformed : bool;
  errors : list string;
  MIPStarts : list (list (string * double)) }.

Definition getUnboundedVariableBoundValue : double := 1e+50%float.

(** The state [initializeProblem] leaves behind a freshly constructed solver. *)
Definition initialSolver : MIPSolverCbc :=
  mkMIPSolverCbc 0 [] [] [] [] false (mkCoinModel [] [] []) [] 0 false [] [].

Definition set_coinModel (c : CoinModel) (s : MIPSolverCbc) : MIPSolverCbc :=
  mkMIPSolverCbc (numberOfVariables s) (variableTypes s) (variableNames s)
    (variableLowerBounds s) (variableUpperBounds s) (isProblemDiscrete s) c
    (osiColBounds s) (cbcRuns s) (hasInfeasibilityRepairBeenPerformed s) (errors s)
    (MIPStarts s).

Definition set_isProblemDiscrete (b : bool) (s : MIPSolverCbc) : MIPSolverCbc :=
  mkMIPSolverCbc (numberOfVariables s) (variableTypes s) (variableNames s)
    (variableLowerBounds s) (variableUpperBounds s) b (coinModel s)
    (osiColBounds s) (cbcRuns s) (hasInfeasibilityRepairBeenPerformed s) (errors s)
    (MIPStarts s).

Definition set_osiColBounds (b : list (double * double)) (s : MIPSolverCbc) : MIPSolverCbc :=
  mkMIPSolverCbc (numberOfVariables s) (variableTypes s) (variableNames s)
    (variableLowerBounds s) (variableUpperBounds s) (isProblemDiscrete s) (coinModel s)
    b (cbcRuns s) (hasInfeasibilityRepairBeenPerformed s) (errors s) (MIPStarts s).

Definition set_cbcRuns (n : nat) (s : MIPSolverCbc) : MIPSolverCbc :=
  mkMIPSolverCbc (numberOfVariables s) (variableTypes s) (variableNames s)
    (variableLowerBounds s) (variableUpperBounds s) (isProblemDiscrete s) (coinModel s)
    (osiColBounds s) n (hasInfeasibilityRepairBeenPerformed s) (errors s) (MIPStarts s).

Definition set_hasInfeasibilityRepairBeenPerformed (b : bool) (s : MIPSolverCbc) : MIPSolverCbc :=
  mkMIPSolverCbc (numberOfVariables s) (variableTypes s) (variableNames s)
    (variableLowerBounds s) (variableUpperBounds s) (isProblemDiscrete s) (coinModel s)
    (osiColBounds s) (cbcRuns s) b (errors s) (MIPStarts s).

Definition outputError (msg : string) (s : MIPSolverCbc) : MIPSolverCbc :=
  mkMIPSolverCbc (numberOfVariables s) (variableTypes s) (variableNames s)
    (variableLowerBounds s) (variableUpperBounds s) (isProblemDiscrete s) (coinModel s)
    (osiColBounds s) (cbcRuns s) (hasInfeasibilityRepairBeenPerformed s)
    (errors s ++ [msg]) (MIPStarts s).

(** *** [addVariable] *)

(** The three [CoinModel] calls inside the [try] block, and which of them, if
    any, throws in a given call of [addVariable]. *)
Inductive CoinCall := SetColumnBounds | SetColName | SetInteger.

Definition throwsAt (t : option CoinCall) (c : CoinCall) : bool :=
  match t, c with
  | Some SetColumnBounds, SetColumnBounds
  | Some SetColName, SetColName
  | Some SetInteger, SetInteger => true
  | _, _ => false
  end.

(** Lines 61-65: the two one-sided clamps. *)
Definition clampLowerBound (lowerBound : double) : double :=
  if (lowerBound <? - getUnboundedVariableBoundValue)%float
  then (- getUnboundedVariableBoundValue)%float else lowerBound.

Definition clampUpperBound (upperBound : double) : double :=
  if gtb upperBound getUnboundedVariableBoundValue
  then getUnboundedVariableBoundValue else upperBound.

(** The [try] block of lines 67-95: the state it reaches and [true] when
    nothing throws, the state at the throw and [false] otherwise. *)
Definition addVariable_try (t : option CoinCall) (index : Z) (name : string)
  (type : E_VariableType) (lowerBound upperBound : double) (s : MIPSolverCbc)
  : MIPSolverCbc * bool :=
  if throwsAt t SetColumnBounds then (s, false) else
  let c1 := mkCoinModel (columnBounds (coinModel s) ++ [(index, (lowerBound, upperBound))])
                        (colNames (coinModel s)) (integerColumns (coinModel s)) in
  let s1 := set_coinModel c1 s in
  if throwsAt t SetColName then (s1, false) else
  let c2 := mkCoinModel (columnBounds c1) (colNames c1 ++ [(index, name)])
                        (integerColumns c1) in
  let s2 := set_coinModel c2 s1 in
  match type with
  | Integer | Binary | Semicontinuous =>
    let s3 := set_isProblemDiscrete true s2 in
    if throwsAt t SetInteger then (s3, false) else
    (set_coinModel (mkCoinModel (columnBounds c2) (colNames c2)
                      (integerColumns c2 ++ [index])) s3, true)
  | _ => (s2, true)
  end.

Definition addVariable (t : option CoinCall) (name : string) (type : E_VariableType)
  (lowerBound upperBound : double) (s : MIPSolverCbc) : MIPSolverCbc * bool :=
  let index := numberOfVariables s in
  let lowerBound := clampLowerBound lowerBound in
  let upperBound := clampUpperBound upperBound in
  match addVariable_try t index name type lowerBound upperBound s with
  | (s', false) =>
    (outputError "Cbc exception caught when adding variable to model: "%string s', false)
  | (s', true) =>
    (mkMIPSolverCbc (numberOfVariables s' + 1)
       (variableTypes s' ++ [type]) (variableNames s' ++ [name])
       (variableLowerBounds s' ++ [lowerBound]) (variableUpperBounds s' ++ [upperBound])
       (isProblemDiscrete s') (coinModel s') (osiColBounds s') (cbcRuns s')
       (hasInfeasibilityRepairBeenPerformed s') (errors s') (MIPStarts s'), true)
  end.

(** One call of [addVariable] as data, and a sequence of calls on a solver. *)
Record AddVariableCall := mkCall {
  callThrows : option CoinCall;
  callName : string;
  callType : E_VariableType;
  callLowerBound : double;
  callUpperBound : double }.

Definition addVariables (calls : list AddVariableCall) (s : MIPSolverCbc) : MIPSolverCbc :=
  fold_left (fun s c => fst (addVariable (callThrows c) (callName c) (callType c)
                               (callLowerBound c) (callUpperBound c) s)) calls s.

(** Membership in the closed interval [[-1e50, 1e50]]. *)
Definition withinUnboundedValue (x : double) : bool :=
  ((- getUnboundedVariableBoundValue <=? x) && (x <=? getUnboundedVariableBoundValue))%float.

(** Not below [-1e50]; not above [1e50]. *)
Definition notBelowUnboundedValue (x : double) : bool :=
  negb (x <? - getUnboundedVariableBoundValue)%float.
Definition notAboveUnboundedValue (x : double) : bool :=
  negb (getUnboundedVariableBoundValue <? x)%float.

(** *** [updateVariableBound] and [solveProblem] *)

(** A variable of the reformulated problem, with the answer of its
    [isDualUnbounded()]. *)
Record ProblemVariable := mkProblemVariable {
  index : nat;
  lowerBound : double;
  upperBound : double;
  isDualUnbounded : bool }.

(** What [solveProblem] reads of [env->reformulatedProblem] and of the
    dual solver. *)
Record Environment := mkEnvironment {
  classification : E_ObjectiveFunctionClassification;
  objectiveIsDualUnbounded : bool;
  allVariables : list ProblemVariable;
  getDualAuxiliaryObjectiveVariableIndex : nat }.

Definition getCurrentVariableBounds (varIndex : nat) (s : MIPSolverCbc)
  : option (double * double) :=
  nth_error (osiColBounds s) varIndex.

Fixpoint setColBounds (varIndex : nat) (b : double * double)
  (cols : list (double * double)) : list (double * double) :=
  match cols, varIndex with
  | [], _ => []
  | _ :: rest, O => b :: rest
  | c :: rest, S n => c :: setColBounds n b rest
  end.

(** Lines 975-991.  A column the interface does not have is answered by the
    interface's exception, which is caught and logged. *)
Definition updateVariableBound (varIndex : nat) (lowerBound upperBound : double)
  (s : MIPSolverCbc) : MIPSolverCbc :=
  match getCurrentVariableBounds varIndex s with
  | Some (currentLower, currentUpper) =>
    if ((currentLower =? lowerBound) && (currentUpper =? upperBound))%float then s
    else set_osiColBounds (setColBounds varIndex (lowerBound, upperBound) (osiColBounds s)) s
  | None =>
    outputError "Error when updating variable bounds for variable index"%string s
  end.

Definition set_MIPStarts (l : list (list (string * double))) (s : MIPSolverCbc)
  : MIPSolverCbc :=
  mkMIPSolverCbc (numberOfVariables s) (variableTypes s) (variableNames s)
    (variableLowerBounds s) (variableUpperBounds s) (isProblemDiscrete s) (coinModel s)
    (osiColBounds s) (cbcRuns s) (hasInfeasibilityRepairBeenPerformed s) (errors s) l.

(** What [cbcModel] answers to the queries of [getSolutionStatus]. *)
Record CbcAnswers := mkCbcAnswers {
  isProvenOptimal : bool;
  isProvenInfeasible : bool;
  isProvenDualInfeasible : bool;
  isSolutionLimitReached : bool;
  isSecondsLimitReached : bool;
  isNodeLimitReached : bool;
  isAbandoned : bool;
  isContinuousUnbounded : bool;
  status : Z }.

(** [getSolutionStatus] (lines 324-371): the status, and what it sends to
    [outputError]. *)
Definition getSolutionStatus (a : CbcAnswers) : E_ProblemSolutionStatus * option string :=
  if isProvenOptimal a then (Optimal, None)
  else if isProvenInfeasible a then (Infeasible, None)
  else if isProvenDualInfeasible a then (Unbounded, None)
  else if isSolutionLimitReached a then (SolutionLimit, None)
  else if isSecondsLimitReached a then (TimeLimit, None)
  else if isNodeLimitReached a then (NodeLimit, None)
  else if isAbandoned a then (Abort, None)
  else if isContinuousUnbounded a then (Unbounded, None)
  else if (status a =? 5)%Z then (Abort, None)
  else (Error, Some "MIP solver return status unknown."%string).

(** What the Cbc library does for [solveProblem]: whether [setMIPStart]
    throws on a MIP start, and what the model answers after the [n]-th
    [CbcMain1] of the solver for the given column bounds, [None] when that
    run throws. *)
Record CbcLibrary := mkCbcLibrary {
  setMIPStartThrows : list (string * double) -> bool;
  answersAfter : nat -> list (double * double) -> option CbcAnswers }.

Section SolveProblem.

Variable CbcMain1 : CbcLibrary.
Variable env : Environment.

(** [CbcMain1] followed by [getSolutionStatus()]; [None] is an exception. *)
Definition runCbc (s : MIPSolverCbc) : MIPSolverCbc * option E_ProblemSolutionStatus :=
  let s' := set_cbcRuns (S (cbcRuns s)) s in
  match answersAfter CbcMain1 (cbcRuns s) (osiColBounds s) with
  | None => (s', None)
  | Some a =>
    let '(MIPSolutionStatus, message) := getSolutionStatus a in
    (match message with Some msg => outputError msg s' | None => s' end,
     Some MIPSolutionStatus)
  end.

(** Lines 417-430: the MIP starts provided go to the model and are dropped;
    when [setMIPStart] throws on one, the error is logged and they are
    kept. *)
Definition addMIPStarts (s : MIPSolverCbc) : MIPSolverCbc :=
  if existsb (setMIPStartThrows CbcMain1) (MIPStarts s)
  then outputError "Error when adding MIP start to Cbc"%string s
  else set_MIPStarts [] s.

(** The bounds the unbounded retry imposes (lines 497 and 506-507). *)
Definition retryLowerBound : double := (- getUnboundedVariableBoundValue / 10e30)%float.
Definition retryUpperBound : double := (getUnboundedVariableBoundValue / 10e30)%float.

(** Lines 492-500. *)
Fixpoint tightenDualUnbounded (vars : list ProblemVariable)
  (variableBoundsUpdated : bool) (s : MIPSolverCbc) : bool * MIPSolverCbc :=
  match vars with
  | [] => (variableBoundsUpdated, s)
  | V :: rest =>
    if isDualUnbounded V
    then tightenDualUnbounded rest true
           (updateVariableBound (index V) retryLowerBound retryUpperBound s)
    else tightenDualUnbounded rest variableBoundsUpdated s
  end.

(** Lines 529-533. *)
Fixpoint restoreDualUnbounded (vars : list ProblemVariable) (s : MIPSolverCbc)
  : MIPSolverCbc :=
  match vars with
  | [] => s
  | V :: rest =>
    if isDualUnbounded V
    then restoreDualUnbounded rest
           (updateVariableBound (index V) (lowerBound V) (upperBound V) s)
    else restoreDualUnbounded rest s
  end.

(** Lines 450-476: the retry after [Infeasible].  [None] is an exception
    that leaves [solveProblem]. *)
Definition infeasibleRetry (s : MIPSolverCbc) (st : E_ProblemSolutionStatus)
  : MIPSolverCbc * option E_ProblemSolutionStatus :=
  if status_eqb st Infeasible
     && classification_eqb (classification env) QuadraticConsideredAsNonlinear
  then
    let aux := getDualAuxiliaryObjectiveVariableIndex env in
    let s1 := set_osiColBounds
                (setColBounds aux ((-1000000000.0)%float, 1000000000.0%float)
                   (osiColBounds s)) s in
    match runCbc s1 with
    | (s2, None) => (s2, None)
    | (s2, Some st') =>
      (set_osiColBounds
         (setColBounds aux ((- getUnboundedVariableBoundValue)%float,
                            getUnboundedVariableBoundValue) (osiColBounds s2)) s2,
       Some st')
    end
  else (s, Some st).

(** Lines 478-537: the retry after [Unbounded]. *)
Definition unboundedRetry (s : MIPSolverCbc) (st : E_ProblemSolutionStatus)
  : MIPSolverCbc * option E_ProblemSolutionStatus :=
  if status_eqb st Unbounded then
    let '(variableBoundsUpdated, s1) :=
      if (classification_eqb (classification env) Linear && objectiveIsDualUnbounded env)
         || (classification_eqb (classification env) Quadratic && objectiveIsDualUnbounded env)
      then tightenDualUnbounded (allVariables env) false s
      else if classification_geb (classification env) QuadraticConsideredAsNonlinear
      then (true, updateVariableBound (getDualAuxiliaryObjectiveVariableIndex env)
                    retryLowerBound retryUpperBound s)
      else (false, s) in
    if variableBoundsUpdated then
      match runCbc s1 with
      | (s2, None) => (s2, None)
      | (s2, Some st') =>
        (set_hasInfeasibilityRepairBeenPerformed true
           (restoreDualUnbounded (allVariables env) s2), Some st')
      end
    else (s1, Some st)
  else (s, Some st).

(** [solveProblem], from the first run of Cbc on (lines 411-540).  An
    exception in the first run is caught and becomes the status [Error]. *)
Definition solveProblem (s : MIPSolverCbc)
  : MIPSolverCbc * option E_ProblemSolutionStatus :=
  let '(s1, MIPSolutionStatus) :=
    match runCbc (addMIPStarts s) with
    | (s', Some st) => (s', st)
    | (s', None) =>
      (outputError "Error when solving subproblem with Cbc"%string s', Error)
    end in
  match infeasibleRetry s1 MIPSolutionStatus with
  | (s2, None) => (s2, None)
  | (s2, Some st) => unboundedRetry s2 st
  end.

End SolveProblem.

(** A problem whose objective is nonlinear: one ordinary variable [x0] in
    [[0, 10]] and the auxiliary objective variable at index 1, which the
    solver holds at [[-1e50, 1e50]].  Cbc reports [Unbounded] on its first run
    (the model is proven dual infeasible) and [Optimal] on its second; no MIP
    start is provided. *)
Definition nonlinearEnv : Environment :=
  mkEnvironment Nonlinear false [mkProblemVariable 0 0%float 10%float false] 1.

Definition nonlinearSolver : MIPSolverCbc :=
  set_osiColBounds
    [(0%float, 10%float);
     ((- getUnboundedVariableBoundValue)%float, getUnboundedVariableBoundValue)]
    initialSolver.

Definition provenOptimal : CbcAnswers :=
  mkCbcAnswers true false false false false false false false 0.

Definition provenDualInfeasible : CbcAnswers :=
  mkCbcAnswers false false true false false false false false 0.

Definition unboundedThenOptimal : CbcLibrary :=
  mkCbcLibrary (fun _ => false)
    (fun n _ => match n with O => Some provenDualInfeasible | _ => Some provenOptimal end).

(** *** Facts about [addVariable] *)

Lemma clampLowerBound_notBelow (x : double) :
  notBelowUnboundedValue (clampLowerBound x) = true.
Proof.
  unfold notBelowUnboundedValue, clampLowerBound.
  destruct (x <? - getUnboundedVariableBoundValue)%float eqn:E.
  - rewrite ltb_irrefl. reflexivity.
  - rewrite E. reflexivity.
Qed.

Lemma clampUpperBound_notAbove (x : double) :
  notAboveUnboundedValue (clampUpperBound x) = true.
Proof.
  unfold notAboveUnboundedValue, clampUpperBound, gtb.
  destruct (getUnboundedVariableBoundValue <? x)%float eqn:E.
  - rewrite ltb_irrefl. reflexivity.
  - rewrite E. reflexivity.
Qed.

Lemma addVariable_try_keeps_vectors t i name type lb ub s :
  let s' := fst (addVariable_try t i name type lb ub s) in
  variableLowerBounds s' = variableLowerBounds s /\
  variableUpperBounds s' = variableUpperBounds s /\
  numberOfVariables s' = numberOfVariables s.
Proof.
  unfold addVariable_try.
  destruct (throwsAt t SetColumnBounds); [simpl; auto|].
  destruct (throwsAt t SetColName); [simpl; auto|].
  destruct type; simpl; auto; destruct (throwsAt t SetInteger); simpl; auto.
Qed.

(** What a call stores: nothing when it fails, the two clamped bounds at the
    end of the two vectors when it succeeds. *)
Lemma addVariable_stores t name type lb ub s :
  let r := addVariable t name type lb ub s in
  if snd r
  then variableLowerBounds (fst r) = variableLowerBounds s ++ [clampLowerBound lb] /\
       variableUpperBounds (fst r) = variableUpperBounds s ++ [clampUpperBound ub]
  else variableLowerBounds (fst r) = variableLowerBounds s /\
       variableUpperBounds (fst r) = variableUpperBounds s.
Proof.
  unfold addVariable.
  pose proof (addVariable_try_keeps_vectors t (numberOfVariables s) name type
                (clampLowerBound lb) (clampUpperBound ub) s) as H.
  cbn zeta in *.
  destruct (addVariable_try t (numberOfVariables s) name type
              (clampLowerBound lb) (clampUpperBound ub) s) as [s' [|]];
    simpl in *; destruct H as (Hl & Hu & _); rewrite Hl, Hu; auto.
Qed.

Lemma addVariables_invariant calls : forall s,
  Forall (fun x => notBelowUnboundedValue x = true) (variableLowerBounds s) ->
  Forall (fun x => notAboveUnboundedValue x = true) (variableUpperBounds s) ->
  Forall (fun x => notBelowUnboundedValue x = true)
         (variableLowerBounds (addVariables calls s)) /\
  Forall (fun x => notAboveUnboundedValue x = true)
         (variableUpperBounds (addVariables calls s)).
Proof.
  induction calls as [|c rest IH]; intros s Hl Hu; [split; assumption|].
  unfold addVariables in *. simpl fold_left.
  pose proof (addVariable_stores (callThrows c) (callName c) (callType c)
                (callLowerBound c) (callUpperBound c) s) as H.
  cbn zeta in H.
  destruct (addVariable (callThrows c) (callName c) (callType c)
              (callLowerBound c) (callUpperBound c) s) as [s' ok].
  simpl in *. apply IH; destruct ok; destruct H as (Hl' & Hu'); rewrite ?Hl', ?Hu';
    try assumption; apply Forall_app; split; try assumption;
    constructor; auto using clampLowerBound_notBelow, clampUpperBound_notAbove.
Qed.

Lemma clampLowerBound_cases (x : double) :
  (x <? - getUnboundedVariableBoundValue)%float = true
    /\ clampLowerBound x = (- getUnboundedVariableBoundValue)%float
  \/ (x <? - getUnboundedVariableBoundValue)%float = false /\ clampLowerBound x = x.
Proof.
  unfold clampLowerBound.
  destruct (x <? - getUnboundedVariableBoundValue)%float; [left|right]; auto.
Qed.

Lemma clampUpperBound_cases (x : double) :
  (getUnboundedVariableBoundValue <? x)%float = true
    /\ clampUpperBound x = getUnboundedVariableBoundValue
  \/ (getUnboundedVariableBoundValue <? x)%float = false /\ clampUpperBound x = x.
Proof.
  unfold clampUpperBound, gtb.
  destruct (getUnboundedVariableBoundValue <? x)%float; [left|right]; auto.
Qed.

(** C10, as the code has it.  On a solver reached from a fresh one by any
    sequence of calls, a call of [addVariable] that succeeds appends to
    [variableLowerBounds] the caller's lower bound, replaced by [-1e50] when
    it is below [-1e50], and to [variableUpperBounds] the caller's upper
    bound, replaced by [1e50] when it is above [1e50]; a call that fails
    appends nothing.  Neither clamp has another side.  So every entry of
    [variableLowerBounds] is not below [-1e50] and every entry of
    [variableUpperBounds] is not above [1e50]. *)
Theorem addVariable_bounds_clamped_one_sided (calls : list AddVariableCall)
  (t : option CoinCall) (name : string) (type : E_VariableType) (lb ub : double) :
  (if snd (addVariable t name type lb ub (addVariables calls initialSolver))
   then variableLowerBounds
          (fst (addVariable t name type lb ub (addVariables calls initialSolver)))
        = variableLowerBounds (addVariables calls initialSolver) ++ [clampLowerBound lb] /\
        variableUpperBounds
          (fst (addVariable t name type lb ub (addVariables calls initialSolver)))
        = variableUpperBounds (addVariables calls initialSolver) ++ [clampUpperBound ub]
   else variableLowerBounds
          (fst (addVariable t name type lb ub (addVariables calls initialSolver)))
        = variableLowerBounds (addVariables calls initialSolver) /\
        variableUpperBounds
          (fst (addVariable t name type lb ub (addVariables calls initialSolver)))
        = variableUpperBounds (addVariables calls initialSolver)) /\
  ((lb <? - getUnboundedVariableBoundValue)%float = true
     /\ clampLowerBound lb = (- getUnboundedVariableBoundValue)%float
   \/ (lb <? - getUnboundedVariableBoundValue)%float = false /\ clampLowerBound lb = lb) /\
  ((getUnboundedVariableBoundValue <? ub)%float = true
     /\ clampUpperBound ub = getUnboundedVariableBoundValue
   \/ (getUnboundedVariableBoundValue <? ub)%float = false /\ clampUpperBound ub = ub) /\
  Forall (fun x => notBelowUnboundedValue x = true)
         (variableLowerBounds
            (fst (addVariable t name type lb ub (addVariables calls initialSolver)))) /\
  Forall (fun x => notAboveUnboundedValue x = true)
         (variableUpperBounds
            (fst (addVariable t name type lb ub (addVariables calls initialSolver)))).
Proof.
  split; [apply addVariable_stores|].
  split; [apply clampLowerBound_cases|]. split; [apply clampUpperBound_cases|].
  pose proof (addVariables_invariant (calls ++ [mkCall t name type lb ub]) initialSolver
                (Forall_nil _) (Forall_nil _)) as H.
  unfold addVariables in H. rewrite fold_left_app in H. exact H.
Qed.

(** C10, as stated, fails: a lower bound of [1e60] with an upper bound of
    [1e70] is accepted, and the lower bound is stored as it came, outside
    [[-1e50, 1e50]]. *)
Lemma addVariable_lower_bound_stored_outside_interval :
  snd (addVariable None "x"%string Real 1e60%float 1e70%float initialSolver) = true /\
  variableLowerBounds
    (fst (addVariable None "x"%string Real 1e60%float 1e70%float initialSolver))
    = [1e60%float] /\
  variableUpperBounds
    (fst (addVariable None "x"%string Real 1e60%float 1e70%float initialSolver))
    = [getUnboundedVariableBoundValue] /\
  withinUnboundedValue 1e60%float = false.
Proof. repeat split; vm_compute; reflexivity. Qed.

(** *** Facts about [solveProblem] *)

Lemma nth_error_setColBounds_other cols : forall i j b,
  i <> j -> nth_error (setColBounds i b cols) j = nth_error cols j.
Proof.
  induction cols as [|c rest IH]; intros i j b Hij; [destruct i; reflexivity|].
  destruct i, j; simpl; try reflexivity; try congruence.
  apply IH. congruence.
Qed.

Lemma nth_error_setColBounds_same cols : forall i b,
  (i < length cols)%nat -> nth_error (setColBounds i b cols) i = Some b.
Proof.
  induction cols as [|c rest IH]; intros i b Hi; simpl in Hi; [lia|].
  destruct i; simpl; [reflexivity|]. apply IH. lia.
Qed.

Lemma updateVariableBound_other i j lb ub s :
  i <> j ->
  nth_error (osiColBounds (updateVariableBound i lb ub s)) j
  = nth_error (osiColBounds s) j.
Proof.
  intros Hij. unfold updateVariableBound, getCurrentVariableBounds.
  destruct (nth_error (osiColBounds s) i) as [[l u]|]; [|reflexivity].
  destruct ((l =? lb) && (u =? ub))%float; [reflexivity|].
  simpl. apply nth_error_setColBounds_other. exact Hij.
Qed.

(** The restoring loop only writes the columns of dual-unbounded variables. *)
Lemma restoreDualUnbounded_other vars : forall j s,
  (forall V, In V vars -> isDualUnbounded V = true -> index V <> j) ->
  nth_error (osiColBounds (restoreDualUnbounded vars s)) j
  = nth_error (osiColBounds s) j.
Proof.
  induction vars as [|V rest IH]; intros j s Hj; [reflexivity|].
  simpl. destruct (isDualUnbounded V) eqn:E.
  - rewrite IH by (intros W HW; apply Hj; right; exact HW).
    apply updateVariableBound_other. apply Hj; [left; reflexivity|exact E].
  - apply IH. intros W HW. apply Hj. right. exact HW.
Qed.

Lemma updateVariableBound_cbcRuns i lb ub s :
  cbcRuns (updateVariableBound i lb ub s) = cbcRuns s.
Proof.
  unfold updateVariableBound.
  destruct (getCurrentVariableBounds i s) as [[l u]|]; [|reflexivity].
  destruct ((l =? lb) && (u =? ub))%float; reflexivity.
Qed.

Lemma restoreDualUnbounded_cbcRuns vars : forall s,
  cbcRuns (restoreDualUnbounded vars s) = cbcRuns s.
Proof.
  induction vars as [|V rest IH]; intros s; [reflexivity|].
  simpl. destruct (isDualUnbounded V); rewrite IH;
    [apply updateVariableBound_cbcRuns|reflexivity].
Qed.

Lemma above_quadratic_not_linear_or_quadratic c :
  classification_geb c QuadraticConsideredAsNonlinear = true ->
  classification_eqb c Linear = false /\ classification_eqb c Quadratic = false.
Proof. destruct c; cbv; intuition congruence. Qed.

(** The auxiliary-objective branch of the unbounded retry in general: when
    the first run of Cbc is [Unbounded], the objective is classified
    [QuadraticConsideredAsNonlinear] or above, and the retry returns, the
    auxiliary objective variable keeps the retry's bounds on return, unless it
    is itself listed as a dual-unbounded variable of the problem. *)
Lemma runCbc_answers CbcMain1 s a :
  answersAfter CbcMain1 (cbcRuns s) (osiColBounds s) = Some a ->
  snd (runCbc CbcMain1 s) = Some (fst (getSolutionStatus a)) /\
  cbcRuns (fst (runCbc CbcMain1 s)) = S (cbcRuns s) /\
  osiColBounds (fst (runCbc CbcMain1 s)) = osiColBounds s.
Proof.
  intros H. unfold runCbc. rewrite H.
  destruct (getSolutionStatus a) as [st [msg|]]; repeat split.
Qed.

Lemma addMIPStarts_frame CbcMain1 s :
  cbcRuns (addMIPStarts CbcMain1 s) = cbcRuns s /\
  osiColBounds (addMIPStarts CbcMain1 s) = osiColBounds s.
Proof. unfold addMIPStarts. destruct (existsb _ _); split; reflexivity. Qed.

Lemma solveProblem_auxiliary_bounds_after_retry CbcMain1 env s l u first second :
  answersAfter CbcMain1 (cbcRuns s) (osiColBounds s) = Some first ->
  fst (getSolutionStatus first) = Unbounded ->
  classification_geb (classification env) QuadraticConsideredAsNonlinear = true ->
  nth_error (osiColBounds s) (getDualAuxiliaryObjectiveVariableIndex env) = Some (l, u) ->
  ((l =? retryLowerBound) && (u =? retryUpperBound))%float = false ->
  (forall V, In V (allVariables env) -> isDualUnbounded V = true ->
             index V <> getDualAuxiliaryObjectiveVariableIndex env) ->
  answersAfter CbcMain1 (S (cbcRuns s))
    (setColBounds (getDualAuxiliaryObjectiveVariableIndex env)
       (retryLowerBound, retryUpperBound) (osiColBounds s)) = Some second ->
  snd (solveProblem CbcMain1 env s) = Some (fst (getSolutionStatus second)) /\
  cbcRuns (fst (solveProblem CbcMain1 env s)) = S (S (cbcRuns s)) /\
  nth_error (osiColBounds (fst (solveProblem CbcMain1 env s)))
            (getDualAuxiliaryObjectiveVariableIndex env)
  = Some (retryLowerBound, retryUpperBound).
Proof.
  intros H1 Hst Hcls Haux Hne Hother H2. unfold solveProblem.
  destruct (addMIPStarts_frame CbcMain1 s) as [Mr Mb].
  rewrite <- Mr, <- Mb in H1.
  destruct (runCbc_answers CbcMain1 _ _ H1) as (R1 & R2 & R3).
  destruct (runCbc CbcMain1 (addMIPStarts CbcMain1 s)) as [s1 [st1|]];
    [|discriminate]. simpl in R1, R2, R3. inversion R1; subst st1. rewrite Hst.
  unfold infeasibleRetry. simpl status_eqb. simpl andb. cbv iota.
  unfold unboundedRetry. simpl status_eqb. cbv iota.
  destruct (above_quadratic_not_linear_or_quadratic _ Hcls) as [Hlin Hquad].
  rewrite Hlin, Hquad, Hcls. simpl andb. simpl orb. cbv iota.
  rewrite Mr in R2. rewrite Mb in R3.
  assert (Hup : updateVariableBound (getDualAuxiliaryObjectiveVariableIndex env)
                  retryLowerBound retryUpperBound s1
                = set_osiColBounds
                    (setColBounds (getDualAuxiliaryObjectiveVariableIndex env)
                       (retryLowerBound, retryUpperBound) (osiColBounds s1)) s1).
  { unfold updateVariableBound, getCurrentVariableBounds. rewrite R3, Haux, Hne.
    reflexivity. }
  rewrite Hup.
  set (s2 := set_osiColBounds _ s1).
  assert (H2' : answersAfter CbcMain1 (cbcRuns s2) (osiColBounds s2) = Some second).
  { unfold s2. simpl. rewrite R2, R3. exact H2. }
  destruct (runCbc_answers CbcMain1 _ _ H2') as (Q1 & Q2 & Q3).
  destruct (runCbc CbcMain1 s2) as [s3 [st3|]]; [|discriminate].
  simpl in Q1, Q2, Q3. inversion Q1; subst st3.
  simpl snd. simpl fst.
  split; [reflexivity|]. split.
  - simpl. rewrite restoreDualUnbounded_cbcRuns, Q2. unfold s2. simpl. rewrite R2.
    reflexivity.
  - simpl. rewrite restoreDualUnbounded_other by exact Hother.
    rewrite Q3. unfold s2. simpl. apply nth_error_setColBounds_same.
    rewrite R3. apply nth_error_Some. rewrite Haux. discriminate.
Qed.

(** The solver's bounds [current] stand for the bounds [declared]: they are
    those very values, or [updateVariableBound] found them equal as numbers
    and left them in place. *)
Definition boundsAgree (current declared : double * double) : Prop :=
  current = declared
  \/ ((fst current =? fst declared) && (snd current =? snd declared))%float = true.

Lemma length_setColBounds cols : forall i b,
  length (setColBounds i b cols) = length cols.
Proof.
  induction cols as [|c rest IH]; intros i b; [destruct i; reflexivity|].
  destruct i; simpl; [reflexivity|]. rewrite IH. reflexivity.
Qed.

Lemma updateVariableBound_length i lb ub s :
  length (osiColBounds (updateVariableBound i lb ub s)) = length (osiColBounds s).
Proof.
  unfold updateVariableBound.
  destruct (getCurrentVariableBounds i s) as [[l u]|]; [|reflexivity].
  destruct ((l =? lb) && (u =? ub))%float; [reflexivity|].
  simpl. apply length_setColBounds.
Qed.

Lemma updateVariableBound_same i lb ub s :
  (i < length (osiColBounds s))%nat ->
  exists b, nth_error (osiColBounds (updateVariableBound i lb ub s)) i = Some b /\
            boundsAgree b (lb, ub).
Proof.
  intros Hi. unfold updateVariableBound, getCurrentVariableBounds.
  destruct (nth_error (osiColBounds s) i) as [[l u]|] eqn:E.
  - destruct ((l =? lb) && (u =? ub))%float eqn:Heq.
    + exists (l, u). split; [exact E|right; exact Heq].
    + exists (lb, ub). split; [|left; reflexivity].
      simpl. apply nth_error_setColBounds_same. exact Hi.
  - apply nth_error_None in E. lia.
Qed.

Lemma restoreDualUnbounded_length vars : forall s,
  length (osiColBounds (restoreDualUnbounded vars s)) = length (osiColBounds s).
Proof.
  induction vars as [|V rest IH]; intros s; [reflexivity|].
  simpl. destruct (isDualUnbounded V); rewrite IH;
    [apply updateVariableBound_length|reflexivity].
Qed.

(** The restoring loop leaves every dual-unbounded variable at its declared
    bounds, provided variables that share a column declare the same bounds. *)
Lemma restoreDualUnbounded_restores vars : forall s V,
  (In V vars /\ isDualUnbounded V = true
   \/ exists b, nth_error (osiColBounds s) (index V) = Some b
                /\ boundsAgree b (lowerBound V, upperBound V)) ->
  (forall W, In W vars -> isDualUnbounded W = true -> index W = index V ->
             (lowerBound W, upperBound W) = (lowerBound V, upperBound V)) ->
  (index V < length (osiColBounds s))%nat ->
  exists b, nth_error (osiColBounds (restoreDualUnbounded vars s)) (index V) = Some b /\
            boundsAgree b (lowerBound V, upperBound V).
Proof.
  induction vars as [|W rest IH]; intros s V Hcase Hsame Hrange.
  - simpl. destruct Hcase as [[[] _]|H]. exact H.
  - simpl. destruct (isDualUnbounded W) eqn:HW.
    + apply IH.
      * destruct (Nat.eq_dec (index W) (index V)) as [Heq|Hne].
        -- right. rewrite <- Heq.
           rewrite <- (Hsame W (or_introl eq_refl) HW Heq).
           apply updateVariableBound_same. rewrite Heq. exact Hrange.
        -- destruct Hcase as [[[HV|HV] Hd]|(b & Hb & Hagree)].
           ++ subst W. congruence.
           ++ left. split; assumption.
           ++ right. exists b. split; [|exact Hagree].
              rewrite updateVariableBound_other by exact Hne. exact Hb.
      * intros W' HW'. apply Hsame. right. exact HW'.
      * rewrite updateVariableBound_length. exact Hrange.
    + apply IH.
      * destruct Hcase as [[[HV|HV] Hd]|H].
        -- subst W. congruence.
        -- left. split; assumption.
        -- right. exact H.
      * intros W' HW'. apply Hsame. right. exact HW'.
      * exact Hrange.
Qed.

Lemma tightenDualUnbounded_spec vars : forall updated s,
  fst (tightenDualUnbounded vars updated s) = updated || existsb isDualUnbounded vars /\
  length (osiColBounds (snd (tightenDualUnbounded vars updated s)))
    = length (osiColBounds s) /\
  cbcRuns (snd (tightenDualUnbounded vars updated s)) = cbcRuns s.
Proof.
  induction vars as [|V rest IH]; intros updated s; simpl.
  - rewrite orb_false_r. auto.
  - destruct (isDualUnbounded V); simpl.
    + destruct (IH true (updateVariableBound (index V) retryLowerBound retryUpperBound s))
        as (H1 & H2 & H3).
      rewrite H1, H2, H3, updateVariableBound_length, updateVariableBound_cbcRuns.
      rewrite orb_true_r. auto.
    + apply IH.
Qed.

(** The variable branch of the unbounded retry in general: when the first
    run of Cbc is [Unbounded], the objective is [Linear] or [Quadratic] and
    dual unbounded, some variable is dual unbounded, and the retry returns,
    Cbc has run twice and every dual-unbounded variable is back at the bounds
    the problem declares for it. *)
Lemma solveProblem_restores_declared_bounds CbcMain1 env s V first :
  answersAfter CbcMain1 (cbcRuns s) (osiColBounds s) = Some first ->
  fst (getSolutionStatus first) = Unbounded ->
  (classification_eqb (classification env) Linear
   || classification_eqb (classification env) Quadratic) = true ->
  objectiveIsDualUnbounded env = true ->
  In V (allVariables env) -> isDualUnbounded V = true ->
  (forall W, In W (allVariables env) -> isDualUnbounded W = true -> index W = index V ->
             (lowerBound W, upperBound W) = (lowerBound V, upperBound V)) ->
  (index V < length (osiColBounds s))%nat ->
  snd (solveProblem CbcMain1 env s) <> None ->
  cbcRuns (fst (solveProblem CbcMain1 env s)) = S (S (cbcRuns s)) /\
  exists b, nth_error (osiColBounds (fst (solveProblem CbcMain1 env s))) (index V) = Some b /\
            boundsAgree b (lowerBound V, upperBound V).
Proof.
  intros H1 Hst Hcls Hobj HV Hd Hsame Hrange.
  unfold solveProblem.
  destruct (addMIPStarts_frame CbcMain1 s) as [Mr Mb].
  rewrite <- Mr, <- Mb in H1.
  destruct (runCbc_answers CbcMain1 _ _ H1) as (R1 & R2 & R3).
  destruct (runCbc CbcMain1 (addMIPStarts CbcMain1 s)) as [s0 [st0|]];
    [|discriminate]. simpl in R1, R2, R3. inversion R1; subst st0. rewrite Hst.
  rewrite Mr in R2. rewrite Mb in R3.
  assert (Hq : classification_eqb (classification env) QuadraticConsideredAsNonlinear
               = false).
  { destruct (classification env); simpl in *; try reflexivity; discriminate. }
  unfold infeasibleRetry. simpl status_eqb. simpl andb. cbv iota.
  unfold unboundedRetry. simpl status_eqb. cbv iota.
  assert (Hguard : classification_eqb (classification env) Linear
                   && objectiveIsDualUnbounded env
                   || classification_eqb (classification env) Quadratic
                      && objectiveIsDualUnbounded env = true).
  { rewrite Hobj, !andb_true_r. exact Hcls. }
  rewrite Hguard.
  destruct (tightenDualUnbounded_spec (allVariables env) false s0) as (T1 & T2 & T3).
  destruct (tightenDualUnbounded (allVariables env) false _) as [updated s1].
  simpl in T1, T2, T3.
  assert (Hup : updated = true).
  { rewrite T1. apply existsb_exists. exists V. split; assumption. }
  rewrite Hup. unfold runCbc.
  destruct (answersAfter CbcMain1 (cbcRuns s1) (osiColBounds s1)) as [second|]; simpl;
    [|intros H; exfalso; apply H; reflexivity].
  destruct (getSolutionStatus second) as [st' [msg|]]; simpl; intros _.
  - split.
    + rewrite restoreDualUnbounded_cbcRuns. simpl. rewrite T3, R2. reflexivity.
    + apply restoreDualUnbounded_restores; [left; split; assumption|exact Hsame|].
      simpl. rewrite T2, R3. exact Hrange.
  - split.
    + rewrite restoreDualUnbounded_cbcRuns. simpl. rewrite T3, R2. reflexivity.
    + apply restoreDualUnbounded_restores; [left; split; assumption|exact Hsame|].
      simpl. rewrite T2, R3. exact Hrange.
Qed.

(** C7 at a failing input.  With a nonlinear objective the retry tightens
    the auxiliary objective variable, Cbc runs a second time and returns
    [Optimal], and [solveProblem] returns with that variable still at the
    retry's bounds of about [1e19] in magnitude: its bounds of [-1e50] and
    [1e50] from before the retry are not put back. *)
Theorem solveProblem_leaves_auxiliary_bounds_tightened :
  snd (solveProblem unboundedThenOptimal nonlinearEnv nonlinearSolver) = Some Optimal /\
  cbcRuns (fst (solveProblem unboundedThenOptimal nonlinearEnv nonlinearSolver)) = 2%nat /\
  osiColBounds nonlinearSolver
    = [(0%float, 10%float);
       ((- getUnboundedVariableBoundValue)%float, getUnboundedVariableBoundValue)] /\
  osiColBounds (fst (solveProblem unboundedThenOptimal nonlinearEnv nonlinearSolver))
    = [(0%float, 10%float); (retryLowerBound, retryUpperBound)] /\
  (retryUpperBound <? getUnboundedVariableBoundValue)%float = true /\
  (- getUnboundedVariableBoundValue <? retryLowerBound)%float = true.
Proof. repeat split; vm_compute; reflexivity. Qed.

End Cbc.

(** ** The Gurobi lazy-constraint callback: [GurobiCallback] *)

Module Gurobi.

Import Selector.

(** *** Data *)

Inductive E_DualSolutionSource := MIPSolverBound.
Inductive E_PrimalSolutionSource := LazyConstraintCallback | PrimalTask.
Inductive ES_HyperplaneCutStrategy := ESH | ECP.

Record DualSolution := mkDualSolution {
  dualPoint : list double;
  dualSource : E_DualSolutionSource;
  objValue : double;
  dualIterFound : Z }.

Record GeneratedHyperplane := mkGeneratedHyperplane {
  generatedConstraintIndex : Z;
  genSourceConstraintIndex : Z;
  genGeneratedPoint : list double;
  genSource : E_HyperplaneSource;
  generatedIter : Z;
  isLazy : bool;
  isRemoved : bool }.

(** A linear expression as Gurobi accumulates it, term by term, and the
    constraint [expr <= rhs] handed to [addLazy]. *)
Record GRBTempConstr := mkGRBTempConstr {
  expr : list (double * Z);
  rhs : double }.

Record Iteration := mkIteration {
  iterationNumber : Z;
  isSolved : bool;
  relaxedLazyHyperplanesAdded : Z;
  numHyperplanesAdded : Z;
  totNumHyperplanes : Z;
  solutionStatus : option E_ProblemSolutionStatus;
  iterObjectiveValue : double;
  numberOfExploredNodes : Z;
  numberOfOpenNodes : Z;
  currentObjectiveBounds : double * double }.

(** [env->results]: the bound pair, the incumbent, and the iterations. *)
Record Results := mkResults {
  dualBound : double;
  primalBound : double;
  primalSolution : list double;
  currentIteration : Iteration;
  closedIterations : list Iteration }.

(** [env->dualSolver->MIPSolver]: the two waiting lists, the ledger of
    generated hyperplanes, and the model's [Cutoff] parameter. *)
Record MIPSolver := mkMIPSolver {
  hyperplaneWaitingList : list Hyperplane;
  integerCutWaitingList : list (list Z * list Z);
  generatedHyperplanes : list GeneratedHyperplane;
  cutoff : option double }.

(** What the callback has asked of the running search. *)
Record Search := mkSearch {
  lazyConstraints : list GRBTempConstr;
  solutionsSet : list (nat * double);
  aborted : bool }.

(** The collaborators the callback invokes, in the order it invokes them. *)
Inductive TaskRun :=
| UpdateInteriorPoint
| SelectHyperplanePointsESH (pts : list SolutionPoint)
| SelectHyperplanePointsECP (pts : list SolutionPoint)
| SelectHyperplanePointsByObjectiveLinesearch (pts : list SolutionPoint)
| SelectPrimalSolutionFromLinesearch (pts : list SolutionPoint)
| SelectPrimalCandidatesFromNLP.

Record Log := mkLog {
  errors : list string;
  infos : list string;
  dualSolutionCandidates : list DualSolution;
  primalSolutionCandidates : list (SolutionPoint * E_PrimalSolutionSource);
  fixedNLPCandidates : list (list double);
  tasksRun : list TaskRun }.

(** The members of the callback object. *)
Record GurobiCallback := mkGurobiCallback {
  isMinimization : bool;
  numVar : nat;
  cbCalls : Z;
  lastUpdatedPrimal : double;
  lastExploredNodes : Z;
  lastOpenNodes : Z;
  lastNumAddedHyperplanes : Z;
  tmpVals : list double;
  tUpdateInteriorPoint : bool;
  taskSelectHPPtsByObjectiveLinesearch : bool;
  taskSelectPrimalSolutionFromLinesearch : bool }.

Record World := mkWorld {
  results : Results;
  solver : MIPSolver;
  search : Search;
  log : Log;
  statExploredNodes : Z;
  numberOfIntegerCuts : Z;
  cb : GurobiCallback }.

(** *** Field updates *)

Definition with_results (f : Results -> Results) (w : World) : World :=
  mkWorld (f (results w)) (solver w) (search w) (log w)
          (statExploredNodes w) (numberOfIntegerCuts w) (cb w).
Definition with_solver (f : MIPSolver -> MIPSolver) (w : World) : World :=
  mkWorld (results w) (f (solver w)) (search w) (log w)
          (statExploredNodes w) (numberOfIntegerCuts w) (cb w).
Definition with_search (f : Search -> Search) (w : World) : World :=
  mkWorld (results w) (solver w) (f (search w)) (log w)
          (statExploredNodes w) (numberOfIntegerCuts w) (cb w).
Definition with_log (f : Log -> Log) (w : World) : World :=
  mkWorld (results w) (solver w) (search w) (f (log w))
          (statExploredNodes w) (numberOfIntegerCuts w) (cb w).
Definition with_cb (f : GurobiCallback -> GurobiCallback) (w : World) : World :=
  mkWorld (results w) (solver w) (search w) (log w)
          (statExploredNodes w) (numberOfIntegerCuts w) (f (cb w)).
Definition set_statExploredNodes (n : Z) (w : World) : World :=
  mkWorld (results w) (solver w) (search w) (log w) n (numberOfIntegerCuts w) (cb w).
Definition set_numberOfIntegerCuts (n : Z) (w : World) : World :=
  mkWorld (results w) (solver w) (search w) (log w) (statExploredNodes w) n (cb w).

Definition with_currentIteration (f : Iteration -> Iteration) (r : Results) : Results :=
  mkResults (dualBound r) (primalBound r) (primalSolution r)
            (f (currentIteration r)) (closedIterations r).
Definition set_dualBound (b : double) (r : Results) : Results :=
  mkResults b (primalBound r) (primalSolution r) (currentIteration r) (closedIterations r).
Definition set_primal (b : double) (pt : list double) (r : Results) : Results :=
  mkResults (dualBound r) b pt (currentIteration r) (closedIterations r).

Definition set_relaxedLazyHyperplanesAdded (n : Z) (i : Iteration) : Iteration :=
  mkIteration (iterationNumber i) (isSolved i) n (numHyperplanesAdded i)
    (totNumHyperplanes i) (solutionStatus i) (iterObjectiveValue i)
    (numberOfExploredNodes i) (numberOfOpenNodes i) (currentObjectiveBounds i).
Definition count_hyperplane (i : Iteration) : Iteration :=
  mkIteration (iterationNumber i) (isSolved i) (relaxedLazyHyperplanesAdded i)
    (numHyperplanesAdded i + 1) (totNumHyperplanes i + 1) (solutionStatus i)
    (iterObjectiveValue i) (numberOfExploredNodes i) (numberOfOpenNodes i)
    (currentObjectiveBounds i).
Definition set_isSolved (b : bool) (i : Iteration) : Iteration :=
  mkIteration (iterationNumber i) b (relaxedLazyHyperplanesAdded i)
    (numHyperplanesAdded i) (totNumHyperplanes i) (solutionStatus i)
    (iterObjectiveValue i) (numberOfExploredNodes i) (numberOfOpenNodes i)
    (currentObjectiveBounds i).
(** Lines 265-273 in one step. *)
Definition record_solution (obj : double) (explored open : Z)
  (bounds : double * double) (i : Iteration) : Iteration :=
  mkIteration (iterationNumber i) (isSolved i) (relaxedLazyHyperplanesAdded i)
    (numHyperplanesAdded i) (totNumHyperplanes i) (Some Feasible) obj
    explored open bounds.

Definition set_hyperplaneWaitingList (l : list Hyperplane) (m : MIPSolver) : MIPSolver :=
  mkMIPSolver l (integerCutWaitingList m) (generatedHyperplanes m) (cutoff m).
Definition set_integerCutWaitingList (l : list (list Z * list Z)) (m : MIPSolver)
  : MIPSolver :=
  mkMIPSolver (hyperplaneWaitingList m) l (generatedHyperplanes m) (cutoff m).
Definition set_cutoff (c : double) (m : MIPSolver) : MIPSolver :=
  mkMIPSolver (hyperplaneWaitingList m) (integerCutWaitingList m)
              (generatedHyperplanes m) (Some c).

Definition addLazy (c : GRBTempConstr) (s : Search) : Search :=
  mkSearch (lazyConstraints s ++ [c]) (solutionsSet s) (aborted s).
Definition setSolution (i : nat) (v : double) (s : Search) : Search :=
  mkSearch (lazyConstraints s) (solutionsSet s ++ [(i, v)]) (aborted s).
Definition abort (s : Search) : Search :=
  mkSearch (lazyConstraints s) (solutionsSet s) true.

Definition outputError (msg : string) (l : Log) : Log :=
  mkLog (errors l ++ [msg]) (infos l) (dualSolutionCandidates l)
        (primalSolutionCandidates l) (fixedNLPCandidates l) (tasksRun l).
Definition outputInfo (msg : string) (l : Log) : Log :=
  mkLog (errors l) (infos l ++ [msg]) (dualSolutionCandidates l)
        (primalSolutionCandidates l) (fixedNLPCandidates l) (tasksRun l).
Definition log_dualCandidate (d : DualSolution) (l : Log) : Log :=
  mkLog (errors l) (infos l) (dualSolutionCandidates l ++ [d])
        (primalSolutionCandidates l) (fixedNLPCandidates l) (tasksRun l).
Definition log_primalCandidate (p : SolutionPoint * E_PrimalSolutionSource) (l : Log) : Log :=
  mkLog (errors l) (infos l) (dualSolutionCandidates l)
        (primalSolutionCandidates l ++ [p]) (fixedNLPCandidates l) (tasksRun l).
Definition log_fixedNLPCandidate (p : list double) (l : Log) : Log :=
  mkLog (errors l) (infos l) (dualSolutionCandidates l)
        (primalSolutionCandidates l) (fixedNLPCandidates l ++ [p]) (tasksRun l).
Definition log_task (t : TaskRun) (l : Log) : Log :=
  mkLog (errors l) (infos l) (dualSolutionCandidates l)
        (primalSolutionCandidates l) (fixedNLPCandidates l) (tasksRun l ++ [t]).

Definition set_cbCalls (n : Z) (c : GurobiCallback) : GurobiCallback :=
  mkGurobiCallback (isMinimization c) (numVar c) n (lastUpdatedPrimal c)
    (lastExploredNodes c) (lastOpenNodes c) (lastNumAddedHyperplanes c) (tmpVals c)
    (tUpdateInteriorPoint c) (taskSelectHPPtsByObjectiveLinesearch c)
    (taskSelectPrimalSolutionFromLinesearch c).
Definition set_lastNumAddedHyperplanes (n : Z) (c : GurobiCallback) : GurobiCallback :=
  mkGurobiCallback (isMinimization c) (numVar c) (cbCalls c) (lastUpdatedPrimal c)
    (lastExploredNodes c) (lastOpenNodes c) n (tmpVals c)
    (tUpdateInteriorPoint c) (taskSelectHPPtsByObjectiveLinesearch c)
    (taskSelectPrimalSolutionFromLinesearch c).
Definition set_lastNodes (explored open : Z) (c : GurobiCallback) : GurobiCallback :=
  mkGurobiCallback (isMinimization c) (numVar c) (cbCalls c) (lastUpdatedPrimal c)
    explored open (lastNumAddedHyperplanes c) (tmpVals c)
    (tUpdateInteriorPoint c) (taskSelectHPPtsByObjectiveLinesearch c)
    (taskSelectPrimalSolutionFromLinesearch c).
Definition set_lastUpdatedPrimal (b : double) (vals : list double) (c : GurobiCallback)
  : GurobiCallback :=
  mkGurobiCallback (isMinimization c) (numVar c) (cbCalls c) b
    (lastExploredNodes c) (lastOpenNodes c) (lastNumAddedHyperplanes c) vals
    (tUpdateInteriorPoint c) (taskSelectHPPtsByObjectiveLinesearch c)
    (taskSelectPrimalSolutionFromLinesearch c).

(** *** Collaborators *)

(** A problem as the callback consults it: [properties.numberOfNonlinearConstraints],
    [getMaxNumericConstraintValue] over the nonlinear constraints (the index
    of the constraint and its normalized value), and of the objective function
    [calculateValue], [properties.isMinimize] and [properties.classification]. *)
Record Problem := mkProblem {
  numberOfNonlinearConstraints : Z;
  getMaxNumericConstraintValue : list double -> Z * double;
  calculateValue : list double -> double;
  isMinimize : bool;
  classification : E_ObjectiveFunctionClassification }.

(** The settings the callback reads. [CutStrategy] is [ESH] or anything else,
    for which [ECP] stands. *)
Record Settings := mkSettings {
  ConstraintTolerance : double;
  MaxLazyConstraints : Z;
  CutStrategy : ES_HyperplaneCutStrategy;
  LinesearchUse : bool;
  UseIntegerCuts : bool;
  CutOffTolerance : double }.

(** Everything else the callback calls and the sources do not define: the
    termination tests, the hyperplane builder, the point selectors (each
    answers with the hyperplanes it pushes onto the waiting list), the primal
    tasks (each answers with the primal candidates it submits), the iteration
    [createIteration] opens, whether [addLazy] throws on a constraint, and
    the constraint that the two-argument [createIntegerCut] builds from the
    two index lists of a waiting integer cut. *)
Record Collaborators := mkCollaborators {
  problem : Problem;
  reformulatedProblem : Problem;
  settings : Settings;
  isAbsoluteObjectiveGapToleranceMet : Results -> bool;
  isRelativeObjectiveGapToleranceMet : Results -> bool;
  checkIterationLimit : Results -> bool;
  checkFixedNLPStrategy : Results -> SolutionPoint -> bool;
  hasAuxilliaryObjectiveVariable : bool;
  createHyperplaneTerms : Hyperplane -> option (list PairIndexValue * double);
  addLazyThrows : GRBTempConstr -> bool;
  runESH : list SolutionPoint -> list Hyperplane;
  runECP : list SolutionPoint -> list Hyperplane;
  runObjectiveLinesearch : list SolutionPoint -> list Hyperplane;
  primalLinesearchCandidates : list SolutionPoint -> list SolutionPoint;
  primalNLPCandidates : Results -> list SolutionPoint;
  createIteration : Results -> Iteration;
  defaultPairIndexValue : PairIndexValue;
  NumVars : nat;
  integerCutFor : list Z -> list Z -> GRBTempConstr }.

(** *** Events *)

Inductive Where :=
| POLLING | PRESOLVE | SIMPLEX | MIP | MIPSOL | MIPNODE | MESSAGE | BARRIER.

Definition GRB_OPTIMAL : Z := 2.

(** What Gurobi makes available in one invocation: the reason [where], the
    bound and objective it reports, the solution and node-relaxation values
    per variable, the node status, and the node counts (already converted to
    [int]). *)
Record Event := mkEvent {
  where_ : Where;
  OBJBND : double;
  MIPSOL_OBJ : double;
  getSolution : nat -> double;
  MIPNODE_STATUS : Z;
  getNodeRel : nat -> double;
  MIP_NODCNT : Z;
  MIP_NODLFT : Z }.

Definition valuesOf (get : nat -> double) (n : nat) : list double :=
  map get (seq 0 n).

Section Callback.

Variable ext : Collaborators.

(** *** The bound ledger *)

Definition improvesDual (isMin : bool) (candidate current : double) : bool :=
  if isMin then gtb candidate current else (candidate <? current)%float.
Definition improvesPrimal (isMin : bool) (candidate current : double) : bool :=
  if isMin then (candidate <? current)%float else gtb candidate current.

(** Modelled from the spec: [DualSolver::addDualSolutionCandidate] is not
    among the sources.  Spec 4.6: a candidate is accepted and the best-known
    bound updated only if the candidate improves on it, strictly and in the
    direction of the problem; a tie does not update. *)
Definition addDualSolutionCandidate (sol : DualSolution) (w : World) : World :=
  let w' := with_log (log_dualCandidate sol) w in
  if improvesDual (isMinimize (reformulatedProblem ext)) (objValue sol)
                  (dualBound (results w))
  then with_results (set_dualBound (objValue sol)) w'
  else w'.

(** Modelled from the spec: [PrimalSolver::addPrimalSolutionCandidate] is not
    among the sources.  Spec 4.6, as for the dual bound: the primal bound and
    the incumbent are replaced only by a candidate whose objective value is
    strictly better. *)
Definition addPrimalSolutionCandidate (pt : SolutionPoint)
  (src : E_PrimalSolutionSource) (w : World) : World :=
  let w' := with_log (log_primalCandidate (pt, src)) w in
  if improvesPrimal (isMinimize (reformulatedProblem ext)) (objectiveValue pt)
                    (primalBound (results w))
  then with_results (set_primal (objectiveValue pt) (point pt)) w'
  else w'.

Definition submitPrimalCandidates (pts : list SolutionPoint) (w : World) : World :=
  fold_left (fun w pt => addPrimalSolutionCandidate pt PrimalTask w) pts w.

(** *** [createHyperplane], [createIntegerCut], [addLazyConstraint] *)

(** Lines 419-437: the record [createHyperplane] fills in. *)
Definition genHyperplaneOf (hyperplane : Hyperplane) (currIter : Iteration)
  : GeneratedHyperplane :=
  let constrIndex := 0%Z in
  mkGeneratedHyperplane constrIndex (sourceConstraintIndex hyperplane)
    (generatedPoint hyperplane) (source hyperplane) (iterationNumber currIter)
    false false.

(** Lines 421-426: the expression built from all the terms, in order. *)
Definition exprOf (terms : list PairIndexValue) : list (double * Z) :=
  map (fun E => (value E, idx E)) terms.

(** The diagnostic of lines 407-410, without the index of the source
    constraint and the name of the variable that the code splices into it:
    neither the constraint object nor [Problem::getVariable] is under src. *)
Definition nanDiagnostic : string :=
  "     Warning: hyperplane for constraint not generated, NaN found in linear terms"%string.

(** Lines 387-449.  The record of lines 419-437 is filled in and dropped: the
    [push_back] onto the ledger of line 439 is commented out. *)
Definition createHyperplane (hyperplane : Hyperplane) (w : World) : World :=
  let currIter := currentIteration (results w) in
  match createHyperplaneTerms ext hyperplane with
  | None => w
  | Some (terms, constant) =>
    match find (fun E => neqb (value E) (value E)) terms with
    | Some _ => with_log (outputError nanDiagnostic) w
    | None =>
      let c := mkGRBTempConstr (exprOf terms) (- constant)%float in
      if addLazyThrows ext c
      then with_log (outputError "Gurobi error when creating lazy hyperplane"%string) w
      else
        let genHyperplane := genHyperplaneOf hyperplane currIter in
        with_results (with_currentIteration count_hyperplane)
          (with_search (addLazy c) w)
    end
  end.

Definition double_of_nat (n : nat) : double :=
  of_uint63 (Uint63.of_Z (Z.of_nat n)).

(** Lines 499-518: the one-argument [createIntegerCut], the only one the
    sources define. *)
Definition createIntegerCut (binaryIndexes : list Z) (w : World) : World :=
  let c := mkGRBTempConstr (map (fun i => (1%float, i)) binaryIndexes)
             (double_of_nat (length binaryIndexes) - 1.0)%float in
  if addLazyThrows ext c
  then with_log (outputError "Gurobi error when adding lazy integer cut"%string) w
  else set_numberOfIntegerCuts (numberOfIntegerCuts w + 1) (with_search (addLazy c) w).

(** Modelled from the spec: the two-argument [createIntegerCut] that line
    298 calls with both index lists of a waiting integer cut is not under
    src.  The spec has the callback "flush any pending integer (no-good)
    cuts": the cut goes to the search the way the function of lines 499-518
    sends its own (one [addLazy], counted in [numberOfIntegerCuts], a
    [GRBException] caught and logged); the constraint built from the two
    lists is left to [integerCutFor]. *)
Definition createIntegerCutOnesZeroes (binaryIndexesOnes binaryIndexesZeroes : list Z)
  (w : World) : World :=
  let c := integerCutFor ext binaryIndexesOnes binaryIndexesZeroes in
  if addLazyThrows ext c
  then with_log (outputError "Gurobi error when adding lazy integer cut"%string) w
  else set_numberOfIntegerCuts (numberOfIntegerCuts w + 1) (with_search (addLazy c) w).

(** A point selector runs: it is logged, and what it selects is pushed onto
    the waiting list. *)
Definition runSelector (t : TaskRun) (selected : list Hyperplane) (w : World) : World :=
  with_solver (fun m => set_hyperplaneWaitingList (hyperplaneWaitingList m ++ selected) m)
    (with_log (log_task t) w).

(** Lines 533-537 and 543-547. *)
Definition objectiveLinesearchPass (candidatePoints : list SolutionPoint) (w : World)
  : World :=
  if classification_gtb (classification (reformulatedProblem ext)) Quadratic
  then runSelector (SelectHyperplanePointsByObjectiveLinesearch candidatePoints)
         (runObjectiveLinesearch ext candidatePoints) w
  else w.

(** Lines 550-554. *)
Definition flushWaitingList (w : World) : World :=
  fold_left
    (fun w hp => with_cb (fun c => set_lastNumAddedHyperplanes (lastNumAddedHyperplanes c + 1) c)
                   (createHyperplane hp w))
    (hyperplaneWaitingList (solver w)) w.

(** Lines 520-562. *)
Definition addLazyConstraint (candidatePoints : list SolutionPoint) (w : World) : World :=
  let w := with_cb (fun c => set_cbCalls (cbCalls c + 1) c) w in
  let w :=
    match CutStrategy (settings ext) with
    | ESH =>
      let w := with_log (log_task UpdateInteriorPoint) w in
      let w := runSelector (SelectHyperplanePointsESH candidatePoints)
                 (runESH ext candidatePoints) w in
      objectiveLinesearchPass candidatePoints w
    | ECP =>
      let w := runSelector (SelectHyperplanePointsECP candidatePoints)
                 (runECP ext candidatePoints) w in
      objectiveLinesearchPass candidatePoints w
    end in
  let w := flushWaitingList w in
  with_solver (set_hyperplaneWaitingList []) w.

(** *** The constructor *)

(** Lines 451-497, given the results ledger at construction time. *)
Definition newGurobiCallback (r : Results) : GurobiCallback :=
  mkGurobiCallback
    (isMinimize (reformulatedProblem ext))
    (NumVars ext)
    0
    (primalBound r)
    0 0 0 []
    (match CutStrategy (settings ext) with ESH => true | ECP => false end)
    (classification_gtb (classification (reformulatedProblem ext)) Quadratic)
    (LinesearchUse (settings ext)
     && (0 <? numberOfNonlinearConstraints (reformulatedProblem ext))%Z).

(** *** [callback] *)

(** Lines 101-103. *)
Definition ignored (wh : Where) : bool :=
  match wh with
  | POLLING | PRESOLVE | SIMPLEX | MESSAGE | BARRIER => true
  | _ => false
  end.

(** The [maxDeviation] of a fresh [SolutionPoint]: filled in from [p] when
    [guard] has nonlinear constraints, left as constructed otherwise. *)
Definition maxDeviationAt (guard p : Problem) (pt : list double) : PairIndexValue :=
  if (0 <? numberOfNonlinearConstraints guard)%Z
  then mkPairIndexValue (fst (getMaxNumericConstraintValue p pt))
                        (snd (getMaxNumericConstraintValue p pt))
  else defaultPairIndexValue ext.

(** Lines 107-136: the dual bound candidate. *)
Definition dualBoundBlock (ev : Event) (w : World) : World :=
  match where_ ev with
  | MIP | MIPSOL | MIPNODE =>
    let tmpDualObjBound := OBJBND ev in
    if (isMinimization (cb w) && gtb tmpDualObjBound (dualBound (results w)))
       || (negb (isMinimization (cb w))
           && (tmpDualObjBound <? dualBound (results w))%float)
    then addDualSolutionCandidate
           (mkDualSolution [] MIPSolverBound tmpDualObjBound
              (iterationNumber (currentIteration (results w)))) w
    else w
  | _ => w
  end.

(** Lines 138-169: the primal solution candidate. *)
Definition primalBoundBlock (ev : Event) (w : World) : World :=
  match where_ ev with
  | MIPSOL =>
    let tmpPrimalObjBound := MIPSOL_OBJ ev in
    if (tmpPrimalObjBound <? 1e100)%float
       && ((isMinimization (cb w)
            && (tmpPrimalObjBound <? primalBound (results w))%float)
           || (negb (isMinimization (cb w))
               && gtb tmpPrimalObjBound (primalBound (results w))))
    then
      let primalSolution := valuesOf (getSolution ev) (numVar (cb w)) in
      let tmpPt :=
        mkSolutionPoint primalSolution
          (calculateValue (problem ext) primalSolution)
          (iterationNumber (currentIteration (results w)))
          (maxDeviationAt (problem ext) (problem ext) primalSolution) in
      addPrimalSolutionCandidate tmpPt LazyConstraintCallback w
    else w
  | _ => w
  end.

(** Lines 171-172 and 317. *)
Definition gapToleranceMet (w : World) : bool :=
  isAbsoluteObjectiveGapToleranceMet ext (results w)
  || isRelativeObjectiveGapToleranceMet ext (results w).

Definition terminationMet (w : World) : bool :=
  gapToleranceMet w || checkIterationLimit ext (results w).

(** Lines 184-206: the point of the node relaxation. *)
Definition relaxationPoint (ev : Event) (w : World) : SolutionPoint :=
  let solution := valuesOf (getNodeRel ev) (numVar (cb w)) in
  mkSolutionPoint solution
    (calculateValue (reformulatedProblem ext) solution)
    (iterationNumber (currentIteration (results w)))
    (maxDeviationAt (problem ext) (reformulatedProblem ext) solution).

(** Lines 208-216: the selector of the configured strategy, and what it
    selects for the relaxation point. *)
Definition relaxationTask (ev : Event) (w : World) : TaskRun :=
  match CutStrategy (settings ext) with
  | ESH => SelectHyperplanePointsESH [relaxationPoint ev w]
  | ECP => SelectHyperplanePointsECP [relaxationPoint ev w]
  end.

Definition relaxationSelection (ev : Event) (w : World) : list Hyperplane :=
  match CutStrategy (settings ext) with
  | ESH => runESH ext [relaxationPoint ev w]
  | ECP => runECP ext [relaxationPoint ev w]
  end.

(** Lines 178-221: the relaxation node.  The selected hyperplanes go onto the
    waiting list and are counted; nothing here hands them to the search. *)
Definition relaxationBlock (ev : Event) (w : World) : World :=
  match where_ ev with
  | MIPNODE =>
    if (MIPNODE_STATUS ev =? GRB_OPTIMAL)%Z
       && (relaxedLazyHyperplanesAdded (currentIteration (results w))
           <? MaxLazyConstraints (settings ext))%Z
    then
      let waitingListSize := length (hyperplaneWaitingList (solver w)) in
      let w' := runSelector (relaxationTask ev w) (relaxationSelection ev w) w in
      with_results
        (with_currentIteration
           (fun i => set_relaxedLazyHyperplanesAdded
                       (relaxedLazyHyperplanesAdded i
                        + (Z.of_nat (length (hyperplaneWaitingList (solver w')))
                           - Z.of_nat waitingListSize)) i)) w'
    else w
  | _ => w
  end.

(** Line 229. *)
Definition openIteration (w : World) : World :=
  with_results
    (fun r => mkResults (dualBound r) (primalBound r) (primalSolution r)
                (createIteration ext r) (closedIterations r ++ [currentIteration r])) w.

(** Lines 292-310. *)
Definition flushIntegerCuts (w : World) : World :=
  if UseIntegerCuts (settings ext) then
    let cuts := integerCutWaitingList (solver w) in
    let w := fold_left (fun w ic => createIntegerCutOnesZeroes (fst ic) (snd ic) w)
               cuts w in
    let w := match cuts with
             | [] => w
             | _ => with_log (outputInfo "        Added integer cut(s)."%string) w
             end in
    with_solver (set_integerCutWaitingList []) w
  else w.

(** Lines 223-322: the integer-feasible solution.  The flag says whether the
    block executed one of its two [return]s. *)
Definition incumbentBlock (ev : Event) (w : World) : World * bool :=
  match where_ ev with
  | MIPSOL =>
    let w := if isSolved (currentIteration (results w)) then openIteration w else w in
    let solution := valuesOf (getSolution ev) (numVar (cb w)) in
    let rp := reformulatedProblem ext in
    let maxDev := getMaxNumericConstraintValue rp solution in
    if (0 <? numberOfNonlinearConstraints rp)%Z
       && (snd maxDev <=? ConstraintTolerance (settings ext))%float
    then (w, true)
    else
      let solutionCandidate :=
        mkSolutionPoint solution (MIPSOL_OBJ ev)
          (iterationNumber (currentIteration (results w)))
          (maxDeviationAt rp rp solution) in
      let candidatePoints := [solutionCandidate] in
      let w := addLazyConstraint candidatePoints w in
      let w := with_results
                 (fun r => with_currentIteration
                    (record_solution (MIPSOL_OBJ ev)
                       (lastExploredNodes (cb w) - statExploredNodes w)
                       (lastOpenNodes (cb w))
                       (dualBound r, primalBound r)) r) w in
      let w := set_statExploredNodes (lastExploredNodes (cb w)) w in
      let w := if LinesearchUse (settings ext)
                  && (0 <? numberOfNonlinearConstraints rp)%Z
               then submitPrimalCandidates
                      (primalLinesearchCandidates ext candidatePoints)
                      (with_log (log_task (SelectPrimalSolutionFromLinesearch
                                             candidatePoints)) w)
               else w in
      let w := if checkFixedNLPStrategy ext (results w) solutionCandidate
               then
                 let w := with_log (log_fixedNLPCandidate (point solutionCandidate)) w in
                 let w := with_log (log_task SelectPrimalCandidatesFromNLP) w in
                 submitPrimalCandidates (primalNLPCandidates ext (results w)) w
               else w in
      let w := flushIntegerCuts w in
      let w := with_results (with_currentIteration (set_isSolved true)) w in
      if gapToleranceMet w then (with_search abort w, true) else (w, false)
  | _ => (w, false)
  end.

(** Lines 324-328. *)
Definition nodeCountBlock (ev : Event) (w : World) : World :=
  match where_ ev with
  | MIP => with_cb (set_lastNodes (MIP_NODCNT ev) (MIP_NODLFT ev)) w
  | _ => w
  end.

(** Lines 341-344. *)
Definition setSolutions (primalSol : list double) (w : World) : World :=
  fold_left (fun w iv => with_search (setSolution (fst iv) (snd iv)) w)
            (combine (seq 0 (length primalSol)) primalSol) w.

(** Lines 330-379: the incumbent handed back to the solver, and the cutoff. *)
Definition reinjectBlock (ev : Event) (w : World) : World :=
  match where_ ev with
  | MIPSOL =>
    let primalBound := primalBound (results w) in
    let w :=
      if (isMinimization (cb w) && (lastUpdatedPrimal (cb w) <? primalBound)%float)
         || (negb (isMinimization (cb w)) && gtb primalBound primalBound)
      then
        let w := setSolutions (primalSolution (results w)) w in
        let w := if hasAuxilliaryObjectiveVariable ext
                 then with_search (setSolution (numVar (cb w) - 1) primalBound) w
                 else w in
        with_cb (fun c => set_lastUpdatedPrimal primalBound
                            (if hasAuxilliaryObjectiveVariable ext
                             then tmpVals c ++ [primalBound] else tmpVals c) c) w
      else w in
    let cutOffTol := CutOffTolerance (settings ext) in
    if isMinimization (cb w)
    then with_log (outputInfo "     Setting cutoff value for minimization."%string)
           (with_solver (set_cutoff (primalBound + cutOffTol)%float) w)
    else with_log (outputInfo "     Setting cutoff value for minimization."%string)
           (with_solver (set_cutoff (- primalBound - cutOffTol)%float) w)
  | _ => w
  end.

(** [GurobiCallback::callback] (lines 99-385).  Gurobi's accessors are taken
    not to throw; [addLazy] may, and its exception is caught where the
    sources catch it, in [createHyperplane] and [createIntegerCut]. *)
Definition callback (ev : Event) (w : World) : World :=
  if ignored (where_ ev) then w else
  let w := dualBoundBlock ev w in
  let w := primalBoundBlock ev w in
  if terminationMet w then with_search abort w else
  let w := relaxationBlock ev w in
  match incumbentBlock ev w with
  | (w, true) => w
  | (w, false) => reinjectBlock ev (nodeCountBlock ev w)
  end.

(** A sequence of callback events, oldest first. *)
Definition callbacks (evs : list Event) (w : World) : World :=
  fold_left (fun w ev => callback ev w) evs w.

End Callback.

(** *** A small instance

    Two variables, one nonlinear constraint, a linear objective to be
    minimized.  The hyperplane builder answers every hyperplane with the cut
    [1 * x0 + 2 * x1 <= 3], except a hyperplane for constraint 13, for which
    the second coefficient is not a number.  The ECP selector is the [run] of
    the point selector above, on a list of constraints that puts constraint 4
    first; the largest normalized constraint value at any point is the
    parameter [deviation]. *)

Definition demoProblem (isMin : bool) (cls : E_ObjectiveFunctionClassification)
  (deviation : double) : Problem :=
  mkProblem 1 (fun _ => (4%Z, deviation)) (fun _ => 7%float) isMin cls.

Definition demoSettings : Settings :=
  mkSettings 0.001%float 2 ECP false false 0.5%float.

Definition demoTerms (h : Hyperplane) : option (list PairIndexValue * double) :=
  if (sourceConstraintIndex h =? 13)%Z
  then Some ([mkPairIndexValue 0 1%float; mkPairIndexValue 1 nan], (-3)%float)
  else Some ([mkPairIndexValue 0 1%float; mkPairIndexValue 1 2%float], (-3)%float).

Definition demoECP (pts : list SolutionPoint) : list Hyperplane :=
  Selector.hyperplaneWaitingList
    (Selector.run Selector.demoConstraints 0.5%float 200 true pts
                  (mkProcessInfo [] [])).

Definition demoIteration (n : Z) : Iteration :=
  mkIteration n false 0 0 0 None 0%float 0 0 (0%float, 0%float).

Definition demoExt (isMin : bool) (cls : E_ObjectiveFunctionClassification)
  (deviation : double) : Collaborators :=
  mkCollaborators (demoProblem isMin cls deviation) (demoProblem isMin cls deviation)
    demoSettings
    (fun _ => false) (fun _ => false) (fun _ => false) (fun _ _ => false)
    false demoTerms (fun _ => false)
    (fun _ => []) demoECP (fun _ => [])
    (fun _ => []) (fun _ => [])
    (fun r => demoIteration (iterationNumber (currentIteration r) + 1))
    (mkPairIndexValue 0 0%float) 2
    (fun ones zeroes => mkGRBTempConstr [] 0%float).

(** The world right after the callback object is constructed: dual bound 1,
    primal bound 10, nothing asked of the search yet. *)
Definition demoResults : Results :=
  mkResults 1%float 10%float [0%float; 0%float] (demoIteration 1) [].

Definition demoWorld (isMin : bool) (cls : E_ObjectiveFunctionClassification) : World :=
  mkWorld demoResults (mkMIPSolver [] [] [] None) (mkSearch [] [] false)
          (mkLog [] [] [] [] [] []) 0 0
          (newGurobiCallback (demoExt isMin cls 0%float) demoResults).

Definition demoHyperplane (constraint : Z) : Hyperplane :=
  mkHyperplane constraint [5%float; 6%float] MIPOptimalSolutionPoint.

Definition demoEvent (wh : Where) : Event :=
  mkEvent wh 2%float 8%float (fun _ => 5%float) GRB_OPTIMAL (fun _ => 5%float) 3 1.

(** *** Facts about [createHyperplane] *)

Lemma find_none_existsb {A} (f : A -> bool) (l : list A) :
  find f l = None <-> existsb f l = false.
Proof.
  induction l as [|a l IH]; simpl; [tauto|].
  destruct (f a); simpl; [split; discriminate|exact IH].
Qed.

(** What [createHyperplane] does, case by case. *)
Lemma createHyperplane_cases ext hyperplane w :
  (createHyperplane ext hyperplane w = w) \/
  (exists msg, createHyperplane ext hyperplane w = with_log (outputError msg) w /\
     (createHyperplaneTerms ext hyperplane = None \/
      exists terms constant,
        createHyperplaneTerms ext hyperplane = Some (terms, constant) /\
        (existsb (fun E => is_nan (value E)) terms = true /\ msg = nanDiagnostic \/
         existsb (fun E => is_nan (value E)) terms = false))) \/
  (exists terms constant,
     createHyperplaneTerms ext hyperplane = Some (terms, constant) /\
     existsb (fun E => is_nan (value E)) terms = false /\
     createHyperplane ext hyperplane w
     = with_results (with_currentIteration count_hyperplane)
         (with_search (addLazy (mkGRBTempConstr (exprOf terms) (- constant)%float)) w)).
Proof.
  unfold createHyperplane.
  destruct (createHyperplaneTerms ext hyperplane) as [[terms constant]|]; [|left; reflexivity].
  destruct (find (fun E => neqb (value E) (value E)) terms) eqn:Hfind.
  - right; left. exists nanDiagnostic. split; [reflexivity|]. right.
    exists terms, constant. split; [reflexivity|]. left. split; [|reflexivity].
    destruct (existsb (fun E => is_nan (value E)) terms) eqn:Hex; [reflexivity|].
    apply find_none_existsb in Hex. unfold is_nan in Hex. unfold neqb in Hfind. congruence.
  - assert (Hex : existsb (fun E => is_nan (value E)) terms = false).
    { apply find_none_existsb. exact Hfind. }
    destruct (addLazyThrows ext _).
    + right; left. eexists. split; [reflexivity|]. right.
      exists terms, constant. split; [reflexivity|]. right. exact Hex.
    + right; right. exists terms, constant. repeat split; assumption.
Qed.

(** C3. When any coefficient returned by [createHyperplaneTerms] is
    not-a-number, [createHyperplane] hands nothing to the search: the lazy
    constraints are as before, the iteration's hyperplane counters are as
    before, and the one thing that happens is the diagnostic.  And in every
    call, whatever the terms, the search receives either nothing or one
    constraint built from all of the terms, none of them not-a-number: a
    partially built cut is never added. *)
Theorem createHyperplane_discards_NaN_hyperplane ext hyperplane w terms constant :
  createHyperplaneTerms ext hyperplane = Some (terms, constant) ->
  existsb (fun E => is_nan (value E)) terms = true ->
  lazyConstraints (search (createHyperplane ext hyperplane w))
    = lazyConstraints (search w) /\
  currentIteration (results (createHyperplane ext hyperplane w))
    = currentIteration (results w) /\
  errors (log (createHyperplane ext hyperplane w)) = errors (log w) ++ [nanDiagnostic] /\
  (forall hyperplane' w',
      lazyConstraints (search (createHyperplane ext hyperplane' w'))
        = lazyConstraints (search w') \/
      exists terms' constant',
        createHyperplaneTerms ext hyperplane' = Some (terms', constant') /\
        existsb (fun E => is_nan (value E)) terms' = false /\
        length (exprOf terms') = length terms' /\
        lazyConstraints (search (createHyperplane ext hyperplane' w'))
          = lazyConstraints (search w')
            ++ [mkGRBTempConstr (exprOf terms') (- constant')%float]).
Proof.
  intros Hterms Hnan.
  assert (Hcall : createHyperplane ext hyperplane w
                  = with_log (outputError nanDiagnostic) w).
  { unfold createHyperplane. rewrite Hterms.
    destruct (find (fun E => neqb (value E) (value E)) terms) eqn:Hfind; [reflexivity|].
    apply find_none_existsb in Hfind. unfold neqb in Hfind. unfold is_nan in Hnan.
    congruence. }
  rewrite Hcall. split; [reflexivity|]. split; [reflexivity|]. split; [reflexivity|].
  intros hp' w'.
  destruct (createHyperplane_cases ext hp' w')
    as [H|[(msg & H & _)|(t & c & Ht & Hex & H)]].
  - left. rewrite H. reflexivity.
  - left. rewrite H. reflexivity.
  - right. exists t, c. repeat split; try assumption.
    + unfold exprOf. apply length_map.
    + rewrite H. reflexivity.
Qed.

Lemma createHyperplane_discards_NaN_hyperplane_witness :
  lazyConstraints
    (search (createHyperplane (demoExt true Linear 0.0005%float) (demoHyperplane 13)
               (demoWorld true Linear))) = [] /\
  errors
    (log (createHyperplane (demoExt true Linear 0.0005%float) (demoHyperplane 13)
            (demoWorld true Linear))) = [nanDiagnostic].
Proof.
  pose proof (createHyperplane_discards_NaN_hyperplane (demoExt true Linear 0.0005%float)
                (demoHyperplane 13) (demoWorld true Linear)
                [mkPairIndexValue 0 1%float; mkPairIndexValue 1 nan] (-3)%float
                eq_refl eq_refl) as (H1 & _ & H2 & _).
  split; [exact H1|exact H2].
Defined.

(** C4, as the code has it.  [createHyperplane] never writes the ledger of
    generated hyperplanes, and the record it fills in always carries the
    constraint index 0.  What a successful call does record is the count: it
    hands one constraint to the search and adds one to each of the current
    iteration's hyperplane counters; otherwise search and iteration are as
    before. *)
Theorem createHyperplane_counts_but_records_no_row ext hyperplane w :
  generatedHyperplanes (solver (createHyperplane ext hyperplane w))
    = generatedHyperplanes (solver w) /\
  generatedConstraintIndex (genHyperplaneOf hyperplane (currentIteration (results w))) = 0%Z /\
  ((lazyConstraints (search (createHyperplane ext hyperplane w))
      = lazyConstraints (search w) /\
    currentIteration (results (createHyperplane ext hyperplane w))
      = currentIteration (results w)) \/
   (exists c,
      lazyConstraints (search (createHyperplane ext hyperplane w))
        = lazyConstraints (search w) ++ [c] /\
      numHyperplanesAdded (currentIteration (results (createHyperplane ext hyperplane w)))
        = (numHyperplanesAdded (currentIteration (results w)) + 1)%Z /\
      totNumHyperplanes (currentIteration (results (createHyperplane ext hyperplane w)))
        = (totNumHyperplanes (currentIteration (results w)) + 1)%Z)).
Proof.
  destruct (createHyperplane_cases ext hyperplane w)
    as [H|[(msg & H & _)|(t & c & Ht & Hex & H)]]; rewrite H.
  - repeat split; auto.
  - repeat split; auto.
  - split; [reflexivity|]. split; [reflexivity|]. right.
    eexists. repeat split.
Qed.

(** C4, as stated, fails: two hyperplanes in a row are each turned into a
    lazy constraint, the iteration counts 2 hyperplanes added, and the ledger
    of generated hyperplanes is still empty; the two records filled in on the
    way both carry the constraint index 0. *)
Lemma createHyperplane_leaves_ledger_empty :
  length (lazyConstraints
            (search (createHyperplane (demoExt true Linear 0.0005%float) (demoHyperplane 9)
                       (createHyperplane (demoExt true Linear 0.0005%float) (demoHyperplane 4)
                          (demoWorld true Linear))))) = 2%nat /\
  numHyperplanesAdded
    (currentIteration
       (results (createHyperplane (demoExt true Linear 0.0005%float) (demoHyperplane 9)
                   (createHyperplane (demoExt true Linear 0.0005%float) (demoHyperplane 4)
                      (demoWorld true Linear))))) = 2%Z /\
  generatedHyperplanes
    (solver (createHyperplane (demoExt true Linear 0.0005%float) (demoHyperplane 9)
               (createHyperplane (demoExt true Linear 0.0005%float) (demoHyperplane 4)
                  (demoWorld true Linear)))) = [] /\
  generatedConstraintIndex
    (genHyperplaneOf (demoHyperplane 4)
       (currentIteration (results (demoWorld true Linear)))) = 0%Z /\
  generatedConstraintIndex
    (genHyperplaneOf (demoHyperplane 9)
       (currentIteration
          (results (createHyperplane (demoExt true Linear 0.0005%float) (demoHyperplane 4)
                      (demoWorld true Linear))))) = 0%Z.
Proof. repeat split; vm_compute; reflexivity. Qed.

(** *** Facts about [addLazyConstraint] *)

Lemma fold_left_preserves {A} (P : World -> Prop) (f : World -> A -> World) (l : list A) :
  forall w, P w -> (forall w x, P w -> P (f w x)) -> P (fold_left f l w).
Proof.
  induction l as [|a l IH]; intros w Hw Hstep; simpl; [exact Hw|].
  apply IH; [apply Hstep; exact Hw|exact Hstep].
Qed.

Lemma createHyperplane_tasksRun ext hyperplane w :
  tasksRun (log (createHyperplane ext hyperplane w)) = tasksRun (log w).
Proof.
  destruct (createHyperplane_cases ext hyperplane w)
    as [H|[(msg & H & _)|(t & c & _ & _ & H)]]; rewrite H; reflexivity.
Qed.

Lemma flushWaitingList_tasksRun ext w :
  tasksRun (log (flushWaitingList ext w)) = tasksRun (log w).
Proof.
  unfold flushWaitingList.
  apply (fold_left_preserves (fun w' => tasksRun (log w') = tasksRun (log w)));
    [reflexivity|].
  intros w' hp H. simpl. rewrite createHyperplane_tasksRun. exact H.
Qed.

(** The point selections of one [addLazyConstraint], in order. *)
Definition selectionTasks (strategy : ES_HyperplaneCutStrategy)
  (cls : E_ObjectiveFunctionClassification) (pts : list SolutionPoint) : list TaskRun :=
  match strategy with
  | ESH => [UpdateInteriorPoint; SelectHyperplanePointsESH pts]
  | ECP => [SelectHyperplanePointsECP pts]
  end
  ++ (if classification_gtb cls Quadratic
      then [SelectHyperplanePointsByObjectiveLinesearch pts] else []).

Definition isObjectiveLinesearch (t : TaskRun) : bool :=
  match t with SelectHyperplanePointsByObjectiveLinesearch _ => true | _ => false end.

Lemma addLazyConstraint_tasksRun ext pts w :
  tasksRun (log (addLazyConstraint ext pts w))
  = tasksRun (log w)
    ++ selectionTasks (CutStrategy (settings ext))
         (classification (reformulatedProblem ext)) pts.
Proof.
  unfold addLazyConstraint, selectionTasks, objectiveLinesearchPass. simpl.
  rewrite flushWaitingList_tasksRun.
  destruct (CutStrategy (settings ext));
    destruct (classification_gtb (classification (reformulatedProblem ext)) Quadratic);
    simpl; rewrite <- ?app_assoc; reflexivity.
Qed.

(** C8. In [addLazyConstraint], under either cut strategy, the objective
    line-search selector is run once, on the candidate points, when the
    classification of the reformulated objective is above [Quadratic], and
    not at all otherwise; [Linear] and [Quadratic] are not above [Quadratic].
    The constructor creates that selector in exactly the same case, so it
    exists whenever it is run. *)
Theorem addLazyConstraint_objective_linesearch_pass ext candidatePoints w r :
  tasksRun (log (addLazyConstraint ext candidatePoints w))
    = tasksRun (log w)
      ++ selectionTasks (CutStrategy (settings ext))
           (classification (reformulatedProblem ext)) candidatePoints /\
  filter isObjectiveLinesearch
    (selectionTasks (CutStrategy (settings ext))
       (classification (reformulatedProblem ext)) candidatePoints)
    = (if classification_gtb (classification (reformulatedProblem ext)) Quadratic
       then [SelectHyperplanePointsByObjectiveLinesearch candidatePoints] else []) /\
  classification_gtb Linear Quadratic = false /\
  classification_gtb Quadratic Quadratic = false /\
  taskSelectHPPtsByObjectiveLinesearch (newGurobiCallback ext r)
    = classification_gtb (classification (reformulatedProblem ext)) Quadratic.
Proof.
  split; [apply addLazyConstraint_tasksRun|].
  split; [|repeat split].
  unfold selectionTasks.
  destruct (CutStrategy (settings ext));
    destruct (classification_gtb (classification (reformulatedProblem ext)) Quadratic);
    reflexivity.
Qed.

(** *** What the parts of [callback] leave alone *)

Definition fromCallback (p : SolutionPoint * E_PrimalSolutionSource) : bool :=
  match snd p with LazyConstraintCallback => true | PrimalTask => false end.

(** The observations that only the first two blocks and the last block of
    [callback] can change: the solutions handed back to the solver with the
    bookkeeping that goes with them, the direction flag, the dual candidates
    submitted, the primal candidates submitted by the callback itself, and
    the ledger of generated hyperplanes. *)
Record Footprint := mkFootprint {
  fpSolutionsSet : list (nat * double);
  fpLastUpdatedPrimal : double;
  fpTmpVals : list double;
  fpIsMinimization : bool;
  fpDualCandidates : list DualSolution;
  fpPrimalCandidates : list (SolutionPoint * E_PrimalSolutionSource);
  fpGeneratedHyperplanes : list GeneratedHyperplane }.

Definition footprint (w : World) : Footprint :=
  mkFootprint (solutionsSet (search w)) (lastUpdatedPrimal (cb w)) (tmpVals (cb w))
    (isMinimization (cb w)) (dualSolutionCandidates (log w))
    (filter fromCallback (primalSolutionCandidates (log w)))
    (generatedHyperplanes (solver w)).

(** The bound pair of the results ledger. *)
Definition bounds (w : World) : double * double :=
  (dualBound (results w), primalBound (results w)).

(** A step is quiet when it changes neither. *)
Definition quiet (w w' : World) : Prop :=
  footprint w' = footprint w /\ bounds w' = bounds w.

Lemma quiet_refl w : quiet w w.
Proof. split; reflexivity. Qed.

Lemma quiet_trans w1 w2 w3 : quiet w1 w2 -> quiet w2 w3 -> quiet w1 w3.
Proof. intros [A B] [C D]. split; congruence. Qed.

Ltac split_ifs :=
  repeat match goal with
         | |- context [if ?b then _ else _] => destruct b
         | |- context [match ?s with ESH => _ | ECP => _ end] => destruct s
         end.

Lemma createHyperplane_quiet ext hyperplane w :
  quiet w (createHyperplane ext hyperplane w).
Proof.
  destruct (createHyperplane_cases ext hyperplane w)
    as [H|[(msg & H & _)|(t & c & _ & _ & H)]]; rewrite H; split; reflexivity.
Qed.

Lemma createIntegerCut_quiet ext binaryIndexes w :
  quiet w (createIntegerCut ext binaryIndexes w).
Proof. unfold createIntegerCut. split_ifs; split; reflexivity. Qed.

Lemma createIntegerCutOnesZeroes_quiet ext ones zeroes w :
  quiet w (createIntegerCutOnesZeroes ext ones zeroes w).
Proof. unfold createIntegerCutOnesZeroes. split_ifs; split; reflexivity. Qed.

Lemma fold_left_quiet {A} (f : World -> A -> World) (l : list A) w :
  (forall w x, quiet w (f w x)) -> quiet w (fold_left f l w).
Proof.
  intros Hstep. apply (fold_left_preserves (quiet w)); [apply quiet_refl|].
  intros w' x H. eapply quiet_trans; [exact H|apply Hstep].
Qed.

Lemma flushWaitingList_quiet ext w : quiet w (flushWaitingList ext w).
Proof.
  unfold flushWaitingList. apply fold_left_quiet. intros w' hp.
  eapply quiet_trans; [apply (createHyperplane_quiet ext hp)|split; reflexivity].
Qed.

Lemma addLazyConstraint_quiet ext pts w : quiet w (addLazyConstraint ext pts w).
Proof.
  unfold addLazyConstraint.
  match goal with
  | |- quiet _ (with_solver _ (flushWaitingList ext ?w0)) =>
    apply (quiet_trans _ w0);
      [|eapply quiet_trans; [apply flushWaitingList_quiet|split; reflexivity]]
  end.
  unfold objectiveLinesearchPass. split_ifs; split; reflexivity.
Qed.

Lemma flushIntegerCuts_quiet ext w : quiet w (flushIntegerCuts ext w).
Proof.
  unfold flushIntegerCuts.
  destruct (UseIntegerCuts (settings ext)); [|apply quiet_refl].
  assert (H : quiet w (fold_left
                         (fun w ic => createIntegerCutOnesZeroes ext (fst ic) (snd ic) w)
                         (integerCutWaitingList (solver w)) w)).
  { apply fold_left_quiet. intros w' ic. apply createIntegerCutOnesZeroes_quiet. }
  eapply quiet_trans; [exact H|].
  destruct (integerCutWaitingList (solver w)); split; reflexivity.
Qed.

Lemma relaxationBlock_quiet ext ev w : quiet w (relaxationBlock ext ev w).
Proof.
  unfold relaxationBlock. destruct (where_ ev); try apply quiet_refl.
  split_ifs; split; reflexivity.
Qed.

Lemma nodeCountBlock_quiet ev w : quiet w (nodeCountBlock ev w).
Proof. unfold nodeCountBlock. destruct (where_ ev); split; reflexivity. Qed.

Lemma addPrimalSolutionCandidate_task_footprint ext pt w :
  footprint (addPrimalSolutionCandidate ext pt PrimalTask w) = footprint w.
Proof.
  unfold addPrimalSolutionCandidate, footprint. split_ifs; simpl;
    rewrite filter_app; simpl; rewrite app_nil_r; reflexivity.
Qed.

Lemma submitPrimalCandidates_footprint ext pts w :
  footprint (submitPrimalCandidates ext pts w) = footprint w.
Proof.
  unfold submitPrimalCandidates.
  apply (fold_left_preserves (fun w' => footprint w' = footprint w)); [reflexivity|].
  intros w' pt H. rewrite addPrimalSolutionCandidate_task_footprint. exact H.
Qed.

Lemma incumbentBlock_footprint ext ev w :
  footprint (fst (incumbentBlock ext ev w)) = footprint w.
Proof.
  unfold incumbentBlock. destruct (where_ ev); try reflexivity.
  set (w1 := if isSolved (currentIteration (results w)) then openIteration ext w else w).
  assert (H1 : footprint w1 = footprint w).
  { unfold w1, openIteration. split_ifs; reflexivity. }
  destruct (_ && _); [exact H1|].
  rewrite <- H1.
  set (pts := [_]).
  rewrite <- (proj1 (addLazyConstraint_quiet ext pts w1)).
  set (w2 := addLazyConstraint ext pts w1).
  cbv zeta.
  match goal with
  | |- footprint (fst (if gapToleranceMet ext ?wf then _ else _)) = _ =>
    transitivity (footprint wf); [destruct (gapToleranceMet ext wf); reflexivity|]
  end.
  match goal with
  | |- footprint (with_results _ (flushIntegerCuts ext ?w0)) = _ =>
    transitivity (footprint (flushIntegerCuts ext w0)); [reflexivity|];
    rewrite (proj1 (flushIntegerCuts_quiet ext w0))
  end.
  repeat match goal with
  | |- footprint (if ?b then _ else _) = _ => destruct b
  | |- footprint (submitPrimalCandidates ext _ _) = _ =>
    rewrite submitPrimalCandidates_footprint
  | |- footprint (with_log _ ?w0) = _ => transitivity (footprint w0); [reflexivity|]
  | |- footprint (with_results _ ?w0) = _ => transitivity (footprint w0); [reflexivity|]
  | |- footprint (set_statExploredNodes _ ?w0) = _ =>
    transitivity (footprint w0); [reflexivity|]
  end; reflexivity.
Qed.

(** The two bound blocks touch the results ledger and the log of submitted
    candidates, and nothing else. *)
Lemma addDualSolutionCandidate_frame ext sol w :
  search (addDualSolutionCandidate ext sol w) = search w /\
  solver (addDualSolutionCandidate ext sol w) = solver w /\
  cb (addDualSolutionCandidate ext sol w) = cb w /\
  tasksRun (log (addDualSolutionCandidate ext sol w)) = tasksRun (log w) /\
  currentIteration (results (addDualSolutionCandidate ext sol w))
    = currentIteration (results w) /\
  primalBound (results (addDualSolutionCandidate ext sol w)) = primalBound (results w).
Proof. unfold addDualSolutionCandidate. split_ifs; repeat split. Qed.

Lemma addPrimalSolutionCandidate_frame ext pt src w :
  search (addPrimalSolutionCandidate ext pt src w) = search w /\
  solver (addPrimalSolutionCandidate ext pt src w) = solver w /\
  cb (addPrimalSolutionCandidate ext pt src w) = cb w /\
  tasksRun (log (addPrimalSolutionCandidate ext pt src w)) = tasksRun (log w) /\
  currentIteration (results (addPrimalSolutionCandidate ext pt src w))
    = currentIteration (results w) /\
  dualBound (results (addPrimalSolutionCandidate ext pt src w)) = dualBound (results w).
Proof. unfold addPrimalSolutionCandidate. split_ifs; repeat split. Qed.

Lemma dualBoundBlock_frame ext ev w :
  search (dualBoundBlock ext ev w) = search w /\
  solver (dualBoundBlock ext ev w) = solver w /\
  cb (dualBoundBlock ext ev w) = cb w /\
  tasksRun (log (dualBoundBlock ext ev w)) = tasksRun (log w) /\
  currentIteration (results (dualBoundBlock ext ev w)) = currentIteration (results w) /\
  primalBound (results (dualBoundBlock ext ev w)) = primalBound (results w).
Proof.
  unfold dualBoundBlock.
  destruct (where_ ev); try (repeat split; reflexivity);
    destruct (_ || _); try (repeat split; reflexivity);
    apply addDualSolutionCandidate_frame.
Qed.

Lemma primalBoundBlock_frame ext ev w :
  search (primalBoundBlock ext ev w) = search w /\
  solver (primalBoundBlock ext ev w) = solver w /\
  cb (primalBoundBlock ext ev w) = cb w /\
  tasksRun (log (primalBoundBlock ext ev w)) = tasksRun (log w) /\
  currentIteration (results (primalBoundBlock ext ev w)) = currentIteration (results w) /\
  dualBound (results (primalBoundBlock ext ev w)) = dualBound (results w).
Proof.
  unfold primalBoundBlock.
  destruct (where_ ev); try (repeat split; reflexivity).
  destruct (_ && _); try (repeat split; reflexivity).
  apply addPrimalSolutionCandidate_frame.
Qed.

(** *** Facts about [callback] *)

Lemma boundBlocks_frame ext ev w :
  search (primalBoundBlock ext ev (dualBoundBlock ext ev w)) = search w /\
  solver (primalBoundBlock ext ev (dualBoundBlock ext ev w)) = solver w /\
  cb (primalBoundBlock ext ev (dualBoundBlock ext ev w)) = cb w /\
  tasksRun (log (primalBoundBlock ext ev (dualBoundBlock ext ev w))) = tasksRun (log w) /\
  currentIteration (results (primalBoundBlock ext ev (dualBoundBlock ext ev w)))
    = currentIteration (results w).
Proof.
  destruct (dualBoundBlock_frame ext ev w) as (A1 & A2 & A3 & A4 & A5 & _).
  destruct (primalBoundBlock_frame ext ev (dualBoundBlock ext ev w))
    as (B1 & B2 & B3 & B4 & B5 & _).
  repeat split; congruence.
Qed.

(** C2. On an integer-feasible-solution event for a problem with nonlinear
    constraints, when the largest normalized deviation of the candidate is at
    most the constraint tolerance, the callback returns without a cut for the
    point: no selector is run, nothing is put on the waiting list, and the
    search receives no lazy constraint. *)
Theorem callback_accepts_point_within_tolerance ext ev w :
  where_ ev = MIPSOL ->
  (0 < numberOfNonlinearConstraints (reformulatedProblem ext))%Z ->
  (snd (getMaxNumericConstraintValue (reformulatedProblem ext)
          (valuesOf (getSolution ev) (numVar (cb w))))
   <=? ConstraintTolerance (settings ext))%float = true ->
  lazyConstraints (search (callback ext ev w)) = lazyConstraints (search w) /\
  hyperplaneWaitingList (solver (callback ext ev w)) = hyperplaneWaitingList (solver w) /\
  tasksRun (log (callback ext ev w)) = tasksRun (log w).
Proof.
  intros Hwhere Hnl Hdev. unfold callback. rewrite Hwhere. simpl ignored. cbv iota.
  destruct (boundBlocks_frame ext ev w) as (Hs & Hm & Hc & Ht & _).
  set (w2 := primalBoundBlock ext ev (dualBoundBlock ext ev w)) in *.
  destruct (terminationMet ext w2).
  - simpl. rewrite Hs, Hm, Ht. auto.
  - cbv zeta.
    assert (Hrel : relaxationBlock ext ev w2 = w2).
    { unfold relaxationBlock. rewrite Hwhere. reflexivity. }
    rewrite Hrel. unfold incumbentBlock. rewrite Hwhere.
    set (w3 := if isSolved (currentIteration (results w2))
               then openIteration ext w2 else w2).
    assert (H3 : search w3 = search w2 /\ solver w3 = solver w2 /\ cb w3 = cb w2
                 /\ log w3 = log w2).
    { unfold w3, openIteration. destruct (isSolved _); repeat split. }
    destruct H3 as (H3s & H3m & H3c & H3l).
    apply Z.ltb_lt in Hnl. rewrite Hnl, H3c, Hc, Hdev. simpl.
    rewrite H3s, H3m, H3l, Hs, Hm, Ht. auto.
Qed.

Lemma callback_accepts_point_within_tolerance_witness :
  ConstraintTolerance (settings (demoExt true Linear 0.0005%float)) = 0.001%float /\
  snd (getMaxNumericConstraintValue (reformulatedProblem (demoExt true Linear 0.0005%float))
         (valuesOf (getSolution (demoEvent MIPSOL)) (numVar (cb (demoWorld true Linear)))))
    = 0.0005%float /\
  lazyConstraints (search (callback (demoExt true Linear 0.0005%float) (demoEvent MIPSOL)
                             (demoWorld true Linear))) = [].
Proof.
  split; [reflexivity|]. split; [reflexivity|].
  apply (callback_accepts_point_within_tolerance (demoExt true Linear 0.0005%float)
           (demoEvent MIPSOL) (demoWorld true Linear));
    [reflexivity|reflexivity|reflexivity].
Defined.

(** C5, as the code has it.  On a relaxation-node event whose node relaxation
    is optimal, the search receives no lazy constraint before the callback
    returns, whatever the count of relaxation cuts.  When the termination test
    that precedes the block fires, the callback aborts the search and selects
    nothing.  Otherwise the selector of the configured strategy is run on the
    relaxation point exactly when the count is below
    [Relaxation.MaxLazyConstraints]; what it selects is appended to the
    waiting list and added to the count. *)
Theorem callback_relaxation_node_enqueues ext ev w :
  where_ ev = MIPNODE ->
  MIPNODE_STATUS ev = GRB_OPTIMAL ->
  lazyConstraints (search (callback ext ev w)) = lazyConstraints (search w) /\
  (if terminationMet ext (dualBoundBlock ext ev w)
   then aborted (search (callback ext ev w)) = true /\
        hyperplaneWaitingList (solver (callback ext ev w))
          = hyperplaneWaitingList (solver w) /\
        tasksRun (log (callback ext ev w)) = tasksRun (log w)
   else if (relaxedLazyHyperplanesAdded (currentIteration (results w))
            <? MaxLazyConstraints (settings ext))%Z
   then tasksRun (log (callback ext ev w)) = tasksRun (log w) ++ [relaxationTask ext ev w] /\
        hyperplaneWaitingList (solver (callback ext ev w))
          = hyperplaneWaitingList (solver w) ++ relaxationSelection ext ev w /\
        relaxedLazyHyperplanesAdded (currentIteration (results (callback ext ev w)))
          = (relaxedLazyHyperplanesAdded (currentIteration (results w))
             + Z.of_nat (length (relaxationSelection ext ev w)))%Z
   else tasksRun (log (callback ext ev w)) = tasksRun (log w) /\
        hyperplaneWaitingList (solver (callback ext ev w))
          = hyperplaneWaitingList (solver w) /\
        relaxedLazyHyperplanesAdded (currentIteration (results (callback ext ev w)))
          = relaxedLazyHyperplanesAdded (currentIteration (results w))).
Proof.
  intros Hwhere Hstatus. unfold callback. rewrite Hwhere. simpl ignored. cbv iota zeta.
  assert (Hp : forall w', primalBoundBlock ext ev w' = w').
  { intros w'. unfold primalBoundBlock. rewrite Hwhere. reflexivity. }
  rewrite Hp.
  destruct (dualBoundBlock_frame ext ev w) as (Hs & Hm & Hc & Ht & Hi & _).
  set (w1 := dualBoundBlock ext ev w) in *.
  destruct (terminationMet ext w1).
  - simpl. rewrite Hs, Hm, Ht. auto.
  - assert (Hinc : forall w', incumbentBlock ext ev w' = (w', false)).
    { intros w'. unfold incumbentBlock. rewrite Hwhere. reflexivity. }
    rewrite Hinc.
    assert (Hn : forall w', nodeCountBlock ev w' = w').
    { intros w'. unfold nodeCountBlock. rewrite Hwhere. reflexivity. }
    assert (Hr : forall w', reinjectBlock ext ev w' = w').
    { intros w'. unfold reinjectBlock. rewrite Hwhere. reflexivity. }
    rewrite Hn, Hr.
    assert (Hpt : relaxationPoint ext ev w1 = relaxationPoint ext ev w).
    { unfold relaxationPoint. rewrite Hc, Hi. reflexivity. }
    assert (Htask : relaxationTask ext ev w1 = relaxationTask ext ev w).
    { unfold relaxationTask. rewrite Hpt. reflexivity. }
    assert (Hsel : relaxationSelection ext ev w1 = relaxationSelection ext ev w).
    { unfold relaxationSelection. rewrite Hpt. reflexivity. }
    unfold relaxationBlock. rewrite Hwhere, Hstatus, Z.eqb_refl, Hi. simpl andb.
    destruct (relaxedLazyHyperplanesAdded (currentIteration (results w))
              <? MaxLazyConstraints (settings ext))%Z.
    + simpl. rewrite Hs, Hm, Ht, Hi, Htask, Hsel. repeat split.
      rewrite length_app. lia.
    + rewrite Hs, Hm, Ht, Hi. auto.
Qed.

Lemma callback_relaxation_node_enqueues_witness :
  lazyConstraints (search (callback (demoExt true Linear 0.0005%float) (demoEvent MIPNODE)
                             (demoWorld true Linear))) = [].
Proof.
  apply (callback_relaxation_node_enqueues (demoExt true Linear 0.0005%float) (demoEvent MIPNODE)
           (demoWorld true Linear) eq_refl eq_refl).
Defined.

(** C5, as stated, fails: at a relaxation node with an optimal relaxation,
    no relaxation cut counted yet against a cap of 2, and no termination, the
    ECP selector is run and selects two hyperplanes, and the callback returns
    with both of them on the waiting list and none handed to the search. *)
Lemma callback_relaxation_cuts_not_injected :
  (relaxedLazyHyperplanesAdded (currentIteration (results (demoWorld true Linear)))
   <? MaxLazyConstraints (settings (demoExt true Linear 0.0005%float)))%Z = true /\
  terminationMet (demoExt true Linear 0.0005%float)
    (dualBoundBlock (demoExt true Linear 0.0005%float) (demoEvent MIPNODE) (demoWorld true Linear))
    = false /\
  length (tasksRun (log (callback (demoExt true Linear 0.0005%float) (demoEvent MIPNODE)
                           (demoWorld true Linear)))) = 1%nat /\
  length (hyperplaneWaitingList
            (solver (callback (demoExt true Linear 0.0005%float) (demoEvent MIPNODE)
                       (demoWorld true Linear)))) = 2%nat /\
  lazyConstraints (search (callback (demoExt true Linear 0.0005%float) (demoEvent MIPNODE)
                             (demoWorld true Linear))) = [] /\
  aborted (search (callback (demoExt true Linear 0.0005%float) (demoEvent MIPNODE)
                     (demoWorld true Linear))) = false.
Proof. repeat split; vm_compute; reflexivity. Qed.

Lemma footprint_fields w w' :
  footprint w' = footprint w ->
  solutionsSet (search w') = solutionsSet (search w) /\
  lastUpdatedPrimal (cb w') = lastUpdatedPrimal (cb w) /\
  tmpVals (cb w') = tmpVals (cb w) /\
  isMinimization (cb w') = isMinimization (cb w) /\
  dualSolutionCandidates (log w') = dualSolutionCandidates (log w) /\
  filter fromCallback (primalSolutionCandidates (log w'))
    = filter fromCallback (primalSolutionCandidates (log w)) /\
  generatedHyperplanes (solver w') = generatedHyperplanes (solver w).
Proof. unfold footprint. intros H. inversion H. repeat split; assumption. Qed.

Lemma reinjectBlock_maximization ext ev w :
  isMinimization (cb w) = false ->
  solutionsSet (search (reinjectBlock ext ev w)) = solutionsSet (search w) /\
  lastUpdatedPrimal (cb (reinjectBlock ext ev w)) = lastUpdatedPrimal (cb w) /\
  tmpVals (cb (reinjectBlock ext ev w)) = tmpVals (cb w).
Proof.
  intros Hmax. unfold reinjectBlock. destruct (where_ ev); try (repeat split; reflexivity).
  rewrite Hmax. simpl. rewrite gtb_irrefl. rewrite Hmax. repeat split.
Qed.

(** C9. When the callback object's direction flag says maximization, no
    callback event, the integer-feasible-solution event included, hands the
    stored primal solution back to the solver: the guard of the block reduces
    to [primalBound > primalBound], which is false for every value, so
    [setSolution] is never called and the block's bookkeeping
    ([lastUpdatedPrimal], [tmpVals]) never moves. *)
Theorem callback_never_reinjects_when_maximizing ext ev w :
  isMinimization (cb w) = false ->
  (forall primalBound : double, gtb primalBound primalBound = false) /\
  solutionsSet (search (callback ext ev w)) = solutionsSet (search w) /\
  lastUpdatedPrimal (cb (callback ext ev w)) = lastUpdatedPrimal (cb w) /\
  tmpVals (cb (callback ext ev w)) = tmpVals (cb w) /\
  isMinimization (cb (callback ext ev w)) = false.
Proof.
  intros Hmax. split; [exact gtb_irrefl|].
  unfold callback. destruct (ignored (where_ ev)); [auto|]. cbv zeta.
  destruct (boundBlocks_frame ext ev w) as (Hs & _ & Hc & _).
  set (w2 := primalBoundBlock ext ev (dualBoundBlock ext ev w)) in *.
  destruct (terminationMet ext w2); [simpl; rewrite Hs, Hc; auto|].
  pose proof (proj1 (relaxationBlock_quiet ext ev w2)) as H3.
  set (w3 := relaxationBlock ext ev w2) in *.
  pose proof (incumbentBlock_footprint ext ev w3) as H4.
  destruct (incumbentBlock ext ev w3) as [w4 returned]. simpl in H4.
  assert (H42 : footprint w4 = footprint w2) by congruence.
  destruct (footprint_fields _ _ H42) as (F1 & F2 & F3 & F4 & _).
  destruct returned; [rewrite F1, F2, F3, F4, Hs, Hc; auto|].
  pose proof (proj1 (nodeCountBlock_quiet ev w4)) as H5.
  destruct (footprint_fields _ _ H5) as (G1 & G2 & G3 & G4 & _).
  assert (Hmax5 : isMinimization (cb (nodeCountBlock ev w4)) = false)
    by (rewrite G4, F4, Hc; exact Hmax).
  destruct (reinjectBlock_maximization ext ev _ Hmax5) as (R1 & R2 & R3).
  rewrite R1, R2, R3, G1, G2, G3, F1, F2, F3, Hs, Hc.
  repeat split.
  unfold reinjectBlock. destruct (where_ ev); try exact Hmax5.
  rewrite Hmax5. simpl. rewrite gtb_irrefl. rewrite Hmax5. simpl. exact Hmax5.
Qed.

Lemma callback_never_reinjects_when_maximizing_witness :
  isMinimization (cb (demoWorld false Linear)) = false /\
  cutoff (solver (callback (demoExt false Linear 0.5%float) (demoEvent MIPSOL)
                    (demoWorld false Linear))) = Some (-10.5)%float /\
  solutionsSet (search (callback (demoExt false Linear 0.5%float) (demoEvent MIPSOL)
                          (demoWorld false Linear))) = [].
Proof.
  split; [reflexivity|]. split; [vm_compute; reflexivity|].
  apply (callback_never_reinjects_when_maximizing (demoExt false Linear 0.5%float)
           (demoEvent MIPSOL) (demoWorld false Linear) eq_refl).
Defined.

(** *** The bound pair across callback events *)

Definition sameOrBetterDual (isMin : bool) (old new : double) : Prop :=
  new = old \/ improvesDual isMin new old = true.
Definition sameOrBetterPrimal (isMin : bool) (old new : double) : Prop :=
  new = old \/ improvesPrimal isMin new old = true.

(** From [w] to [w'] neither recorded bound has regressed: each is the one
    it was, or one strictly better in the direction of the problem. *)
Definition boundsNeverRegress (ext : Collaborators) (w w' : World) : Prop :=
  sameOrBetterDual (isMinimize (reformulatedProblem ext))
    (dualBound (results w)) (dualBound (results w')) /\
  sameOrBetterPrimal (isMinimize (reformulatedProblem ext))
    (primalBound (results w)) (primalBound (results w')).

Lemma improvesDual_irrefl isMin x : improvesDual isMin x x = false.
Proof. destruct isMin; apply ltb_irrefl. Qed.

Lemma improvesPrimal_irrefl isMin x : improvesPrimal isMin x x = false.
Proof. destruct isMin; apply ltb_irrefl. Qed.

Lemma improvesDual_trans isMin x y z :
  improvesDual isMin y x = true -> improvesDual isMin z y = true ->
  improvesDual isMin z x = true.
Proof.
  destruct isMin; unfold improvesDual, gtb; intros H1 H2;
    [exact (ltb_trans _ _ _ H1 H2)|exact (ltb_trans _ _ _ H2 H1)].
Qed.

Lemma improvesPrimal_trans isMin x y z :
  improvesPrimal isMin y x = true -> improvesPrimal isMin z y = true ->
  improvesPrimal isMin z x = true.
Proof.
  destruct isMin; unfold improvesPrimal, gtb; intros H1 H2;
    [exact (ltb_trans _ _ _ H2 H1)|exact (ltb_trans _ _ _ H1 H2)].
Qed.

Lemma sameOrBetterDual_not_worse isMin old new :
  sameOrBetterDual isMin old new -> improvesDual isMin old new = false.
Proof.
  intros [H|H]; [subst; apply improvesDual_irrefl|].
  destruct isMin; unfold improvesDual, gtb in *; apply ltb_asym; exact H.
Qed.

Lemma sameOrBetterPrimal_not_worse isMin old new :
  sameOrBetterPrimal isMin old new -> improvesPrimal isMin old new = false.
Proof.
  intros [H|H]; [subst; apply improvesPrimal_irrefl|].
  destruct isMin; unfold improvesPrimal, gtb in *; apply ltb_asym; exact H.
Qed.

Lemma boundsNeverRegress_refl ext w : boundsNeverRegress ext w w.
Proof. split; left; reflexivity. Qed.

Lemma boundsNeverRegress_trans ext w1 w2 w3 :
  boundsNeverRegress ext w1 w2 -> boundsNeverRegress ext w2 w3 ->
  boundsNeverRegress ext w1 w3.
Proof.
  intros [[D1|D1] [P1|P1]] [[D2|D2] [P2|P2]]; split;
    try (left; congruence);
    try (right; congruence);
    try (right; rewrite D2; exact D1); try (right; rewrite P2; exact P1);
    try (right; rewrite <- D1; exact D2); try (right; rewrite <- P1; exact P2);
    try (right; eapply improvesDual_trans; eassumption);
    try (right; eapply improvesPrimal_trans; eassumption).
Qed.

Lemma boundsNeverRegress_of_bounds ext w w' :
  bounds w' = bounds w -> boundsNeverRegress ext w w'.
Proof. unfold bounds. intros H. inversion H. split; left; assumption. Qed.

Lemma addDualSolutionCandidate_never_regresses ext sol w :
  boundsNeverRegress ext w (addDualSolutionCandidate ext sol w).
Proof.
  unfold addDualSolutionCandidate.
  destruct (improvesDual _ _ _) eqn:E; [|split; left; reflexivity].
  split; [right; exact E|left; reflexivity].
Qed.

Lemma addPrimalSolutionCandidate_never_regresses ext pt src w :
  boundsNeverRegress ext w (addPrimalSolutionCandidate ext pt src w).
Proof.
  unfold addPrimalSolutionCandidate.
  destruct (improvesPrimal _ _ _) eqn:E; [|split; left; reflexivity].
  split; [left; reflexivity|right; exact E].
Qed.

Lemma submitPrimalCandidates_never_regresses ext pts w :
  boundsNeverRegress ext w (submitPrimalCandidates ext pts w).
Proof.
  unfold submitPrimalCandidates.
  apply (fold_left_preserves (boundsNeverRegress ext w));
    [apply boundsNeverRegress_refl|].
  intros w' pt H. eapply boundsNeverRegress_trans; [exact H|].
  apply addPrimalSolutionCandidate_never_regresses.
Qed.

Lemma dualBoundBlock_never_regresses ext ev w :
  boundsNeverRegress ext w (dualBoundBlock ext ev w).
Proof.
  unfold dualBoundBlock.
  destruct (where_ ev); try apply boundsNeverRegress_refl;
    destruct (_ || _); try apply boundsNeverRegress_refl;
    apply addDualSolutionCandidate_never_regresses.
Qed.

Lemma primalBoundBlock_never_regresses ext ev w :
  boundsNeverRegress ext w (primalBoundBlock ext ev w).
Proof.
  unfold primalBoundBlock.
  destruct (where_ ev); try apply boundsNeverRegress_refl.
  destruct (_ && _); try apply boundsNeverRegress_refl.
  apply addPrimalSolutionCandidate_never_regresses.
Qed.

Lemma incumbentBlock_never_regresses ext ev w :
  boundsNeverRegress ext w (fst (incumbentBlock ext ev w)).
Proof.
  unfold incumbentBlock. destruct (where_ ev); try apply boundsNeverRegress_refl.
  set (w1 := if isSolved (currentIteration (results w)) then openIteration ext w else w).
  assert (H1 : boundsNeverRegress ext w w1).
  { apply boundsNeverRegress_of_bounds. unfold w1, openIteration.
    destruct (isSolved _); reflexivity. }
  destruct (_ && _); [exact H1|].
  set (pts := [_]).
  pose proof (boundsNeverRegress_of_bounds ext _ _
                (proj2 (addLazyConstraint_quiet ext pts w1))) as H2.
  pose proof (boundsNeverRegress_trans _ _ _ _ H1 H2) as H12. clear H1 H2.
  set (w2 := addLazyConstraint ext pts w1) in *.
  cbv zeta.
  match goal with
  | |- boundsNeverRegress ext w (fst (if gapToleranceMet ext ?wf then _ else _)) =>
    apply (boundsNeverRegress_trans _ _ wf);
      [|destruct (gapToleranceMet ext wf); apply boundsNeverRegress_of_bounds; reflexivity]
  end.
  repeat match goal with
  | |- boundsNeverRegress ext w w2 => exact H12
  | |- boundsNeverRegress ext w (if ?b then _ else _) => destruct b
  | |- boundsNeverRegress ext w (submitPrimalCandidates ext ?l ?w0) =>
    apply (boundsNeverRegress_trans _ _ w0);
      [|apply submitPrimalCandidates_never_regresses]
  | |- boundsNeverRegress ext w (flushIntegerCuts ext ?w0) =>
    apply (boundsNeverRegress_trans _ _ w0);
      [|apply boundsNeverRegress_of_bounds; apply flushIntegerCuts_quiet]
  | |- boundsNeverRegress ext w (with_log _ ?w0) =>
    apply (boundsNeverRegress_trans _ _ w0);
      [|apply boundsNeverRegress_of_bounds; reflexivity]
  | |- boundsNeverRegress ext w (with_results _ ?w0) =>
    apply (boundsNeverRegress_trans _ _ w0);
      [|apply boundsNeverRegress_of_bounds; reflexivity]
  | |- boundsNeverRegress ext w (set_statExploredNodes _ ?w0) =>
    apply (boundsNeverRegress_trans _ _ w0);
      [|apply boundsNeverRegress_of_bounds; reflexivity]
  end.
Qed.

(** The last block writes the search, the cutoff, the log of messages and
    its own bookkeeping. *)
Lemma setSolutions_frame primalSol w :
  results (setSolutions primalSol w) = results w /\
  log (setSolutions primalSol w) = log w /\
  cb (setSolutions primalSol w) = cb w /\
  solver (setSolutions primalSol w) = solver w.
Proof.
  unfold setSolutions.
  apply (fold_left_preserves
           (fun w' => results w' = results w /\ log w' = log w /\ cb w' = cb w
                      /\ solver w' = solver w)); [auto|].
  intros w' iv H. exact H.
Qed.

Lemma reinjectBlock_frame ext ev w :
  bounds (reinjectBlock ext ev w) = bounds w /\
  isMinimization (cb (reinjectBlock ext ev w)) = isMinimization (cb w) /\
  dualSolutionCandidates (log (reinjectBlock ext ev w)) = dualSolutionCandidates (log w) /\
  primalSolutionCandidates (log (reinjectBlock ext ev w))
    = primalSolutionCandidates (log w) /\
  generatedHyperplanes (solver (reinjectBlock ext ev w)) = generatedHyperplanes (solver w).
Proof.
  unfold reinjectBlock. destruct (where_ ev); try (repeat split; reflexivity).
  destruct (setSolutions_frame (primalSolution (results w)) w) as (Hr & Hl & Hc & Hm').
  unfold bounds.
  destruct (isMinimization (cb w)) eqn:Hm;
    destruct (_ || _); destruct (hasAuxilliaryObjectiveVariable ext); simpl;
    rewrite ?Hc, ?Hm; simpl; rewrite ?Hr, ?Hl, ?Hc, ?Hm'; repeat split; assumption.
Qed.

(** No callback event writes the ledger of generated hyperplanes. *)
Lemma callback_keeps_generatedHyperplanes ext ev w :
  generatedHyperplanes (solver (callback ext ev w)) = generatedHyperplanes (solver w).
Proof.
  unfold callback. destruct (ignored (where_ ev)); [reflexivity|]. cbv zeta.
  destruct (boundBlocks_frame ext ev w) as (_ & Hm & _).
  set (w2 := primalBoundBlock ext ev (dualBoundBlock ext ev w)) in *.
  destruct (terminationMet ext w2); [simpl; rewrite Hm; reflexivity|].
  pose proof (proj1 (relaxationBlock_quiet ext ev w2)) as H3.
  set (w3 := relaxationBlock ext ev w2) in *.
  pose proof (incumbentBlock_footprint ext ev w3) as H4.
  destruct (incumbentBlock ext ev w3) as [w4 returned]. simpl in H4.
  assert (H42 : footprint w4 = footprint w2) by congruence.
  destruct (footprint_fields _ _ H42) as (_ & _ & _ & _ & _ & _ & F7).
  destruct returned; [rewrite F7, Hm; reflexivity|].
  destruct (footprint_fields _ _ (proj1 (nodeCountBlock_quiet ev w4)))
    as (_ & _ & _ & _ & _ & _ & G7).
  destruct (reinjectBlock_frame ext ev (nodeCountBlock ev w4)) as (_ & _ & _ & _ & R5).
  rewrite R5, G7, F7, Hm. reflexivity.
Qed.

(** After the two bound blocks, the rest of [callback] submits no candidate,
    keeps the direction flag, and does not let a bound regress. *)
Lemma callback_after_bound_blocks ext ev w :
  ignored (where_ ev) = false ->
  isMinimization (cb (callback ext ev w)) = isMinimization (cb w) /\
  dualSolutionCandidates (log (callback ext ev w))
    = dualSolutionCandidates (log (primalBoundBlock ext ev (dualBoundBlock ext ev w))) /\
  filter fromCallback (primalSolutionCandidates (log (callback ext ev w)))
    = filter fromCallback
        (primalSolutionCandidates
           (log (primalBoundBlock ext ev (dualBoundBlock ext ev w)))) /\
  boundsNeverRegress ext (primalBoundBlock ext ev (dualBoundBlock ext ev w))
    (callback ext ev w).
Proof.
  intros Hign. unfold callback. rewrite Hign. cbv zeta.
  destruct (boundBlocks_frame ext ev w) as (_ & _ & Hc & _).
  set (w2 := primalBoundBlock ext ev (dualBoundBlock ext ev w)) in *.
  destruct (terminationMet ext w2).
  - simpl. rewrite Hc. repeat split; left; reflexivity.
  - pose proof (relaxationBlock_quiet ext ev w2) as [H3 B3].
    set (w3 := relaxationBlock ext ev w2) in *.
    pose proof (incumbentBlock_footprint ext ev w3) as H4.
    pose proof (incumbentBlock_never_regresses ext ev w3) as B4.
    destruct (incumbentBlock ext ev w3) as [w4 returned]. simpl in H4, B4.
    assert (H42 : footprint w4 = footprint w2) by congruence.
    destruct (footprint_fields _ _ H42) as (_ & _ & _ & F4 & F5 & F6 & _).
    assert (B42 : boundsNeverRegress ext w2 w4).
    { eapply boundsNeverRegress_trans; [|exact B4].
      apply boundsNeverRegress_of_bounds. exact B3. }
    destruct returned; [rewrite F4, F5, F6, Hc; auto|].
    destruct (nodeCountBlock_quiet ev w4) as [H5 B5].
    destruct (footprint_fields _ _ H5) as (_ & _ & _ & G4 & G5 & G6 & _).
    destruct (reinjectBlock_frame ext ev (nodeCountBlock ev w4))
      as (R1 & R2 & R3 & R4 & _).
    rewrite R2, R3, R4, G4, G5, G6, F4, F5, F6, Hc. repeat split.
    + destruct B42 as [D _]. unfold bounds in R1, B5. inversion R1. inversion B5.
      unfold sameOrBetterDual in *. congruence.
    + destruct B42 as [_ P]. unfold bounds in R1, B5. inversion R1. inversion B5.
      unfold sameOrBetterPrimal in *. congruence.
Qed.

Lemma callback_never_regresses ext ev w :
  boundsNeverRegress ext w (callback ext ev w).
Proof.
  destruct (ignored (where_ ev)) eqn:Hign.
  - unfold callback. rewrite Hign. apply boundsNeverRegress_refl.
  - destruct (callback_after_bound_blocks ext ev w Hign) as (_ & _ & _ & H).
    eapply boundsNeverRegress_trans; [|exact H].
    eapply boundsNeverRegress_trans;
      [apply dualBoundBlock_never_regresses|apply primalBoundBlock_never_regresses].
Qed.

Lemma callbacks_never_regress ext evs w :
  boundsNeverRegress ext w (callbacks ext evs w).
Proof.
  unfold callbacks.
  apply (fold_left_preserves (boundsNeverRegress ext w)); [apply boundsNeverRegress_refl|].
  intros w' ev H. eapply boundsNeverRegress_trans; [exact H|].
  apply callback_never_regresses.
Qed.

Lemma dual_guard_improves (isMin : bool) (candidate current : double) :
  (isMin && gtb candidate current) || (negb isMin && (candidate <? current)%float)
  = improvesDual isMin candidate current.
Proof. destruct isMin; simpl; [apply orb_false_r|reflexivity]. Qed.

Lemma primal_guard_improves (isMin : bool) (candidate current : double) :
  (candidate <? 1e100)%float
  && ((isMin && (candidate <? current)%float) || (negb isMin && gtb candidate current))
  = true ->
  improvesPrimal isMin candidate current = true.
Proof.
  intros H. apply andb_prop in H. destruct H as [_ H].
  destruct isMin; simpl in *; [rewrite orb_false_r in H|]; exact H.
Qed.

Lemma dualBoundBlock_submission ext ev w :
  primalSolutionCandidates (log (dualBoundBlock ext ev w))
    = primalSolutionCandidates (log w) /\
  (dualSolutionCandidates (log (dualBoundBlock ext ev w))
     = dualSolutionCandidates (log w) \/
   (improvesDual (isMinimization (cb w)) (OBJBND ev) (dualBound (results w)) = true /\
    dualSolutionCandidates (log (dualBoundBlock ext ev w))
      = dualSolutionCandidates (log w)
        ++ [mkDualSolution [] MIPSolverBound (OBJBND ev)
              (iterationNumber (currentIteration (results w)))])).
Proof.
  unfold dualBoundBlock.
  destruct (where_ ev); try (split; [reflexivity|left; reflexivity]);
    rewrite dual_guard_improves;
    (destruct (improvesDual _ _ _) eqn:E; [|split; [reflexivity|left; reflexivity]]);
    unfold addDualSolutionCandidate;
    (split; [split_ifs; reflexivity|]); right; (split; [reflexivity|]);
    split_ifs; reflexivity.
Qed.

(** The primal candidate of lines 149-166 for an event: the solution the
    solver reports, with the objective value and the deviation that
    [env->problem] computes at it. *)
Definition primalCandidate (ext : Collaborators) (ev : Event) (w : World) : SolutionPoint :=
  let primalSolution := valuesOf (getSolution ev) (numVar (cb w)) in
  mkSolutionPoint primalSolution
    (calculateValue (problem ext) primalSolution)
    (iterationNumber (currentIteration (results w)))
    (maxDeviationAt ext (problem ext) (problem ext) primalSolution).

Lemma primalBoundBlock_submission ext ev w :
  dualSolutionCandidates (log (primalBoundBlock ext ev w))
    = dualSolutionCandidates (log w) /\
  (filter fromCallback (primalSolutionCandidates (log (primalBoundBlock ext ev w)))
     = filter fromCallback (primalSolutionCandidates (log w)) \/
   (where_ ev = MIPSOL /\
    (MIPSOL_OBJ ev <? 1e100)%float = true /\
    improvesPrimal (isMinimization (cb w)) (MIPSOL_OBJ ev) (primalBound (results w)) = true /\
    filter fromCallback (primalSolutionCandidates (log (primalBoundBlock ext ev w)))
      = filter fromCallback (primalSolutionCandidates (log w))
        ++ [(primalCandidate ext ev w, LazyConstraintCallback)])).
Proof.
  unfold primalBoundBlock.
  destruct (where_ ev); try (split; [reflexivity|left; reflexivity]).
  destruct (_ && _) eqn:E; [|split; [reflexivity|left; reflexivity]].
  pose proof (proj1 (andb_prop _ _ E)) as Hbig.
  apply primal_guard_improves in E.
  unfold addPrimalSolutionCandidate.
  split; [split_ifs; reflexivity|]. right.
  split; [reflexivity|]. split; [exact Hbig|]. split; [exact E|].
  unfold primalCandidate. split_ifs; simpl; rewrite filter_app; reflexivity.
Qed.

(** C6, as the code has it.  The direction flag of the callback is the
    direction of the problem and no event changes it.  In one callback event
    a dual candidate is submitted only with the bound the solver reports
    strictly better than the current dual bound in that direction.  The
    callback itself submits a primal candidate only on an integer-feasible
    solution whose objective as the solver reports it is below 1e100 and
    strictly better than the current primal bound; the candidate it then
    submits is the reported solution with the objective value that the
    original problem computes at it, a value the guard does not look at.
    Equal values are not strictly better, so a tie of the reported values
    submits nothing.  With the ledger replacing a bound only by a strictly
    better one, after any sequence of callback events each recorded bound is
    the one it was or a strictly better one, and the bound from before the
    sequence is never strictly better than the bound after it. *)
Theorem callback_submits_on_reported_improvements ext ev evs w r :
  isMinimization (newGurobiCallback ext r) = isMinimize (reformulatedProblem ext) /\
  isMinimization (cb (callback ext ev w)) = isMinimization (cb w) /\
  (dualSolutionCandidates (log (callback ext ev w)) = dualSolutionCandidates (log w) \/
   (improvesDual (isMinimization (cb w)) (OBJBND ev) (dualBound (results w)) = true /\
    dualSolutionCandidates (log (callback ext ev w))
      = dualSolutionCandidates (log w)
        ++ [mkDualSolution [] MIPSolverBound (OBJBND ev)
              (iterationNumber (currentIteration (results w)))])) /\
  (filter fromCallback (primalSolutionCandidates (log (callback ext ev w)))
     = filter fromCallback (primalSolutionCandidates (log w)) \/
   (where_ ev = MIPSOL /\
    (MIPSOL_OBJ ev <? 1e100)%float = true /\
    improvesPrimal (isMinimization (cb w)) (MIPSOL_OBJ ev) (primalBound (results w)) = true /\
    filter fromCallback (primalSolutionCandidates (log (callback ext ev w)))
      = filter fromCallback (primalSolutionCandidates (log w))
        ++ [(primalCandidate ext ev w, LazyConstraintCallback)] /\
    objectiveValue (primalCandidate ext ev w)
    = calculateValue (problem ext) (valuesOf (getSolution ev) (numVar (cb w))))) /\
  (forall isMin bound,
      improvesDual isMin bound bound = false /\ improvesPrimal isMin bound bound = false) /\
  boundsNeverRegress ext w (callbacks ext evs w) /\
  improvesDual (isMinimize (reformulatedProblem ext))
    (dualBound (results w)) (dualBound (results (callbacks ext evs w))) = false /\
  improvesPrimal (isMinimize (reformulatedProblem ext))
    (primalBound (results w)) (primalBound (results (callbacks ext evs w))) = false.
Proof.
  assert (Hseq : boundsNeverRegress ext w (callbacks ext evs w) /\
                 improvesDual (isMinimize (reformulatedProblem ext))
                   (dualBound (results w))
                   (dualBound (results (callbacks ext evs w))) = false /\
                 improvesPrimal (isMinimize (reformulatedProblem ext))
                   (primalBound (results w))
                   (primalBound (results (callbacks ext evs w))) = false).
  { pose proof (callbacks_never_regress ext evs w) as H. split; [exact H|].
    destruct H as [Hd Hp].
    split; [apply sameOrBetterDual_not_worse|apply sameOrBetterPrimal_not_worse];
      assumption. }
  split; [reflexivity|].
  assert (Hties : forall isMin bound,
             improvesDual isMin bound bound = false
             /\ improvesPrimal isMin bound bound = false).
  { intros isMin bound. split; [apply improvesDual_irrefl|apply improvesPrimal_irrefl]. }
  destruct (ignored (where_ ev)) eqn:Hign.
  - unfold callback at 1 2 3 4 5. rewrite Hign.
    split; [reflexivity|]. split; [left; reflexivity|]. split; [left; reflexivity|].
    split; [exact Hties|exact Hseq].
  - destruct (callback_after_bound_blocks ext ev w Hign) as (Hmin & Hd & Hp & _).
    destruct (dualBoundBlock_submission ext ev w) as (Dp & Dd).
    destruct (dualBoundBlock_frame ext ev w) as (_ & _ & Dc & _ & Di & Dpb).
    destruct (primalBoundBlock_submission ext ev (dualBoundBlock ext ev w)) as (Pd & Pp).
    assert (Hcand : primalCandidate ext ev (dualBoundBlock ext ev w)
                    = primalCandidate ext ev w).
    { unfold primalCandidate. rewrite Dc, Di. reflexivity. }
    rewrite Dc, Dpb, Dp, Hcand in Pp. rewrite Pd in Hd.
    split; [exact Hmin|]. split; [rewrite Hd; exact Dd|].
    split; [|split; [exact Hties|exact Hseq]].
    rewrite Hp. destruct Pp as [Pp|(P1 & P2 & P3 & P4)]; [left; exact Pp|].
    right. repeat split; assumption.
Qed.

(** At this input the solver reports the objective 8 for a solution at which
    the original problem computes 12, the primal bound being 10 in a
    minimization. *)
Definition recomputingExt : Collaborators :=
  mkCollaborators
    (mkProblem 1 (fun _ => (4%Z, 0.0005%float)) (fun _ => 12%float) true Linear)
    (demoProblem true Linear 0.0005%float)
    demoSettings
    (fun _ => false) (fun _ => false) (fun _ => false) (fun _ _ => false)
    false demoTerms (fun _ => false)
    (fun _ => []) demoECP (fun _ => [])
    (fun _ => []) (fun _ => [])
    (fun r => demoIteration (iterationNumber (currentIteration r) + 1))
    (mkPairIndexValue 0 0%float) 2
    (fun ones zeroes => mkGRBTempConstr [] 0%float).

(** C6, as stated, fails: the callback submits a primal candidate whose own
    objective value, 12, does not improve on the primal bound of 10; what is
    strictly better than the bound is the objective the solver reported, 8. *)
Lemma callback_submits_candidate_that_does_not_improve :
  MIPSOL_OBJ (demoEvent MIPSOL) = 8%float /\
  primalBound (results (demoWorld true Linear)) = 10%float /\
  isMinimization (cb (demoWorld true Linear)) = true /\
  map (fun p => objectiveValue (fst p))
      (filter fromCallback
         (primalSolutionCandidates
            (log (callback recomputingExt (demoEvent MIPSOL) (demoWorld true Linear)))))
  = [12%float] /\
  improvesPrimal true 12%float 10%float = false /\
  improvesPrimal true 8%float 10%float = true /\
  primalBound
    (results (callback recomputingExt (demoEvent MIPSOL) (demoWorld true Linear)))
  = 10%float.
Proof. repeat split; vm_compute; reflexivity. Qed.

End Gurobi.

(** * Further properties of the modelled code *)

(** ** The ECP point selector, continued *)

Module SelectorFacts.

Import Selector.

(** The tag of lines 53-64, written out. *)
Definition tagOf (isMILP : bool) (i : nat) : E_HyperplaneSource :=
  if isMILP
  then (if Nat.eqb i 0 then MIPOptimalSolutionPoint else MIPSolutionPoolSolutionPoint)
  else LPRelaxedSolutionPoint.

(** Where an enqueued hyperplane comes from: the [i]-th input point, and one
    of that point's most deviating constraints whose value is not negative. *)
Definition comesFrom
  (getMostDeviatingConstraints : list double -> double -> list PairIndexValue)
  (constrSelFactor : double) (isMILP : bool) (solPoints : list SolutionPoint)
  (h : Hyperplane) : Prop :=
  exists i sp c,
    nth_error solPoints i = Some sp /\
    In c (getMostDeviatingConstraints (point sp) constrSelFactor) /\
    (value c <? 0)%float = false /\
    sourceConstraintIndex h = idx c /\
    generatedPoint h = point sp /\
    source h = tagOf isMILP i.

Lemma hyperplaneSource_tagOf isMILP i : hyperplaneSource isMILP i = tagOf isMILP i.
Proof. unfold hyperplaneSource, tagOf. destruct (Nat.eqb i 0), isMILP; reflexivity. Qed.

Lemma candidatesFrom_comeFrom getMost factor isMILP rest : forall i before,
  length before = i ->
  Forall (comesFrom getMost factor isMILP (before ++ rest))
         (candidatesFrom getMost factor isMILP i rest).
Proof.
  induction rest as [|sp rest IH]; intros i before Hlen; simpl; [constructor|].
  apply Forall_app. split.
  - unfold candidatesOf. apply Forall_forall. intros h Hin.
    apply in_map_iff in Hin. destruct Hin as (c & Hh & Hc).
    apply filter_In in Hc. destruct Hc as [Hc Hval].
    exists i, sp, c. subst h. simpl.
    split; [rewrite nth_error_app2 by lia; rewrite Hlen, Nat.sub_diag; reflexivity|].
    split; [exact Hc|]. split; [destruct (value c <? 0)%float; [discriminate|reflexivity]|].
    repeat split. apply hyperplaneSource_tagOf.
  - specialize (IH (S i) (before ++ [sp])).
    rewrite <- app_assoc in IH. simpl in IH. apply IH.
    rewrite length_app. simpl. lia.
Qed.

Lemma Forall_firstn {A} (P : A -> Prop) (n : nat) (l : list A) :
  Forall P l -> Forall P (firstn n l).
Proof.
  intros H. rewrite <- (firstn_skipn n l) in H.
  apply Forall_app in H. exact (proj1 H).
Qed.

(** Every hyperplane an invocation of [run] enqueues is for one of the input
    points and for one of that point's most deviating constraints whose value
    is not negative: a constraint of negative value never yields a
    hyperplane.  The hyperplane is generated at that very point, and its tag
    follows the point's position: in a MIP iteration the first point's
    hyperplanes are tagged as the optimal solution point and all later ones
    as solution-pool points; outside a MIP iteration all are tagged as LP
    relaxation points. *)
Theorem run_enqueues_only_nonnegative_constraints
  (getMostDeviatingConstraints : list double -> double -> list PairIndexValue)
  (constrSelFactor : double) (MaxHyperplanesPerIteration : Z) (isMILP : bool)
  (solPoints : list SolutionPoint) (p : ProcessInfo) :
  Forall (comesFrom getMostDeviatingConstraints constrSelFactor isMILP solPoints)
    (enqueued p (run getMostDeviatingConstraints constrSelFactor
                     MaxHyperplanesPerIteration isMILP solPoints p)).
Proof.
  rewrite enqueued_run. apply Forall_firstn.
  apply (candidatesFrom_comeFrom getMostDeviatingConstraints constrSelFactor isMILP
           solPoints 0%nat []). reflexivity.
Qed.

Lemma constraintLoop_capped Max isMILP i pt cs : forall a p,
  (Max <= a)%Z ->
  constraintLoop Max isMILP i pt cs a p
  = (match cs with [] => Continue | _ => Return end, a, p).
Proof.
  intros a p Hcap. destruct cs as [|c rest]; [reflexivity|].
  simpl. apply Z.leb_le in Hcap. rewrite Hcap. reflexivity.
Qed.

Lemma pointLoop_capped getMost factor Max isMILP solPoints : forall i a p,
  (Max <= a)%Z ->
  pointLoop getMost factor Max isMILP i solPoints a p = (a, p).
Proof.
  induction solPoints as [|sp rest IH]; intros i a p Hcap; [reflexivity|].
  simpl. rewrite constraintLoop_capped by exact Hcap.
  destruct (getMost (point sp) factor); [apply IH; exact Hcap|reflexivity].
Qed.

(** With a cap of zero or less, [run] changes nothing: no hyperplane is
    enqueued and no warning is printed, whatever the points are. *)
Theorem run_with_nonpositive_cap_changes_nothing
  (getMostDeviatingConstraints : list double -> double -> list PairIndexValue)
  (constrSelFactor : double) (MaxHyperplanesPerIteration : Z) (isMILP : bool)
  (solPoints : list SolutionPoint) (p : ProcessInfo) :
  (MaxHyperplanesPerIteration <= 0)%Z ->
  run getMostDeviatingConstraints constrSelFactor MaxHyperplanesPerIteration isMILP
      solPoints p = p.
Proof.
  intros Hcap. unfold run.
  rewrite (pointLoop_capped getMostDeviatingConstraints constrSelFactor) by exact Hcap.
  reflexivity.
Qed.

Lemma run_with_nonpositive_cap_changes_nothing_witness :
  run demoConstraints 0.5%float 0 true demoPoints (mkProcessInfo [] [])
  = mkProcessInfo [] [].
Proof.
  apply (run_with_nonpositive_cap_changes_nothing demoConstraints 0.5%float 0 true
           demoPoints (mkProcessInfo [] [])). lia.
Defined.

(** The warnings of an uncapped walk: one for each constraint of negative
    value, over all points. *)
Fixpoint interiorConstraints
  (getMostDeviatingConstraints : list double -> double -> list PairIndexValue)
  (constrSelFactor : double) (solPoints : list SolutionPoint) : nat :=
  match solPoints with
  | [] => 0
  | sp :: rest =>
    length (filter (fun c => (value c <? 0)%float)
                   (getMostDeviatingConstraints (point sp) constrSelFactor))
    + interiorConstraints getMostDeviatingConstraints constrSelFactor rest
  end.

Lemma constraintLoop_below_cap Max isMILP i pt cs : forall a p,
  (a + Z.of_nat (length (filter (fun c => negb (value c <? 0)%float) cs)) < Max)%Z ->
  constraintLoop Max isMILP i pt cs a p
  = (Continue,
     (a + Z.of_nat (length (filter (fun c => negb (value c <? 0)%float) cs)))%Z,
     mkProcessInfo
       (hyperplaneWaitingList p
        ++ map (fun c => mkHyperplane (idx c) pt (hyperplaneSource isMILP i))
               (filter (fun c => negb (value c <? 0)%float) cs))
       (warnings p
        ++ repeat interiorWarning
             (length (filter (fun c => (value c <? 0)%float) cs)))).
Proof.
  induction cs as [|c rest IH]; intros a p Hlt; simpl.
  - rewrite Z.add_0_r, !app_nil_r. destruct p; reflexivity.
  - simpl in Hlt.
    assert (Hcap : (Max <=? a)%Z = false).
    { apply Z.leb_gt. destruct (value c <? 0)%float; simpl in Hlt; lia. }
    rewrite Hcap. destruct (value c <? 0)%float; simpl in *.
    + rewrite IH by exact Hlt. unfold outputWarning, interiorWarning. simpl.
      rewrite <- app_assoc. reflexivity.
    + rewrite IH by lia. unfold push_back. simpl.
      rewrite <- app_assoc. simpl.
      f_equal. f_equal. lia.
Qed.

Lemma pointLoop_below_cap getMost factor Max isMILP solPoints : forall i a p,
  (a + Z.of_nat (length (candidatesFrom getMost factor isMILP i solPoints)) < Max)%Z ->
  pointLoop getMost factor Max isMILP i solPoints a p
  = ((a + Z.of_nat (length (candidatesFrom getMost factor isMILP i solPoints)))%Z,
     mkProcessInfo
       (hyperplaneWaitingList p ++ candidatesFrom getMost factor isMILP i solPoints)
       (warnings p ++ repeat interiorWarning (interiorConstraints getMost factor solPoints))).
Proof.
  induction solPoints as [|sp rest IH]; intros i a p Hlt; simpl.
  - rewrite Z.add_0_r, !app_nil_r. destruct p; reflexivity.
  - simpl in Hlt. unfold candidatesOf in *. rewrite length_app, length_map in Hlt.
    rewrite constraintLoop_below_cap by lia.
    rewrite IH by (simpl; lia). simpl.
    rewrite length_app, length_map, repeat_app, <- !app_assoc.
    f_equal. lia.
Qed.

(** When the uncapped enumeration is shorter than the cap, [run] drops
    nothing: every candidate is enqueued, in order, and every constraint of
    negative value, at every point, gets its warning. *)
Theorem run_below_cap_enqueues_every_candidate
  (getMostDeviatingConstraints : list double -> double -> list PairIndexValue)
  (constrSelFactor : double) (MaxHyperplanesPerIteration : Z) (isMILP : bool)
  (solPoints : list SolutionPoint) (p : ProcessInfo) :
  (Z.of_nat (length (candidatesFrom getMostDeviatingConstraints constrSelFactor
                       isMILP 0 solPoints)) < MaxHyperplanesPerIteration)%Z ->
  hyperplaneWaitingList
    (run getMostDeviatingConstraints constrSelFactor MaxHyperplanesPerIteration isMILP
         solPoints p)
  = hyperplaneWaitingList p
    ++ candidatesFrom getMostDeviatingConstraints constrSelFactor isMILP 0 solPoints /\
  warnings
    (run getMostDeviatingConstraints constrSelFactor MaxHyperplanesPerIteration isMILP
         solPoints p)
  = warnings p
    ++ repeat interiorWarning
         (interiorConstraints getMostDeviatingConstraints constrSelFactor solPoints).
Proof.
  intros Hlt. unfold run. rewrite pointLoop_below_cap by (simpl; lia).
  split; reflexivity.
Qed.

Lemma run_below_cap_enqueues_every_candidate_witness :
  length (hyperplaneWaitingList
            (run demoConstraints 0.5%float 5 true demoPoints (mkProcessInfo [] []))) = 4%nat /\
  length (warnings
            (run demoConstraints 0.5%float 5 true demoPoints (mkProcessInfo [] []))) = 2%nat.
Proof.
  destruct (run_below_cap_enqueues_every_candidate demoConstraints 0.5%float 5 true
              demoPoints (mkProcessInfo [] [])) as [H1 H2]; [vm_compute; reflexivity|].
  rewrite H1, H2. split; reflexivity.
Defined.

End SelectorFacts.

(** ** The Cbc adapter, continued: variables and their bounds *)

Module CbcFacts.

Import Cbc.

(** The types for which [addVariable] calls [setInteger] (lines 77-90). *)
Definition isDiscreteType (t : E_VariableType) : bool :=
  match t with
  | Integer | Binary | Semicontinuous => true
  | _ => false
  end.

(** Whether a call of [addVariable] runs into the exception it is given: a
    throw in [setInteger] only matters when [setInteger] is called. *)
Definition callFails (c : AddVariableCall) : bool :=
  match callThrows c with
  | Some SetColumnBounds | Some SetColName => true
  | Some SetInteger => isDiscreteType (callType c)
  | None => false
  end.

Definition succeeded (calls : list AddVariableCall) : list AddVariableCall :=
  filter (fun c => negb (callFails c)) calls.

(** The value the [CoinModel] holds for column [i] after the logged calls: the
    one of the last call made for that column. *)
Fixpoint lastFor {A} (i : Z) (l : list (Z * A)) : option A :=
  match l with
  | [] => None
  | (k, a) :: rest =>
    match lastFor i rest with
    | Some b => Some b
    | None => if (k =? i)%Z then Some a else None
    end
  end.

(** The indexes of the discrete-typed entries of a type vector that starts
    at index [i]. *)
Fixpoint discreteIndexes (i : Z) (types : list E_VariableType) : list Z :=
  match types with
  | [] => []
  | t :: rest =>
    (if isDiscreteType t then [i] else []) ++ discreteIndexes (i + 1) rest
  end.

(** Line 973, and lines 993-1027. *)
Definition fixVariable (varIndex : nat) (value : double) (s : MIPSolverCbc) : MIPSolverCbc :=
  updateVariableBound varIndex value value s.

Definition updateVariableLowerBound (varIndex : nat) (lowerBound : double)
  (s : MIPSolverCbc) : MIPSolverCbc :=
  match getCurrentVariableBounds varIndex s with
  | Some (currentLower, currentUpper) =>
    if (currentLower =? lowerBound)%float then s
    else set_osiColBounds
           (setColBounds varIndex (lowerBound, currentUpper) (osiColBounds s)) s
  | None =>
    outputError "Error when updating variable bounds for variable index"%string s
  end.

Definition updateVariableUpperBound (varIndex : nat) (upperBound : double)
  (s : MIPSolverCbc) : MIPSolverCbc :=
  match getCurrentVariableBounds varIndex s with
  | Some (currentLower, currentUpper) =>
    if (currentUpper =? upperBound)%float then s
    else set_osiColBounds
           (setColBounds varIndex (currentLower, upperBound) (osiColBounds s)) s
  | None =>
    outputError "Error when updating variable bounds for variable index"%string s
  end.

(** *** What [addVariable] records *)

Lemma addVariable_succeeds_iff t name type lb ub s :
  snd (addVariable t name type lb ub s) = negb (callFails (mkCall t name type lb ub)).
Proof.
  unfold addVariable, addVariable_try, callFails. simpl.
  destruct t as [[]|]; simpl; destruct type; reflexivity.
Qed.

Lemma addVariable_vectors t name type lb ub s :
  let r := fst (addVariable t name type lb ub s) in
  if callFails (mkCall t name type lb ub)
  then variableTypes r = variableTypes s /\ variableNames r = variableNames s /\
       numberOfVariables r = numberOfVariables s /\
       length (errors r) = S (length (errors s))
  else variableTypes r = variableTypes s ++ [type] /\
       variableNames r = variableNames s ++ [name] /\
       numberOfVariables r = (numberOfVariables s + 1)%Z /\
       errors r = errors s.
Proof.
  unfold addVariable, addVariable_try, callFails. simpl.
  destruct t as [[]|]; simpl; destruct type; simpl;
    rewrite ?length_app; simpl; repeat split; lia.
Qed.

Lemma addVariables_vectors calls : forall s,
  variableTypes (addVariables calls s)
    = variableTypes s ++ map callType (succeeded calls) /\
  variableNames (addVariables calls s)
    = variableNames s ++ map callName (succeeded calls) /\
  variableLowerBounds (addVariables calls s)
    = variableLowerBounds s
      ++ map (fun c => clampLowerBound (callLowerBound c)) (succeeded calls) /\
  variableUpperBounds (addVariables calls s)
    = variableUpperBounds s
      ++ map (fun c => clampUpperBound (callUpperBound c)) (succeeded calls) /\
  numberOfVariables (addVariables calls s)
    = (numberOfVariables s + Z.of_nat (length (succeeded calls)))%Z /\
  length (errors (addVariables calls s))
    = (length (errors s) + length (filter callFails calls))%nat.
Proof.
  induction calls as [|c rest IH]; intros s.
  - simpl. rewrite !app_nil_r. repeat split; lia.
  - unfold addVariables in *. simpl fold_left.
    destruct c as [t name type lb ub]. simpl callThrows. simpl callName.
    simpl callType. simpl callLowerBound. simpl callUpperBound.
    pose proof (addVariable_vectors t name type lb ub s) as Hv.
    pose proof (addVariable_stores t name type lb ub s) as Hb.
    pose proof (addVariable_succeeds_iff t name type lb ub s) as Hok.
    cbn zeta in Hv, Hb. rewrite Hok in Hb.
    specialize (IH (fst (addVariable t name type lb ub s))).
    destruct IH as (I1 & I2 & I3 & I4 & I5 & I6).
    unfold succeeded in *. simpl filter.
    destruct (callFails (mkCall t name type lb ub)); simpl negb in *; cbv iota in *.
    + destruct Hv as (V1 & V2 & V3 & V4). destruct Hb as (B1 & B2).
      rewrite I1, I2, I3, I4, I5, I6, V1, V2, V3, V4, B1, B2.
      repeat split; simpl; lia.
    + destruct Hv as (V1 & V2 & V3 & V4). destruct Hb as (B1 & B2).
      rewrite I1, I2, I3, I4, I5, I6, V1, V2, V3, V4, B1, B2.
      simpl. rewrite <- !app_assoc. simpl. repeat split; lia.
Qed.

(** After any sequence of [addVariable] calls on a fresh solver, the four
    vectors hold exactly the calls that succeeded, in call order (types,
    names, and the clamped bounds), [numberOfVariables] is their number, and
    each call that failed left one error message and nothing else in them.  A
    call fails exactly when one of the [CoinModel] calls it makes throws; a
    throwing [setInteger] does not touch a variable of a type for which it is
    not called. *)
Theorem addVariable_vectors_hold_successful_calls (calls : list AddVariableCall) :
  variableTypes (addVariables calls initialSolver) = map callType (succeeded calls) /\
  variableNames (addVariables calls initialSolver) = map callName (succeeded calls) /\
  variableLowerBounds (addVariables calls initialSolver)
    = map (fun c => clampLowerBound (callLowerBound c)) (succeeded calls) /\
  variableUpperBounds (addVariables calls initialSolver)
    = map (fun c => clampUpperBound (callUpperBound c)) (succeeded calls) /\
  numberOfVariables (addVariables calls initialSolver)
    = Z.of_nat (length (succeeded calls)) /\
  length (errors (addVariables calls initialSolver)) = length (filter callFails calls) /\
  (forall t name type lb ub s,
      snd (addVariable t name type lb ub s) = negb (callFails (mkCall t name type lb ub))).
Proof.
  destruct (addVariables_vectors calls initialSolver) as (H1 & H2 & H3 & H4 & H5 & H6).
  simpl in *. repeat split; try assumption. apply addVariable_succeeds_iff.
Qed.

Lemma lastFor_app_single {A} (i k : Z) (a : A) (l : list (Z * A)) :
  lastFor i (l ++ [(k, a)]) = if (k =? i)%Z then Some a else lastFor i l.
Proof.
  induction l as [|[k' a'] rest IH]; simpl.
  - destruct (k =? i)%Z; reflexivity.
  - rewrite IH. destruct (k =? i)%Z; [reflexivity|].
    destruct (lastFor i rest); reflexivity.
Qed.

(** The solver's vectors and the [CoinModel] agree on every variable below
    [numberOfVariables]. *)
Definition modelAgrees (s : MIPSolverCbc) : Prop :=
  numberOfVariables s = Z.of_nat (length (variableNames s)) /\
  length (variableLowerBounds s) = length (variableNames s) /\
  length (variableUpperBounds s) = length (variableNames s) /\
  forall n name, nth_error (variableNames s) n = Some name ->
    lastFor (Z.of_nat n) (colNames (coinModel s)) = Some name /\
    exists lb ub,
      nth_error (variableLowerBounds s) n = Some lb /\
      nth_error (variableUpperBounds s) n = Some ub /\
      lastFor (Z.of_nat n) (columnBounds (coinModel s)) = Some (lb, ub).

Lemma nth_error_snoc {A} (l : list A) (a : A) (n : nat) (x : A) :
  nth_error (l ++ [a]) n = Some x ->
  (n < length l)%nat /\ nth_error l n = Some x \/ n = length l /\ x = a.
Proof.
  intros H. destruct (Nat.lt_ge_cases n (length l)) as [Hlt|Hge].
  - left. rewrite nth_error_app1 in H by exact Hlt. auto.
  - right. rewrite nth_error_app2 in H by exact Hge.
    destruct (n - length l)%nat as [|m] eqn:E; simpl in H.
    + split; [lia|congruence].
    + destruct m; discriminate.
Qed.

Lemma addVariable_modelAgrees t name type lb ub s :
  modelAgrees s -> modelAgrees (fst (addVariable t name type lb ub s)).
Proof.
  intros (Hn & Hl & Hu & Hagree).
  assert (Hold : forall n x, nth_error (variableNames s) n = Some x ->
                 (Z.of_nat n =? numberOfVariables s)%Z = false).
  { intros n x Hx. apply Z.eqb_neq. rewrite Hn.
    assert (n < length (variableNames s))%nat
      by (apply nth_error_Some; rewrite Hx; discriminate). lia. }
  unfold addVariable, addVariable_try.
  destruct (throwsAt t SetColumnBounds); simpl.
  { split; [exact Hn|]. split; [exact Hl|]. split; [exact Hu|]. exact Hagree. }
  destruct (throwsAt t SetColName); simpl.
  { split; [exact Hn|]. split; [exact Hl|]. split; [exact Hu|].
    intros n x Hx. destruct (Hagree n x Hx) as (Hname & lb0 & ub0 & H1 & H2 & H3).
    split; [exact Hname|]. exists lb0, ub0. split; [exact H1|]. split; [exact H2|].
    simpl. rewrite lastFor_app_single. rewrite Z.eqb_sym, (Hold n x Hx). exact H3. }
  assert (Hfail : modelAgrees
            (outputError "Cbc exception caught when adding variable to model: "%string
               (set_isProblemDiscrete true
                  (set_coinModel
                     (mkCoinModel
                        (columnBounds (coinModel s)
                         ++ [(numberOfVariables s, (clampLowerBound lb, clampUpperBound ub))])
                        (colNames (coinModel s) ++ [(numberOfVariables s, name)])
                        (integerColumns (coinModel s)))
                     (set_coinModel
                        (mkCoinModel
                           (columnBounds (coinModel s)
                            ++ [(numberOfVariables s,
                                 (clampLowerBound lb, clampUpperBound ub))])
                           (colNames (coinModel s)) (integerColumns (coinModel s))) s))))).
  { split; [exact Hn|]. split; [exact Hl|]. split; [exact Hu|]. simpl.
    intros n x Hx. destruct (Hagree n x Hx) as (Hname & lb0 & ub0 & H1 & H2 & H3).
    rewrite !lastFor_app_single, Z.eqb_sym, (Hold n x Hx).
    split; [exact Hname|]. exists lb0, ub0. auto. }
  assert (Hgood : forall b c3,
            columnBounds c3 = columnBounds (coinModel s)
                              ++ [(numberOfVariables s, (clampLowerBound lb, clampUpperBound ub))] ->
            colNames c3 = colNames (coinModel s) ++ [(numberOfVariables s, name)] ->
            modelAgrees
              (mkMIPSolverCbc (numberOfVariables s + 1)
                 (variableTypes s ++ [type]) (variableNames s ++ [name])
                 (variableLowerBounds s ++ [clampLowerBound lb])
                 (variableUpperBounds s ++ [clampUpperBound ub])
                 b c3 (osiColBounds s) (cbcRuns s)
                 (hasInfeasibilityRepairBeenPerformed s) (Cbc.errors s) (MIPStarts s))).
  { intros b c3 Hcb Hcn. unfold modelAgrees. simpl. rewrite !length_app. simpl.
    split; [lia|]. split; [lia|]. split; [lia|].
    intros n x Hx. rewrite Hcb, Hcn, !lastFor_app_single.
    apply nth_error_snoc in Hx. destruct Hx as [[Hlt Hx]|[Hlast Hx]].
    - destruct (Hagree n x Hx) as (Hname & lb0 & ub0 & H1 & H2 & H3).
      rewrite Z.eqb_sym, (Hold n x Hx). split; [exact Hname|].
      exists lb0, ub0. rewrite !nth_error_app1 by lia. auto.
    - subst n x. rewrite Hn, Z.eqb_refl. split; [reflexivity|].
      exists (clampLowerBound lb), (clampUpperBound ub).
      split; [rewrite <- Hl, nth_error_app2, Nat.sub_diag by lia; reflexivity|].
      split; [rewrite <- Hu, nth_error_app2, Nat.sub_diag by lia; reflexivity|].
      reflexivity. }
  destruct type; simpl; try (apply Hgood; reflexivity);
    destruct (throwsAt t SetInteger); simpl;
    try exact Hfail; apply Hgood; reflexivity.
Qed.

Lemma addVariables_modelAgrees calls : forall s,
  modelAgrees s -> modelAgrees (addVariables calls s).
Proof.
  induction calls as [|c rest IH]; intros s Hs; [exact Hs|].
  unfold addVariables in *. simpl. apply IH. apply addVariable_modelAgrees. exact Hs.
Qed.

(** After any sequence of [addVariable] calls on a fresh solver, failed ones
    included, the [CoinModel] and the solver's own vectors agree on every
    recorded variable: the name and the bounds last set in the model for
    column [n] are [variableNames[n]] and the pair of
    [variableLowerBounds[n]] and [variableUpperBounds[n]]. *)
Theorem addVariable_model_agrees_with_vectors (calls : list AddVariableCall)
  (n : nat) (name : string) :
  nth_error (variableNames (addVariables calls initialSolver)) n = Some name ->
  lastFor (Z.of_nat n) (colNames (coinModel (addVariables calls initialSolver)))
    = Some name /\
  exists lb ub,
    nth_error (variableLowerBounds (addVariables calls initialSolver)) n = Some lb /\
    nth_error (variableUpperBounds (addVariables calls initialSolver)) n = Some ub /\
    lastFor (Z.of_nat n) (columnBounds (coinModel (addVariables calls initialSolver)))
      = Some (lb, ub).
Proof.
  assert (H : modelAgrees (addVariables calls initialSolver)).
  { apply addVariables_modelAgrees.
    split; [reflexivity|]. split; [reflexivity|]. split; [reflexivity|].
    intros m x Hx. destruct m; discriminate. }
  destruct H as (_ & _ & _ & H). apply H.
Qed.

(** Three calls: "x" fails after its bounds reached the model, "y" takes the
    same column, "z" the next one. *)
Definition demoCalls : list AddVariableCall :=
  [mkCall (Some SetColName) "x"%string Real 0%float 1%float;
   mkCall None "y"%string Integer (-1e60)%float 5%float;
   mkCall None "z"%string Real 2%float 1e60%float].

Lemma addVariable_model_agrees_with_vectors_witness :
  columnBounds (coinModel (addVariables demoCalls initialSolver))
    = [(0%Z, (0%float, 1%float)); (0%Z, ((-1e50)%float, 5%float));
       (1%Z, (2%float, 1e50%float))] /\
  lastFor 0 (columnBounds (coinModel (addVariables demoCalls initialSolver)))
    = Some ((-1e50)%float, 5%float).
Proof.
  split; [vm_compute; reflexivity|].
  destruct (addVariable_model_agrees_with_vectors demoCalls 0 "y"%string eq_refl)
    as (_ & lb & ub & Hl & Hu & H).
  vm_compute in Hl, Hu. injection Hl as <-. injection Hu as <-. exact H.
Defined.

Lemma discreteIndexes_app (l : list E_VariableType) : forall i t,
  discreteIndexes i (l ++ [t])
  = discreteIndexes i l
    ++ (if isDiscreteType t then [(i + Z.of_nat (length l))%Z] else []).
Proof.
  induction l as [|t' rest IH]; intros i t.
  - simpl. rewrite Z.add_0_r, app_nil_r. reflexivity.
  - cbn [discreteIndexes app length]. rewrite IH, <- app_assoc.
    replace (i + 1 + Z.of_nat (length rest))%Z
      with (i + Z.of_nat (S (length rest)))%Z by lia.
    reflexivity.
Qed.

Lemma fold_left_ind_cbc {A S} (f : S -> A -> S) (P : S -> Prop) (l : list A) (s : S) :
  P s -> (forall s a, P s -> P (f s a)) -> P (fold_left f l s).
Proof.
  revert s. induction l as [|a l IH]; intros s Hs Hstep; simpl; [exact Hs|].
  apply IH; [apply Hstep; exact Hs|exact Hstep].
Qed.

(** The integer columns of the model are the discrete-typed variables, and
    the problem is flagged discrete when there is one. *)
Definition integersAgree (s : MIPSolverCbc) : Prop :=
  numberOfVariables s = Z.of_nat (length (variableTypes s)) /\
  integerColumns (coinModel s) = discreteIndexes 0 (variableTypes s) /\
  implb (existsb isDiscreteType (variableTypes s)) (isProblemDiscrete s) = true.

Lemma addVariable_integersAgree t name type lb ub s :
  integersAgree s -> integersAgree (fst (addVariable t name type lb ub s)).
Proof.
  intros (Hn & Hi & Hd).
  assert (Hkeep : implb (existsb isDiscreteType (variableTypes s)) true = true).
  { destruct (existsb _ _); reflexivity. }
  unfold addVariable, addVariable_try, integersAgree.
  destruct (throwsAt t SetColumnBounds); simpl; [auto|].
  destruct (throwsAt t SetColName); simpl; [auto|].
  destruct type; simpl;
    try (destruct (throwsAt t SetInteger); simpl);
    rewrite ?length_app, ?discreteIndexes_app, ?existsb_app; simpl;
    rewrite ?Hi, ?Hn, ?app_nil_r, ?orb_false_r, ?orb_true_r;
    try (split; [lia|split; [reflexivity|]]); auto.
Qed.

Lemma addVariable_keeps_discrete t name type lb ub s :
  isProblemDiscrete s = true ->
  isProblemDiscrete (fst (addVariable t name type lb ub s)) = true.
Proof.
  intros H. unfold addVariable, addVariable_try.
  destruct (throwsAt t SetColumnBounds); simpl; [exact H|].
  destruct (throwsAt t SetColName); simpl; [exact H|].
  destruct type; simpl; try exact H; destruct (throwsAt t SetInteger); reflexivity.
Qed.

(** After any sequence of [addVariable] calls on a fresh solver, the columns
    the model holds as integer are exactly the recorded variables of type
    [Integer], [Binary] or [Semicontinuous], in order, and whenever there is
    such a variable the problem is flagged discrete.  The flag is never taken
    back by a later call.  It can be set without any such variable: a call
    for an integer variable whose [setInteger] throws fails, adds nothing,
    and still leaves the flag set. *)
Theorem addVariable_integer_columns (calls : list AddVariableCall)
  (t : option CoinCall) (name : string) (type : E_VariableType) (lb ub : double)
  (s : MIPSolverCbc) :
  integerColumns (coinModel (addVariables calls initialSolver))
    = discreteIndexes 0 (variableTypes (addVariables calls initialSolver)) /\
  implb (existsb isDiscreteType (variableTypes (addVariables calls initialSolver)))
        (isProblemDiscrete (addVariables calls initialSolver)) = true /\
  implb (isProblemDiscrete s)
        (isProblemDiscrete (fst (addVariable t name type lb ub s))) = true /\
  snd (addVariable (Some SetInteger) name Integer lb ub s) = false /\
  variableTypes (fst (addVariable (Some SetInteger) name Integer lb ub s))
    = variableTypes s /\
  isProblemDiscrete (fst (addVariable (Some SetInteger) name Integer lb ub s)) = true.
Proof.
  assert (H : integersAgree (addVariables calls initialSolver)).
  { unfold addVariables.
    apply (fold_left_ind_cbc _ integersAgree); [repeat split|].
    intros s' c Hs'. apply addVariable_integersAgree. exact Hs'. }
  destruct H as (_ & H1 & H2). split; [exact H1|]. split; [exact H2|].
  split; [|repeat split].
  destruct (isProblemDiscrete s) eqn:E; [|reflexivity].
  rewrite addVariable_keeps_discrete by exact E. reflexivity.
Qed.

(** *** Bound updates *)

Lemma setColBounds_idempotent cols : forall i b,
  setColBounds i b (setColBounds i b cols) = setColBounds i b cols.
Proof.
  induction cols as [|c rest IH]; intros i b; [destruct i; reflexivity|].
  destruct i; simpl; [reflexivity|]. rewrite IH. reflexivity.
Qed.

(** [updateVariableBound] on a column the model has: afterwards the column
    holds the requested bounds (the very values, or values equal to them as
    numbers that were already there); no other column changes and no column
    is added or lost; and doing it a second time changes nothing. *)
Theorem updateVariableBound_is_local (i : nat) (lb ub : double) (s : MIPSolverCbc) :
  (i < length (osiColBounds s))%nat ->
  (exists b, nth_error (osiColBounds (updateVariableBound i lb ub s)) i = Some b /\
             boundsAgree b (lb, ub)) /\
  (forall j, i <> j ->
     nth_error (osiColBounds (updateVariableBound i lb ub s)) j
     = nth_error (osiColBounds s) j) /\
  length (osiColBounds (updateVariableBound i lb ub s)) = length (osiColBounds s) /\
  updateVariableBound i lb ub (updateVariableBound i lb ub s)
  = updateVariableBound i lb ub s.
Proof.
  intros Hi. split; [apply updateVariableBound_same; exact Hi|].
  split; [intros j Hj; apply updateVariableBound_other; exact Hj|].
  split; [apply updateVariableBound_length|].
  unfold updateVariableBound at 2 3. unfold getCurrentVariableBounds.
  destruct (nth_error (osiColBounds s) i) as [[l u]|] eqn:E;
    [|apply nth_error_None in E; lia].
  destruct ((l =? lb) && (u =? ub))%float eqn:Heq.
  - unfold updateVariableBound, getCurrentVariableBounds. rewrite E, Heq. reflexivity.
  - unfold updateVariableBound, getCurrentVariableBounds. simpl.
    rewrite nth_error_setColBounds_same by exact Hi.
    destruct ((lb =? lb) && (ub =? ub))%float; [reflexivity|].
    rewrite setColBounds_idempotent. reflexivity.
Qed.

Lemma updateVariableBound_is_local_witness :
  nth_error (osiColBounds (updateVariableBound 0 3%float 4%float nonlinearSolver)) 0
    = Some (3%float, 4%float) /\
  nth_error (osiColBounds (updateVariableBound 0 3%float 4%float nonlinearSolver)) 1
    = nth_error (osiColBounds nonlinearSolver) 1.
Proof.
  split; [vm_compute; reflexivity|].
  apply (updateVariableBound_is_local 0 3%float 4%float nonlinearSolver);
    [simpl; lia|lia].
Defined.

(** The one-sided updates and [fixVariable] on a column holding [(l, u)]:
    [updateVariableLowerBound] leaves [u] in place, [updateVariableUpperBound]
    leaves [l] in place, each puts the requested value (or keeps a value
    equal to it as a number) on its own side, and [fixVariable] makes both
    sides the value.  None of them changes another column. *)
Theorem one_sided_updates_keep_other_side (i : nat) (v l u : double) (s : MIPSolverCbc) :
  nth_error (osiColBounds s) i = Some (l, u) ->
  (exists l', nth_error (osiColBounds (updateVariableLowerBound i v s)) i = Some (l', u) /\
              (l' = v \/ (l' =? v)%float = true)) /\
  (exists u', nth_error (osiColBounds (updateVariableUpperBound i v s)) i = Some (l, u') /\
              (u' = v \/ (u' =? v)%float = true)) /\
  (exists b, nth_error (osiColBounds (fixVariable i v s)) i = Some b /\
             boundsAgree b (v, v)) /\
  (forall j, i <> j ->
     nth_error (osiColBounds (updateVariableLowerBound i v s)) j
       = nth_error (osiColBounds s) j /\
     nth_error (osiColBounds (updateVariableUpperBound i v s)) j
       = nth_error (osiColBounds s) j /\
     nth_error (osiColBounds (fixVariable i v s)) j = nth_error (osiColBounds s) j).
Proof.
  intros E.
  assert (Hi : (i < length (osiColBounds s))%nat)
    by (apply nth_error_Some; rewrite E; discriminate).
  unfold updateVariableLowerBound, updateVariableUpperBound, fixVariable,
    getCurrentVariableBounds.
  rewrite E. split; [|split; [|split]].
  - destruct (l =? v)%float eqn:Hl.
    + exists l. split; [exact E|right; exact Hl].
    + exists v. simpl. rewrite nth_error_setColBounds_same by exact Hi. auto.
  - destruct (u =? v)%float eqn:Hu.
    + exists u. split; [exact E|right; exact Hu].
    + exists v. simpl. rewrite nth_error_setColBounds_same by exact Hi. auto.
  - apply updateVariableBound_same. exact Hi.
  - intros j Hj. split; [|split].
    + destruct (l =? v)%float; [reflexivity|].
      simpl. apply nth_error_setColBounds_other. exact Hj.
    + destruct (u =? v)%float; [reflexivity|].
      simpl. apply nth_error_setColBounds_other. exact Hj.
    + apply updateVariableBound_other. exact Hj.
Qed.

Lemma one_sided_updates_keep_other_side_witness :
  nth_error (osiColBounds (updateVariableLowerBound 0 3%float nonlinearSolver)) 0
    = Some (3%float, 10%float) /\
  exists b, nth_error (osiColBounds (fixVariable 0 3%float nonlinearSolver)) 0 = Some b /\
            boundsAgree b (3%float, 3%float).
Proof.
  split; [vm_compute; reflexivity|].
  apply (one_sided_updates_keep_other_side 0 3%float 0%float 10%float nonlinearSolver).
  reflexivity.
Defined.

(** *** [solveProblem], the runs of Cbc *)

Lemma tightenDualUnbounded_errors_only vars : forall updated s,
  cbcRuns (snd (tightenDualUnbounded vars updated s)) = cbcRuns s.
Proof. intros updated s. apply tightenDualUnbounded_spec. Qed.

(** [getSolutionStatus] reports an error exactly when it answers [Error]. *)
Lemma getSolutionStatus_message (a : CbcAnswers) :
  snd (getSolutionStatus a)
  = if status_eqb (fst (getSolutionStatus a)) Error
    then Some "MIP solver return status unknown."%string else None.
Proof.
  unfold getSolutionStatus.
  repeat match goal with
         | |- context [if ?b then _ else _] => destruct b; try reflexivity
         end.
Qed.

Lemma runCbc_runs CbcMain1 s :
  cbcRuns (fst (runCbc CbcMain1 s)) = S (cbcRuns s).
Proof.
  unfold runCbc. destruct (answersAfter CbcMain1 _ _) as [a|]; [|reflexivity].
  destruct (getSolutionStatus a) as [st [msg|]]; reflexivity.
Qed.

(** What the MIP starts add to the error log (lines 417-430). *)
Definition mipStartErrors (CbcMain1 : CbcLibrary) (s : MIPSolverCbc) : list string :=
  if existsb (setMIPStartThrows CbcMain1) (MIPStarts s)
  then ["Error when adding MIP start to Cbc"%string] else [].

(** How often [solveProblem] runs Cbc, and what a single run leaves behind.
    It always runs Cbc once and never more than three times.  When the first
    run throws, the status is [Error], no bound is touched, and the log gains
    the error of the MIP starts, if [setMIPStart] threw, and the error of the
    solve.  When the status [getSolutionStatus] finds after the first run is
    neither [Infeasible] nor [Unbounded], that status is returned after the
    one run with every column bound as before, and the log gains the error
    of the MIP starts, if any, and, exactly when the status is [Error], the
    message that the status is unknown. *)
Theorem solveProblem_runs_of_cbc
  (CbcMain1 : CbcLibrary) (env : Environment) (s : MIPSolverCbc) :
  (cbcRuns s < cbcRuns (fst (solveProblem CbcMain1 env s)) <= cbcRuns s + 3)%nat /\
  match answersAfter CbcMain1 (cbcRuns s) (osiColBounds s) with
  | None =>
    snd (solveProblem CbcMain1 env s) = Some Error /\
    cbcRuns (fst (solveProblem CbcMain1 env s)) = S (cbcRuns s) /\
    osiColBounds (fst (solveProblem CbcMain1 env s)) = osiColBounds s /\
    Cbc.errors (fst (solveProblem CbcMain1 env s))
    = Cbc.errors s ++ mipStartErrors CbcMain1 s
      ++ ["Error when solving subproblem with Cbc"%string]
  | Some a =>
    let st := fst (getSolutionStatus a) in
    if status_eqb st Infeasible || status_eqb st Unbounded then True
    else snd (solveProblem CbcMain1 env s) = Some st /\
         cbcRuns (fst (solveProblem CbcMain1 env s)) = S (cbcRuns s) /\
         osiColBounds (fst (solveProblem CbcMain1 env s)) = osiColBounds s /\
         Cbc.errors (fst (solveProblem CbcMain1 env s))
         = Cbc.errors s ++ mipStartErrors CbcMain1 s
           ++ (if status_eqb st Error
               then ["MIP solver return status unknown."%string] else [])
  end.
Proof.
  assert (Hunb : forall s0 st,
            (cbcRuns s0 <= cbcRuns (fst (unboundedRetry CbcMain1 env s0 st))
             <= cbcRuns s0 + 1)%nat).
  { intros s0 st. unfold unboundedRetry.
    destruct (status_eqb st Unbounded); [|simpl; lia].
    match goal with
    | |- context [let '(_, _) := ?e in _] => destruct e as [updated s1] eqn:E
    end.
    assert (Hs1 : cbcRuns s1 = cbcRuns s0).
    { destruct (_ || _).
      - pose proof (tightenDualUnbounded_errors_only (allVariables env) false s0) as H.
        rewrite E in H. exact H.
      - destruct (classification_geb _ _); inversion E; subst;
          [apply updateVariableBound_cbcRuns|reflexivity]. }
    destruct updated; [|simpl; lia].
    pose proof (runCbc_runs CbcMain1 s1) as Hr.
    destruct (runCbc CbcMain1 s1) as [s2 [st2|]]; simpl in *;
      rewrite ?restoreDualUnbounded_cbcRuns; simpl; lia. }
  assert (Hinf : forall s0 st,
            (cbcRuns s0 <= cbcRuns (fst (infeasibleRetry CbcMain1 env s0 st))
             <= cbcRuns s0 + 1)%nat).
  { intros s0 st. unfold infeasibleRetry. destruct (_ && _); [|simpl; lia].
    match goal with
    | |- context [runCbc CbcMain1 ?s1] =>
      pose proof (runCbc_runs CbcMain1 s1) as Hr;
      destruct (runCbc CbcMain1 s1) as [s2 [st2|]]
    end; simpl in *; lia. }
  assert (Hstart : cbcRuns (addMIPStarts CbcMain1 s) = cbcRuns s /\
                   osiColBounds (addMIPStarts CbcMain1 s) = osiColBounds s /\
                   Cbc.errors (addMIPStarts CbcMain1 s)
                   = Cbc.errors s ++ mipStartErrors CbcMain1 s).
  { unfold addMIPStarts, mipStartErrors. destruct (existsb _ _); simpl;
      rewrite ?app_nil_r; repeat split. }
  destruct Hstart as (M1 & M2 & M3).
  split.
  - unfold solveProblem.
    pose proof (runCbc_runs CbcMain1 (addMIPStarts CbcMain1 s)) as Hr.
    destruct (runCbc CbcMain1 (addMIPStarts CbcMain1 s)) as [s1 [st1|]]; simpl in Hr.
    + specialize (Hinf s1 st1).
      destruct (infeasibleRetry CbcMain1 env s1 st1) as [s2 [st2|]]; simpl in *; [|lia].
      specialize (Hunb s2 st2). lia.
    + specialize (Hinf (Cbc.outputError "Error when solving subproblem with Cbc"%string s1)
                       Error).
      destruct (infeasibleRetry CbcMain1 env _ Error) as [s2 [st2|]]; simpl in *; [|lia].
      specialize (Hunb s2 st2). lia.
  - unfold solveProblem, runCbc. rewrite M1, M2.
    destruct (answersAfter CbcMain1 (cbcRuns s) (osiColBounds s)) as [a|].
    + cbv zeta. pose proof (getSolutionStatus_message a) as Hmsg.
      destruct (getSolutionStatus a) as [st msg]. simpl in Hmsg. simpl fst. subst msg.
      destruct (status_eqb st Infeasible) eqn:Ei; [exact I|].
      destruct (status_eqb st Unbounded) eqn:Eu; [exact I|]. simpl orb. cbv iota.
      unfold infeasibleRetry. rewrite Ei. simpl andb. cbv iota.
      unfold unboundedRetry. rewrite Eu.
      destruct (status_eqb st Error); simpl; rewrite ?M2, ?M3, ?app_nil_r, <- ?app_assoc;
        repeat split; reflexivity.
    + unfold infeasibleRetry, unboundedRetry. simpl.
      rewrite M2, M3, <- app_assoc. repeat split; lia.
Qed.

End CbcFacts.

(** ** The Cbc adapter, continued: rows and cuts *)

From Stdlib Require DecimalString.
From Stdlib Require Import Sorted.

Module CbcRows.

Import Cbc.

(** A row of [osiInterface]: its coefficients by column, its two bounds and
    its name. *)
Record Row := mkRow {
  coefficients : list (Z * double);
  rowLower : double;
  rowUpper : double;
  rowName : string }.

(** The members the row-building functions read and write. *)
Record Model := mkModel {
  rows : list Row;
  integerCuts : list Z;
  cutOffConstraintDefined : bool;
  cutOffConstraintIndex : Z;
  modelUpdated : bool;
  numberOfIntegerCuts : Z;
  isMinimizationProblem : bool;
  objectiveLinearExpression : list (Z * double);
  modelErrors : list string;
  modelDebug : list string }.

Definition getNumRows (m : Model) : Z := Z.of_nat (length (rows m)).

Definition addRow (r : Row) (m : Model) : Model :=
  mkModel (rows m ++ [r]) (integerCuts m) (cutOffConstraintDefined m)
    (cutOffConstraintIndex m) (modelUpdated m) (numberOfIntegerCuts m)
    (isMinimizationProblem m) (objectiveLinearExpression m) (modelErrors m)
    (modelDebug m).

Definition modelError (msg : string) (m : Model) : Model :=
  mkModel (rows m) (integerCuts m) (cutOffConstraintDefined m)
    (cutOffConstraintIndex m) (modelUpdated m) (numberOfIntegerCuts m)
    (isMinimizationProblem m) (objectiveLinearExpression m) (modelErrors m ++ [msg])
    (modelDebug m).

Definition outputDebug (msg : string) (m : Model) : Model :=
  mkModel (rows m) (integerCuts m) (cutOffConstraintDefined m)
    (cutOffConstraintIndex m) (modelUpdated m) (numberOfIntegerCuts m)
    (isMinimizationProblem m) (objectiveLinearExpression m) (modelErrors m)
    (modelDebug m ++ [msg]).

Definition set_rows (l : list Row) (m : Model) : Model :=
  mkModel l (integerCuts m) (cutOffConstraintDefined m)
    (cutOffConstraintIndex m) (modelUpdated m) (numberOfIntegerCuts m)
    (isMinimizationProblem m) (objectiveLinearExpression m) (modelErrors m)
    (modelDebug m).

(** [osiInterface->setRowUpper(index, value)]. *)
Fixpoint setRowUpperAt (index : nat) (value : double) (l : list Row) : list Row :=
  match l, index with
  | [], _ => []
  | r :: rest, O => mkRow (coefficients r) (rowLower r) value (rowName r) :: rest
  | r :: rest, S n => r :: setRowUpperAt n value rest
  end.

Definition setRowUpper (index : Z) (value : double) (m : Model) : Model :=
  if (index <? 0)%Z then m else set_rows (setRowUpperAt (Z.to_nat index) value (rows m)) m.

Definition double_of_nat (n : nat) : double := of_uint63 (Uint63.of_Z (Z.of_nat n)).

(** [fmt::format("IC_{}", n)]. *)
Definition integerCutName (n : nat) : string :=
  ("IC_" ++ DecimalString.NilEmpty.string_of_uint (Nat.to_uint n))%string.

Section Rows.

(** [osiInterface->getInfinity()] and the two sentinels of the cutoff. *)
Variable getInfinity : double.
Variable SHOT_DBL_MAX : double.
Variable SHOT_DBL_MIN : double.

(** Lines 263-291.  [elements] is the map in the order it is traversed;
    [throws] says whether building or adding the row throws. *)
Definition addLinearConstraint (throws : bool) (elements : list (Z * double))
  (constant : double) (name : string) (isGreaterThan : bool) (m : Model) : Model * Z :=
  let m' :=
    if throws
    then modelError "Error when adding term to linear constraint in Cbc: "%string m
    else if isGreaterThan
    then addRow (mkRow elements (- constant)%float getInfinity name) m
    else addRow (mkRow elements (- getInfinity)%float (- constant)%float name) m in
  (m', (getNumRows m' - 1)%Z).

(** Lines 884-921. *)
Definition createIntegerCut (throws : bool) (binaryIndexesOnes binaryIndexesZeroes : list Z)
  (m : Model) : Model * bool :=
  if throws
  then (modelError "Error when adding term to integer cut in Cbc: "%string m, false)
  else
    let cut := map (fun I => (I, 1.0%float)) binaryIndexesOnes
               ++ map (fun I => (I, (-1.0)%float)) binaryIndexesZeroes in
    let m1 := addRow (mkRow cut (- getInfinity)%float
                        (double_of_nat (length binaryIndexesOnes) - 1.0)%float
                        (integerCutName (length (integerCuts m)))) m in
    (mkModel (rows m1) (integerCuts m1 ++ [(getNumRows m1 - 1)%Z])
       (cutOffConstraintDefined m1) (cutOffConstraintIndex m1) true
       (numberOfIntegerCuts m1 + 1) (isMinimizationProblem m1)
       (objectiveLinearExpression m1) (modelErrors m1) (modelDebug m1), true).

(** Lines 746-790. *)
Definition setCutOffAsConstraint (throws : bool) (cutOff : double) (m : Model) : Model :=
  if ((cutOff =? SHOT_DBL_MAX) || (cutOff =? SHOT_DBL_MIN))%float then m
  else if throws
  then modelError "Error when setting cut off constraint value"%string m
  else if negb (cutOffConstraintDefined m)
  then
    let m1 :=
      if isMinimizationProblem m
      then addRow (mkRow (objectiveLinearExpression m) (- getInfinity)%float cutOff
                         "CUTOFF_C"%string) m
      else addRow (mkRow (objectiveLinearExpression m) (- getInfinity)%float
                         (-1.0 * cutOff)%float "CUTOFF_C"%string) m in
    mkModel (rows m1) (integerCuts m1) true (getNumRows m1 - 1) true
      (numberOfIntegerCuts m1) (isMinimizationProblem m1)
      (objectiveLinearExpression m1) (modelErrors m1) (modelDebug m1)
  else
    let m1 :=
      if isMinimizationProblem m
      then outputDebug "        Setting cutoff constraint for minimization."%string
             (setRowUpper (cutOffConstraintIndex m) cutOff m)
      else outputDebug "        Setting cutoff constraint value for maximization."%string
             (setRowUpper (cutOffConstraintIndex m) (- cutOff)%float m) in
    mkModel (rows m1) (integerCuts m1) (cutOffConstraintDefined m1)
      (cutOffConstraintIndex m1) true (numberOfIntegerCuts m1)
      (isMinimizationProblem m1) (objectiveLinearExpression m1) (modelErrors m1)
      (modelDebug m1).

(** The three row operations as data, and a sequence of them on a model.
    The run also collects the row indexes that [addLinearConstraint] returned
    for the constraints it did add. *)
Inductive RowOp :=
| AddLinearConstraint (throws : bool) (elements : list (Z * double))
    (constant : double) (name : string) (isGreaterThan : bool)
| CreateIntegerCut (throws : bool) (ones zeroes : list Z)
| SetCutOffAsConstraint (throws : bool) (cutOff : double).

Definition applyOp (st : Model * list Z) (op : RowOp) : Model * list Z :=
  match op with
  | AddLinearConstraint throws elements constant name isGreaterThan =>
    let '(m', index) :=
      addLinearConstraint throws elements constant name isGreaterThan (fst st) in
    (m', if throws then snd st else snd st ++ [index])
  | CreateIntegerCut throws ones zeroes =>
    (fst (createIntegerCut throws ones zeroes (fst st)), snd st)
  | SetCutOffAsConstraint throws cutOff =>
    (setCutOffAsConstraint throws cutOff (fst st), snd st)
  end.

Definition applyOps (ops : list RowOp) (m : Model) : Model * list Z :=
  fold_left applyOp ops (m, []).

(** The model right after [finalizeProblem]: the rows loaded from the
    [CoinModel], no integer cut and no cutoff row yet; [cutOffIndex] is
    whatever the member holds before it is first assigned and [cutsBefore]
    the statistics counter at that time. *)
Definition loadedModel (original : list Row) (isMin : bool)
  (objective : list (Z * double)) (cutOffIndex cutsBefore : Z) : Model :=
  mkModel original [] false cutOffIndex false cutsBefore isMin objective [] [].

End Rows.

(** *** Rows, integer cuts and the cutoff row across any sequence of calls *)

(** Row [index] exists and bears [name]. *)
Definition namedAt (l : list Row) (index : Z) (name : string) : Prop :=
  (0 <= index)%Z /\ option_map rowName (nth_error l (Z.to_nat index)) = Some name.

Lemma namedAt_lt l index name :
  namedAt l index name -> (index < Z.of_nat (length l))%Z.
Proof.
  intros [H0 H]. destruct (nth_error l (Z.to_nat index)) eqn:E; [|discriminate].
  assert (Z.to_nat index < length l)%nat by (apply nth_error_Some; congruence). lia.
Qed.

Lemma namedAt_app l r index name :
  namedAt l index name -> namedAt (l ++ [r]) index name.
Proof.
  intros H. pose proof (namedAt_lt _ _ _ H) as Hlt. destruct H as [H0 H].
  split; [exact H0|]. rewrite nth_error_app1 by lia. exact H.
Qed.

Lemma namedAt_last l r :
  namedAt (l ++ [r]) (Z.of_nat (length l)) (rowName r).
Proof.
  split; [lia|]. rewrite Nat2Z.id, nth_error_app2, Nat.sub_diag by lia. reflexivity.
Qed.

Lemma nth_error_setRowUpperAt l : forall i v j,
  nth_error (setRowUpperAt i v l) j
  = if Nat.eqb i j
    then option_map (fun r => mkRow (coefficients r) (rowLower r) v (rowName r))
                    (nth_error l j)
    else nth_error l j.
Proof.
  induction l as [|r rest IH]; intros i v j.
  - destruct i, j; simpl; try reflexivity. destruct (Nat.eqb i j); reflexivity.
  - destruct i, j; simpl; try reflexivity. apply IH.
Qed.

Lemma length_setRowUpperAt l : forall i v, length (setRowUpperAt i v l) = length l.
Proof.
  induction l as [|r rest IH]; intros i v; [destruct i; reflexivity|].
  destruct i; simpl; [reflexivity|]. rewrite IH. reflexivity.
Qed.

Lemma namedAt_setRowUpperAt l i v index name :
  namedAt l index name -> namedAt (setRowUpperAt i v l) index name.
Proof.
  intros [H0 H]. split; [exact H0|]. rewrite nth_error_setRowUpperAt.
  destruct (Nat.eqb i (Z.to_nat index)); [|exact H].
  destruct (nth_error l (Z.to_nat index)); [exact H|discriminate].
Qed.

Lemma firstn_setRowUpperAt l : forall i v n,
  (n <= i)%nat -> firstn n (setRowUpperAt i v l) = firstn n l.
Proof.
  induction l as [|r rest IH]; intros i v n Hn; [destruct i; reflexivity|].
  destruct i, n; simpl; try reflexivity; try lia. rewrite IH by lia. reflexivity.
Qed.

Lemma nth_error_snoc_cases {A} (l : list A) (a : A) (n : nat) (x : A) :
  nth_error (l ++ [a]) n = Some x ->
  nth_error l n = Some x \/ n = length l /\ x = a.
Proof.
  intros H. destruct (Nat.lt_ge_cases n (length l)) as [Hlt|Hge].
  - left. rewrite nth_error_app1 in H by exact Hlt. exact H.
  - right. rewrite nth_error_app2 in H by exact Hge.
    destruct (n - length l)%nat as [|k] eqn:E; simpl in H.
    + split; [lia|congruence].
    + destruct k; discriminate.
Qed.

Lemma StronglySorted_snoc (l : list Z) (x : Z) :
  StronglySorted Z.lt l -> Forall (fun y => (y < x)%Z) l ->
  StronglySorted Z.lt (l ++ [x]).
Proof.
  induction l as [|a rest IH]; intros Hs Hl; simpl.
  - constructor; constructor.
  - inversion Hs; subst. inversion Hl; subst. constructor; [apply IH; assumption|].
    apply Forall_app. split; [assumption|constructor; [assumption|constructor]].
Qed.

(** What holds of a model and of the indexes returned so far, [n0] being the
    number of rows the model was loaded with. *)
Record Consistent (original : list Row) (cutsBefore : Z) (m : Model) (ids : list Z)
  : Prop := {
  originalsKept : firstn (length original) (rows m) = original;
  rowCount :
    length (rows m)
    = (length original + length ids + length (integerCuts m)
       + (if cutOffConstraintDefined m then 1 else 0))%nat;
  cutsInRange :
    Forall (fun i => (Z.of_nat (length original) <= i < getNumRows m)%Z) (integerCuts m);
  idsInRange :
    Forall (fun i => (Z.of_nat (length original) <= i < getNumRows m)%Z) ids;
  cutsNamed :
    forall k i, nth_error (integerCuts m) k = Some i ->
                namedAt (rows m) i (integerCutName k);
  cutsSorted : StronglySorted Z.lt (integerCuts m);
  idsSorted : StronglySorted Z.lt ids;
  idsNotCuts : forall i, In i ids -> ~ In i (integerCuts m);
  cutsCounted :
    numberOfIntegerCuts m = (cutsBefore + Z.of_nat (length (integerCuts m)))%Z;
  cutOffRow :
    cutOffConstraintDefined m = true ->
    (Z.of_nat (length original) <= cutOffConstraintIndex m)%Z /\
    namedAt (rows m) (cutOffConstraintIndex m) "CUTOFF_C"%string /\
    ~ In (cutOffConstraintIndex m) (integerCuts m) /\
    ~ In (cutOffConstraintIndex m) ids }.

Lemma Forall_range_grow (n0 : Z) (l : list Z) (a b : Z) :
  (a <= b)%Z ->
  Forall (fun i => (n0 <= i < a)%Z) l -> Forall (fun i => (n0 <= i < b)%Z) l.
Proof. intros Hab. apply Forall_impl. intros i Hi. lia. Qed.

Lemma range_not_In (n0 : Z) (l : list Z) (a : Z) :
  Forall (fun i => (n0 <= i < a)%Z) l -> ~ In a l.
Proof.
  intros H Hin. apply (proj1 (Forall_forall _ _) H) in Hin. lia.
Qed.

Lemma range_lt (n0 : Z) (l : list Z) (a : Z) :
  Forall (fun i => (n0 <= i < a)%Z) l -> Forall (fun y => (y < a)%Z) l.
Proof. apply Forall_impl. intros i Hi. lia. Qed.

Lemma loadedModel_Consistent original isMin objective cutOffIndex cutsBefore :
  Consistent original cutsBefore
    (loadedModel original isMin objective cutOffIndex cutsBefore) [].
Proof.
  constructor; simpl.
  - apply firstn_all.
  - lia.
  - constructor.
  - constructor.
  - intros k i H. destruct k; discriminate.
  - constructor.
  - constructor.
  - intros i [].
  - lia.
  - discriminate.
Qed.

Lemma addRow_Consistent_id original c0 m ids r :
  Consistent original c0 m ids ->
  Consistent original c0 (addRow r m) (ids ++ [getNumRows m]).
Proof.
  intros C. destruct C. unfold getNumRows in *.
  assert (Hlen : (length original <= length (rows m))%nat) by lia.
  constructor; simpl; unfold getNumRows; simpl; rewrite ?length_app; simpl.
  - rewrite firstn_app. replace (length original - length (rows m))%nat with 0%nat by lia.
    simpl. rewrite app_nil_r. assumption.
  - lia.
  - eapply Forall_range_grow; [|eassumption]. lia.
  - apply Forall_app. split; [eapply Forall_range_grow; [|eassumption]; lia|].
    constructor; [lia|constructor].
  - intros k i H. apply namedAt_app. auto.
  - assumption.
  - apply StronglySorted_snoc; [assumption|]. eapply range_lt; eassumption.
  - intros i Hin Hc. apply in_app_or in Hin. destruct Hin as [Hin|[Hin|[]]].
    + exact (idsNotCuts0 i Hin Hc).
    + subst i. exact (range_not_In _ _ _ cutsInRange0 Hc).
  - assumption.
  - intros Hd. destruct (cutOffRow0 Hd) as (H1 & H2 & H3 & H4).
    split; [exact H1|]. split; [apply namedAt_app; exact H2|]. split; [exact H3|].
    intros Hin. apply in_app_or in Hin. destruct Hin as [Hin|[Hin|[]]]; [tauto|].
    apply namedAt_lt in H2. lia.
Qed.

Lemma modelError_Consistent original c0 m ids msg :
  Consistent original c0 m ids -> Consistent original c0 (modelError msg m) ids.
Proof. intros C. destruct C. constructor; assumption. Qed.

Lemma createIntegerCut_Consistent getInfinity original c0 m ids throws ones zeroes :
  Consistent original c0 m ids ->
  Consistent original c0 (fst (createIntegerCut getInfinity throws ones zeroes m)) ids.
Proof.
  intros C. unfold createIntegerCut.
  destruct throws; [apply modelError_Consistent; exact C|].
  destruct C. unfold getNumRows in *. simpl.
  assert (Hlen : (length original <= length (rows m))%nat) by lia.
  constructor; simpl; unfold getNumRows; simpl; rewrite ?length_app; simpl.
  - rewrite firstn_app. replace (length original - length (rows m))%nat with 0%nat by lia.
    simpl. rewrite app_nil_r. assumption.
  - lia.
  - apply Forall_app. split; [eapply Forall_range_grow; [|eassumption]; lia|].
    constructor; [lia|constructor].
  - eapply Forall_range_grow; [|eassumption]. lia.
  - intros k i H. apply nth_error_snoc_cases in H. destruct H as [H|[Hk Hi]].
    + apply namedAt_app. auto.
    + subst k i.
      replace (Z.of_nat (length (rows m) + 1) - 1)%Z with (Z.of_nat (length (rows m)))
        by lia.
      apply (namedAt_last (rows m)
               (mkRow _ _ _ (integerCutName (length (integerCuts m))))).
  - apply StronglySorted_snoc; [assumption|].
    eapply Forall_impl; [|exact cutsInRange0]. intros i Hi. simpl in Hi. lia.
  - assumption.
  - intros i Hin Hc. apply in_app_or in Hc. destruct Hc as [Hc|[Hc|[]]].
    + exact (idsNotCuts0 i Hin Hc).
    + apply (proj1 (Forall_forall _ _) idsInRange0) in Hin. lia.
  - lia.
  - intros Hd. destruct (cutOffRow0 Hd) as (H1 & H2 & H3 & H4).
    split; [exact H1|]. split; [apply namedAt_app; exact H2|]. split; [|exact H4].
    intros Hin. apply in_app_or in Hin. destruct Hin as [Hin|[Hin|[]]]; [tauto|].
    apply namedAt_lt in H2. lia.
Qed.

Lemma setCutOffAsConstraint_Consistent getInfinity dmax dmin original c0 m ids throws
  cutOff :
  Consistent original c0 m ids ->
  Consistent original c0 (setCutOffAsConstraint getInfinity dmax dmin throws cutOff m) ids.
Proof.
  intros C. unfold setCutOffAsConstraint.
  destruct (_ || _); [exact C|].
  destruct throws; [apply modelError_Consistent; exact C|].
  destruct (cutOffConstraintDefined m) eqn:Hd; simpl.
  - destruct C. destruct (cutOffRow0 Hd) as (H1 & H2 & H3 & H4).
    assert (Hrows : forall v,
              rows (setRowUpper (cutOffConstraintIndex m) v m)
              = setRowUpperAt (Z.to_nat (cutOffConstraintIndex m)) v (rows m)).
    { intros v. unfold setRowUpper. destruct (cutOffConstraintIndex m <? 0)%Z eqn:E;
        [apply Z.ltb_lt in E; lia|reflexivity]. }
    assert (Hother : forall v,
              integerCuts (setRowUpper (cutOffConstraintIndex m) v m) = integerCuts m /\
              cutOffConstraintDefined (setRowUpper (cutOffConstraintIndex m) v m) = true /\
              cutOffConstraintIndex (setRowUpper (cutOffConstraintIndex m) v m)
              = cutOffConstraintIndex m /\
              numberOfIntegerCuts (setRowUpper (cutOffConstraintIndex m) v m)
              = numberOfIntegerCuts m).
    { intros v. unfold setRowUpper. destruct (cutOffConstraintIndex m <? 0)%Z;
        simpl; rewrite ?Hd; auto. }
    destruct (isMinimizationProblem m); simpl;
      match goal with
      | |- context [setRowUpper _ ?v m] =>
        destruct (Hother v) as (O1 & O2 & O3 & O4); specialize (Hrows v)
      end;
      (constructor; simpl; unfold getNumRows; simpl;
       rewrite ?Hrows, ?O1, ?O2, ?O3, ?O4, ?length_setRowUpperAt;
       [ rewrite firstn_setRowUpperAt by lia; assumption
       | rewrite Hd in rowCount0; exact rowCount0
       | assumption | assumption
       | intros k i H; apply namedAt_setRowUpperAt; auto
       | assumption | assumption | assumption | assumption
       | intros _; split; [exact H1|]; split;
         [apply namedAt_setRowUpperAt; exact H2|]; split; assumption ]).
  - destruct C. unfold getNumRows in *. rewrite Hd in rowCount0.
    assert (Hlen : (length original <= length (rows m))%nat) by lia.
    destruct (isMinimizationProblem m); simpl;
      (constructor; simpl; unfold getNumRows; simpl; rewrite ?length_app; simpl;
       [ rewrite firstn_app;
         replace (length original - length (rows m))%nat with 0%nat by lia;
         simpl; rewrite app_nil_r; assumption
       | lia
       | eapply Forall_range_grow; [|eassumption]; lia
       | eapply Forall_range_grow; [|eassumption]; lia
       | intros k i H; apply namedAt_app; auto
       | assumption | assumption | assumption | assumption
       | intros _; split; [lia|]; split;
         [ replace (Z.of_nat (length (rows m) + 1) - 1)%Z
             with (Z.of_nat (length (rows m))) by lia;
           apply (namedAt_last (rows m) (mkRow _ _ _ "CUTOFF_C"%string))
         | split;
           [ replace (Z.of_nat (length (rows m) + 1) - 1)%Z
               with (Z.of_nat (length (rows m))) by lia;
             eapply range_not_In; eassumption
           | replace (Z.of_nat (length (rows m) + 1) - 1)%Z
               with (Z.of_nat (length (rows m))) by lia;
             eapply range_not_In; eassumption ] ] ]).
Qed.

Lemma applyOp_Consistent getInfinity dmax dmin original c0 st op :
  Consistent original c0 (fst st) (snd st) ->
  Consistent original c0 (fst (applyOp getInfinity dmax dmin st op))
                         (snd (applyOp getInfinity dmax dmin st op)).
Proof.
  intros C. destruct st as [m ids]. simpl in C. destruct op; simpl.
  - unfold addLinearConstraint. destruct throws; simpl.
    + apply modelError_Consistent. exact C.
    + destruct isGreaterThan; simpl;
        match goal with
        | |- context [addRow ?r m] =>
          replace (getNumRows (addRow r m) - 1)%Z with (getNumRows m)
            by (unfold getNumRows, addRow; simpl; rewrite length_app; simpl; lia);
          apply addRow_Consistent_id; exact C
        end.
  - apply createIntegerCut_Consistent. exact C.
  - apply setCutOffAsConstraint_Consistent. exact C.
Qed.

Lemma fold_applyOp_Consistent getInfinity dmax dmin original c0 ops : forall st,
  Consistent original c0 (fst st) (snd st) ->
  Consistent original c0 (fst (fold_left (applyOp getInfinity dmax dmin) ops st))
                         (snd (fold_left (applyOp getInfinity dmax dmin) ops st)).
Proof.
  induction ops as [|op rest IH]; intros st C; simpl; [exact C|].
  apply IH. apply applyOp_Consistent. exact C.
Qed.

Lemma applyOps_Consistent getInfinity dmax dmin original isMin objective cutOffIndex c0 ops :
  Consistent original c0
    (fst (applyOps getInfinity dmax dmin ops
            (loadedModel original isMin objective cutOffIndex c0)))
    (snd (applyOps getInfinity dmax dmin ops
            (loadedModel original isMin objective cutOffIndex c0))).
Proof.
  unfold applyOps. apply fold_applyOp_Consistent. simpl.
  apply loadedModel_Consistent.
Qed.

(** Whatever the rows loaded from the problem and whatever row operations
    follow, in any order and with any of them failing: the indexes that
    [addLinearConstraint] returned for the constraints it added are strictly
    increasing, each is a row of the interface past the loaded rows, and none
    of them is the row of an integer cut or the cutoff row. *)
Theorem addLinearConstraint_indexes_are_fresh_rows
  (getInfinity dmax dmin : double) (ops : list RowOp) (original : list Row)
  (isMin : bool) (objective : list (Z * double)) (cutOffIndex cutsBefore : Z) :
  let st := applyOps getInfinity dmax dmin ops
              (loadedModel original isMin objective cutOffIndex cutsBefore) in
  StronglySorted Z.lt (snd st) /\
  Forall (fun i => (Z.of_nat (length original) <= i < getNumRows (fst st))%Z) (snd st) /\
  (forall i, In i (snd st) ->
     ~ In i (integerCuts (fst st)) /\
     (cutOffConstraintDefined (fst st) = true -> i <> cutOffConstraintIndex (fst st))).
Proof.
  intros st.
  destruct (applyOps_Consistent getInfinity dmax dmin original isMin objective
              cutOffIndex cutsBefore ops).
  fold st in originalsKept0, rowCount0, cutsInRange0, idsInRange0, cutsNamed0,
    cutsSorted0, idsSorted0, idsNotCuts0, cutsCounted0, cutOffRow0.
  split; [assumption|]. split; [assumption|].
  intros i Hin. split; [auto|].
  intros Hd Heq. destruct (cutOffRow0 Hd) as (_ & _ & _ & H). subst i. tauto.
Qed.

(** A call of [addLinearConstraint] that runs into an exception adds no row
    and still returns [getNumRows() - 1]: the index of the newest row there
    is, which is the very index a preceding successful call returned, and -1
    on an interface without rows. *)
Theorem addLinearConstraint_failure_returns_last_row
  (getInfinity : double) (m : Model)
  (e1 e2 : list (Z * double)) (c1 c2 : double) (n1 n2 : string) (g1 g2 : bool) :
  let added := addLinearConstraint getInfinity false e1 c1 n1 g1 m in
  let failed := addLinearConstraint getInfinity true e2 c2 n2 g2 (fst added) in
  rows (fst failed) = rows (fst added) /\
  snd failed = snd added /\
  snd added = getNumRows m /\
  option_map rowName (nth_error (rows (fst failed)) (Z.to_nat (snd failed))) = Some n1 /\
  (rows m = [] -> snd (addLinearConstraint getInfinity true e2 c2 n2 g2 m) = (-1)%Z).
Proof.
  simpl. unfold addLinearConstraint, getNumRows. simpl.
  assert (H : forall r, (Z.of_nat (length (rows (addRow r m))) - 1)%Z
                        = Z.of_nat (length (rows m))).
  { intros r. simpl. rewrite length_app. simpl. lia. }
  destruct g1; simpl; rewrite ?length_app; simpl;
    (split; [reflexivity|]; split; [reflexivity|]; split; [lia|]; split;
     [ replace (Z.to_nat (Z.of_nat (length (rows m) + 1) - 1)) with (length (rows m))
         by lia;
       rewrite nth_error_app2, Nat.sub_diag by lia; reflexivity
     | intros E; rewrite E; reflexivity ]).
Qed.

(** *** Rows stay as they were added *)

Definition notCutOffRow (m : Model) (j : nat) : Prop :=
  cutOffConstraintDefined m = true -> cutOffConstraintIndex m <> Z.of_nat j.

Lemma applyOp_row_stable getInfinity dmax dmin original c0 st op j r :
  Consistent original c0 (fst st) (snd st) ->
  nth_error (rows (fst st)) j = Some r -> notCutOffRow (fst st) j ->
  nth_error (rows (fst (applyOp getInfinity dmax dmin st op))) j = Some r /\
  notCutOffRow (fst (applyOp getInfinity dmax dmin st op)) j.
Proof.
  intros C Hj Hn. destruct st as [m ids]. simpl in *.
  assert (Hlt : (j < length (rows m))%nat) by (apply nth_error_Some; congruence).
  destruct op; simpl.
  - unfold addLinearConstraint. destruct throws; simpl; [auto|].
    destruct isGreaterThan; simpl; rewrite nth_error_app1 by exact Hlt; auto.
  - unfold createIntegerCut. destruct throws; simpl; [auto|].
    rewrite nth_error_app1 by exact Hlt. auto.
  - unfold setCutOffAsConstraint. destruct (_ || _); [auto|].
    destruct throws; [auto|].
    destruct (cutOffConstraintDefined m) eqn:Hd; simpl.
    + pose proof (Hn Hd) as Hne. destruct C.
      destruct (cutOffRow0 Hd) as (_ & [H0 _] & _ & _).
      unfold setRowUpper.
      destruct (cutOffConstraintIndex m <? 0)%Z eqn:E; [apply Z.ltb_lt in E; lia|].
      destruct (isMinimizationProblem m); simpl; rewrite nth_error_setRowUpperAt;
        (destruct (Nat.eqb (Z.to_nat (cutOffConstraintIndex m)) j) eqn:Ej;
         [apply Nat.eqb_eq in Ej; lia|]);
        (split; [exact Hj|]); unfold notCutOffRow; simpl; intros _; exact Hne.
    + destruct (isMinimizationProblem m); simpl; rewrite nth_error_app1 by exact Hlt;
        (split; [exact Hj|]); unfold notCutOffRow, getNumRows; simpl;
        rewrite length_app; simpl; intros _; lia.
Qed.

Lemma fold_applyOp_row_stable getInfinity dmax dmin original c0 ops j r : forall st,
  Consistent original c0 (fst st) (snd st) ->
  nth_error (rows (fst st)) j = Some r -> notCutOffRow (fst st) j ->
  nth_error (rows (fst (fold_left (applyOp getInfinity dmax dmin) ops st))) j = Some r.
Proof.
  induction ops as [|op rest IH]; intros st C Hj Hn; simpl; [exact Hj|].
  destruct (applyOp_row_stable getInfinity dmax dmin original c0 st op j r C Hj Hn)
    as [Hj' Hn'].
  apply IH; [apply applyOp_Consistent; exact C|exact Hj'|exact Hn'].
Qed.

(** Once a row is in the interface (a loaded row, an added constraint or an
    integer cut) and is not the cutoff row, no later sequence of
    [addLinearConstraint], [createIntegerCut] and [setCutOffAsConstraint]
    calls changes it: its coefficients, both bounds and its name stay under
    the same index. *)
Theorem rows_other_than_cutoff_are_never_rewritten
  (getInfinity dmax dmin : double) (before after : list RowOp) (original : list Row)
  (isMin : bool) (objective : list (Z * double)) (cutOffIndex cutsBefore : Z)
  (j : nat) (r : Row) :
  let loaded := loadedModel original isMin objective cutOffIndex cutsBefore in
  let m1 := fst (applyOps getInfinity dmax dmin before loaded) in
  let m2 := fst (applyOps getInfinity dmax dmin (before ++ after) loaded) in
  nth_error (rows m1) j = Some r ->
  (cutOffConstraintDefined m1 = true -> cutOffConstraintIndex m1 <> Z.of_nat j) ->
  nth_error (rows m2) j = Some r.
Proof.
  intros loaded m1 m2 Hj Hn. unfold m2, applyOps. rewrite fold_left_app.
  eapply fold_applyOp_row_stable.
  - apply (applyOps_Consistent getInfinity dmax dmin original isMin objective
             cutOffIndex cutsBefore before).
  - exact Hj.
  - exact Hn.
Qed.

Definition demoRow (name : string) : Row :=
  mkRow [(0%Z, 1.0%float)] (-1.0)%float 4.0%float name.

Definition demoOps : list RowOp :=
  [ AddLinearConstraint false [(0%Z, 2.0%float)] 1.0%float "H_0"%string false;
    SetCutOffAsConstraint false 10.0%float;
    CreateIntegerCut false [0%Z] [1%Z] ].

Definition demoLater : list RowOp :=
  [ SetCutOffAsConstraint false 7.0%float;
    AddLinearConstraint true [] 0.0%float "H_1"%string true;
    CreateIntegerCut false [1%Z] [0%Z];
    AddLinearConstraint false [(1%Z, 3.0%float)] 2.0%float "H_2"%string true ].

Lemma rows_other_than_cutoff_are_never_rewritten_witness :
  nth_error
    (rows (fst (applyOps 1e30%float 1e300%float (-1e300)%float (demoOps ++ demoLater)
                  (loadedModel [demoRow "c0"] true [(0%Z, 1.0%float)] 0 0)))) 1
  = Some (mkRow [(0%Z, 2.0%float)] (- 1e30)%float (- 1.0)%float "H_0"%string).
Proof.
  apply (rows_other_than_cutoff_are_never_rewritten
           1e30%float 1e300%float (-1e300)%float demoOps demoLater
           [demoRow "c0"] true [(0%Z, 1.0%float)] 0%Z 0%Z 1).
  - vm_compute. reflexivity.
  - vm_compute. intros _ H. discriminate H.
Defined.

(** *** The integer-cut ledger *)

(** After any sequence of row operations, [integerCuts] lists strictly
    increasing row indexes past the loaded rows; its k-th entry is the row
    named IC_k; and the statistics counter grew by one per entry. *)
Theorem integerCuts_index_the_rows_named_IC
  (getInfinity dmax dmin : double) (ops : list RowOp) (original : list Row)
  (isMin : bool) (objective : list (Z * double)) (cutOffIndex cutsBefore : Z) :
  let m := fst (applyOps getInfinity dmax dmin ops
                  (loadedModel original isMin objective cutOffIndex cutsBefore)) in
  StronglySorted Z.lt (integerCuts m) /\
  (forall k i, nth_error (integerCuts m) k = Some i ->
     (Z.of_nat (length original) <= i < getNumRows m)%Z /\
     option_map rowName (nth_error (rows m) (Z.to_nat i)) = Some (integerCutName k)) /\
  numberOfIntegerCuts m = (cutsBefore + Z.of_nat (length (integerCuts m)))%Z.
Proof.
  intros m.
  destruct (applyOps_Consistent getInfinity dmax dmin original isMin objective
              cutOffIndex cutsBefore ops).
  fold m in originalsKept0, rowCount0, cutsInRange0, idsInRange0, cutsNamed0,
    cutsSorted0, idsSorted0, idsNotCuts0, cutsCounted0, cutOffRow0.
  split; [assumption|]. split; [|assumption].
  intros k i H. split.
  - apply nth_error_In in H. exact (proj1 (Forall_forall _ _) cutsInRange0 i H).
  - exact (proj2 (cutsNamed0 k i H)).
Qed.

(** *** The cutoff row *)

(** A [setCutOffAsConstraint] call that gets past the sentinel test and does
    not throw. *)
Definition setsCutOff (dmax dmin : double) (op : RowOp) : bool :=
  match op with
  | SetCutOffAsConstraint throws cutOff =>
    negb ((cutOff =? dmax) || (cutOff =? dmin))%float && negb throws
  | _ => false
  end.

Definition addsConstraint (op : RowOp) : bool :=
  match op with
  | AddLinearConstraint throws _ _ _ _ => negb throws
  | _ => false
  end.

Definition addsIntegerCut (op : RowOp) : bool :=
  match op with
  | CreateIntegerCut throws _ _ => negb throws
  | _ => false
  end.

Lemma applyOp_defined getInfinity dmax dmin st op :
  cutOffConstraintDefined (fst (applyOp getInfinity dmax dmin st op))
  = cutOffConstraintDefined (fst st) || setsCutOff dmax dmin op.
Proof.
  destruct st as [m ids]. destruct op; simpl.
  - unfold addLinearConstraint. destruct throws; simpl; [|destruct isGreaterThan; simpl];
      rewrite orb_false_r; reflexivity.
  - unfold createIntegerCut. destruct throws; simpl; rewrite orb_false_r; reflexivity.
  - unfold setCutOffAsConstraint. destruct (_ || _); simpl; [rewrite orb_false_r; reflexivity|].
    destruct throws; simpl; [rewrite orb_false_r; reflexivity|].
    destruct (cutOffConstraintDefined m) eqn:Hd; simpl.
    + unfold setRowUpper. destruct (_ <? _)%Z; destruct (isMinimizationProblem m); simpl;
        rewrite ?Hd; reflexivity.
    + destruct (isMinimizationProblem m); reflexivity.
Qed.

Lemma fold_applyOp_defined getInfinity dmax dmin ops : forall st,
  cutOffConstraintDefined (fst (fold_left (applyOp getInfinity dmax dmin) ops st))
  = cutOffConstraintDefined (fst st) || existsb (setsCutOff dmax dmin) ops.
Proof.
  induction ops as [|op rest IH]; intros st; simpl; [rewrite orb_false_r; reflexivity|].
  rewrite IH, applyOp_defined, orb_assoc. reflexivity.
Qed.

(** However often the cutoff is set, the interface holds one cutoff row at
    most: it exists exactly when some [setCutOffAsConstraint] call got past
    the sentinel test without throwing, [cutOffConstraintIndex] then is a row
    past the loaded ones that is named CUTOFF_C and is no integer cut, and
    the interface holds the loaded rows, one row per added constraint, one
    per integer cut and that one row. *)
Theorem setCutOffAsConstraint_keeps_one_cutoff_row
  (getInfinity dmax dmin : double) (ops : list RowOp) (original : list Row)
  (isMin : bool) (objective : list (Z * double)) (cutOffIndex cutsBefore : Z) :
  let st := applyOps getInfinity dmax dmin ops
              (loadedModel original isMin objective cutOffIndex cutsBefore) in
  let m := fst st in
  cutOffConstraintDefined m = existsb (setsCutOff dmax dmin) ops /\
  firstn (length original) (rows m) = original /\
  length (rows m)
  = (length original + length (snd st) + length (integerCuts m)
     + (if cutOffConstraintDefined m then 1 else 0))%nat /\
  (cutOffConstraintDefined m = true ->
   (Z.of_nat (length original) <= cutOffConstraintIndex m < getNumRows m)%Z /\
   option_map rowName (nth_error (rows m) (Z.to_nat (cutOffConstraintIndex m)))
   = Some "CUTOFF_C"%string /\
   ~ In (cutOffConstraintIndex m) (integerCuts m)).
Proof.
  intros st m.
  destruct (applyOps_Consistent getInfinity dmax dmin original isMin objective
              cutOffIndex cutsBefore ops).
  fold st in originalsKept0, rowCount0, cutsInRange0, idsInRange0, cutsNamed0,
    cutsSorted0, idsSorted0, idsNotCuts0, cutsCounted0, cutOffRow0.
  fold m in originalsKept0, rowCount0, cutsInRange0, idsInRange0, cutsNamed0,
    cutsSorted0, idsSorted0, idsNotCuts0, cutsCounted0, cutOffRow0.
  split.
  { unfold m, st, applyOps. rewrite fold_applyOp_defined. reflexivity. }
  split; [assumption|]. split; [assumption|].
  intros Hd. destruct (cutOffRow0 Hd) as (H1 & H2 & H3 & _).
  pose proof (namedAt_lt _ _ _ H2) as Hlt.
  split; [unfold getNumRows; lia|]. split; [exact (proj2 H2)|exact H3].
Qed.

(** The cutoff row is the objective row bounded above. *)
Definition cutOffShape (getInfinity : double) (isMin : bool)
  (objective : list (Z * double)) (m : Model) : Prop :=
  objectiveLinearExpression m = objective /\
  isMinimizationProblem m = isMin /\
  (cutOffConstraintDefined m = true ->
   exists u, nth_error (rows m) (Z.to_nat (cutOffConstraintIndex m))
             = Some (mkRow objective (- getInfinity)%float u "CUTOFF_C"%string)).

Lemma setCutOffAsConstraint_row getInfinity dmax dmin original c0 isMin objective m ids c :
  Consistent original c0 m ids -> cutOffShape getInfinity isMin objective m ->
  ((c =? dmax) || (c =? dmin))%float = false ->
  let m' := setCutOffAsConstraint getInfinity dmax dmin false c m in
  let bound := if isMin then c
               else if cutOffConstraintDefined m then (- c)%float
                    else (-1.0 * c)%float in
  cutOffConstraintDefined m' = true /\
  objectiveLinearExpression m' = objective /\
  isMinimizationProblem m' = isMin /\
  nth_error (rows m') (Z.to_nat (cutOffConstraintIndex m'))
  = Some (mkRow objective (- getInfinity)%float bound "CUTOFF_C"%string) /\
  length (rows m')
  = (length (rows m) + (if cutOffConstraintDefined m then 0 else 1))%nat /\
  (forall j r, nth_error (rows m) j = Some r ->
               Z.of_nat j <> cutOffConstraintIndex m' ->
               nth_error (rows m') j = Some r).
Proof.
  intros C (Ho & Hm & Hrow) Hs. simpl. unfold setCutOffAsConstraint. rewrite Hs.
  destruct (cutOffConstraintDefined m) eqn:Hd; simpl.
  - destruct C. destruct (cutOffRow0 Hd) as (_ & [H0 _] & _ & _).
    destruct (Hrow eq_refl) as [u Hu].
    unfold setRowUpper.
    destruct (cutOffConstraintIndex m <? 0)%Z eqn:E; [apply Z.ltb_lt in E; lia|].
    rewrite Hm. destruct isMin; simpl; rewrite Hd, nth_error_setRowUpperAt,
      Nat.eqb_refl, Hu, length_setRowUpperAt; simpl;
      (repeat (split; [first [reflexivity|assumption|lia]|]));
      intros j r Hj Hne; rewrite nth_error_setRowUpperAt;
      (destruct (Nat.eqb (Z.to_nat (cutOffConstraintIndex m)) j) eqn:Ej;
       [apply Nat.eqb_eq in Ej; lia|exact Hj]).
  - rewrite Hm. destruct isMin; simpl; unfold getNumRows; simpl;
      rewrite length_app; simpl;
      replace (Z.to_nat (Z.of_nat (length (rows m) + 1) - 1)) with (length (rows m))
        by lia;
      rewrite nth_error_app2, Nat.sub_diag, Ho by lia; simpl;
      (repeat (split; [first [reflexivity|assumption|lia]|]));
      intros j r Hj Hne; rewrite nth_error_app1; [exact Hj| |exact Hj|];
      apply nth_error_Some; congruence.
Qed.

Lemma applyOp_cutOffShape getInfinity dmax dmin original c0 isMin objective st op :
  Consistent original c0 (fst st) (snd st) ->
  cutOffShape getInfinity isMin objective (fst st) ->
  cutOffShape getInfinity isMin objective (fst (applyOp getInfinity dmax dmin st op)).
Proof.
  intros C S. destruct st as [m ids]. simpl in *.
  assert (Hidx : cutOffConstraintDefined m = true ->
                 (Z.to_nat (cutOffConstraintIndex m) < length (rows m))%nat).
  { intros Hd. destruct C. destruct (cutOffRow0 Hd) as (_ & H2 & _).
    pose proof (namedAt_lt _ _ _ H2). destruct H2. lia. }
  destruct op; simpl.
  - destruct S as (Ho & Hm & Hrow).
    unfold addLinearConstraint, cutOffShape.
    destruct throws; simpl; [repeat split; assumption|].
    destruct isGreaterThan; simpl; (split; [exact Ho|]; split; [exact Hm|]);
      intros Hd; rewrite nth_error_app1 by auto; auto.
  - destruct S as (Ho & Hm & Hrow).
    unfold createIntegerCut, cutOffShape.
    destruct throws; simpl; [repeat split; assumption|].
    split; [exact Ho|]; split; [exact Hm|].
    intros Hd; rewrite nth_error_app1 by auto; auto.
  - destruct (((cutOff =? dmax) || (cutOff =? dmin))%float) eqn:Hs.
    + unfold setCutOffAsConstraint. rewrite Hs. exact S.
    + destruct throws.
      * unfold setCutOffAsConstraint. rewrite Hs. exact S.
      * destruct (setCutOffAsConstraint_row getInfinity dmax dmin original c0 isMin
                    objective m ids cutOff C S Hs) as (_ & Ho & Hm & Hrow & _).
        split; [exact Ho|]. split; [exact Hm|]. intros _. eexists. exact Hrow.
Qed.

Lemma fold_applyOp_cutOffShape getInfinity dmax dmin original c0 isMin objective ops :
  forall st,
  Consistent original c0 (fst st) (snd st) ->
  cutOffShape getInfinity isMin objective (fst st) ->
  cutOffShape getInfinity isMin objective
    (fst (fold_left (applyOp getInfinity dmax dmin) ops st)).
Proof.
  induction ops as [|op rest IH]; intros st C S; simpl; [exact S|].
  apply IH; [apply applyOp_Consistent; exact C|].
  eapply applyOp_cutOffShape; eassumption.
Qed.

(** Setting the cutoff to a value that is neither sentinel, at any point of
    any run, leaves the interface with the cutoff row being the objective row
    bounded above by the cutoff (negated when maximizing, as [-1.0 * cutOff]
    when the row is created and as [-cutOff] when it is reset); the number of
    rows grows by one only if there was no cutoff row, and every other row is
    as before. *)
Theorem setCutOffAsConstraint_bounds_the_objective_row
  (getInfinity dmax dmin : double) (ops : list RowOp) (original : list Row)
  (isMin : bool) (objective : list (Z * double)) (cutOffIndex cutsBefore : Z)
  (cutOff : double) :
  let m := fst (applyOps getInfinity dmax dmin ops
                  (loadedModel original isMin objective cutOffIndex cutsBefore)) in
  let m' := setCutOffAsConstraint getInfinity dmax dmin false cutOff m in
  let bound := if isMin then cutOff
               else if cutOffConstraintDefined m then (- cutOff)%float
                    else (-1.0 * cutOff)%float in
  ((cutOff =? dmax) || (cutOff =? dmin))%float = false ->
  cutOffConstraintDefined m' = true /\
  nth_error (rows m') (Z.to_nat (cutOffConstraintIndex m'))
  = Some (mkRow objective (- getInfinity)%float bound "CUTOFF_C"%string) /\
  length (rows m')
  = (length (rows m) + (if cutOffConstraintDefined m then 0 else 1))%nat /\
  (forall j r, nth_error (rows m) j = Some r ->
               Z.of_nat j <> cutOffConstraintIndex m' ->
               nth_error (rows m') j = Some r).
Proof.
  intros m m' bound Hs.
  pose proof (applyOps_Consistent getInfinity dmax dmin original isMin objective
                cutOffIndex cutsBefore ops) as C.
  assert (S : cutOffShape getInfinity isMin objective m).
  { unfold m, applyOps. eapply fold_applyOp_cutOffShape.
    - simpl. apply loadedModel_Consistent.
    - simpl. split; [reflexivity|]. split; [reflexivity|]. discriminate. }
  destruct (setCutOffAsConstraint_row getInfinity dmax dmin original cutsBefore isMin
              objective m _ cutOff C S Hs) as (H1 & _ & _ & H2 & H3 & H4).
  split; [exact H1|]. split; [exact H2|]. split; [exact H3|exact H4].
Qed.

Lemma setCutOffAsConstraint_bounds_the_objective_row_witness :
  nth_error
    (rows (setCutOffAsConstraint 1e30%float 1e300%float (-1e300)%float false 7.0%float
             (fst (applyOps 1e30%float 1e300%float (-1e300)%float demoOps
                     (loadedModel [demoRow "c0"] false [(0%Z, 1.0%float)] 0 0))))) 2
  = Some (mkRow [(0%Z, 1.0%float)] (- 1e30)%float (- 7.0)%float "CUTOFF_C"%string).
Proof.
  refine (proj1 (proj2 (setCutOffAsConstraint_bounds_the_objective_row
           1e30%float 1e300%float (-1e300)%float demoOps
           [demoRow "c0"] false [(0%Z, 1.0%float)] 0%Z 0%Z 7.0%float _))).
  vm_compute. reflexivity.
Defined.

(** *** Relaxing the cuts of an infeasible problem *)

Record Selection := mkSelection {
  hyperplaneCounter : nat;
  repairConstraints : list nat;
  relaxParameters : list double }.

Section Repair.

(** What [repairInfeasibility] takes from its surroundings: [isSourceConvex]
    of each entry of [env->dualSolver->generatedHyperplanes]; the number of
    linear constraints of the reformulated problem; the number of columns of
    the interface; and the outcome of solving the relaxed clone, given its
    slack columns: the status [getSolutionStatus] reports after [CbcMain1]
    (with the status [Error] goes its message that the status is unknown)
    and the solution [getVariableSolution(0)] returns, by index.  The clone,
    the rebuilt [cbcModel] and the files written under Debug.Enable are not
    part of the state modelled; the calls into Cbc are taken not to throw. *)
Variable generatedHyperplanes : list bool.
Variable numOrigConstraints : nat.
Variable numOrigVariables : nat.
Variable relaxedStatus : Model -> list nat -> list double -> E_ProblemSolutionStatus.
Variable relaxedSolution : Model -> list nat -> list double -> nat -> double.

(** [1 / (((double)i) + 1.0)]. *)
Definition relaxParameter (i : nat) : double := (1.0 / (double_of_nat i + 1.0))%float.

(** Lines 560-581, over the rows [visit] still to visit; [None] when
    [generatedHyperplanes.at] throws. *)
Fixpoint selectRows (m : Model) (visit : list nat) (s : Selection) : option Selection :=
  match visit with
  | [] => Some s
  | i :: rest =>
    if (Z.of_nat i =? cutOffConstraintIndex m)%Z
    then selectRows m rest
           (mkSelection (S (hyperplaneCounter s)) (repairConstraints s) (relaxParameters s))
    else if existsb (Z.eqb (Z.of_nat i)) (integerCuts m)
    then selectRows m rest s
    else match nth_error generatedHyperplanes (hyperplaneCounter s) with
         | None => None
         | Some true =>
           selectRows m rest
             (mkSelection (S (hyperplaneCounter s)) (repairConstraints s)
                (relaxParameters s))
         | Some false =>
           selectRows m rest
             (mkSelection (hyperplaneCounter s) (repairConstraints s ++ [i])
                (relaxParameters s ++ [relaxParameter i]))
         end
  end.

(** The body of the loop of lines 664-678; [k] is the loop variable, the
    state is the interface and [numRepairs]. *)
Definition repairStep (solution : nat -> double) (repair : list nat)
  (st : Model * nat) (k : nat) : Model * nat :=
  let slackValue := solution (numOrigVariables + k)%nat in
  if (slackValue =? 0.0)%float then st
  else
    let oldRHS := nth (numOrigConstraints + k) (map rowUpper (rows (fst st))) 0.0%float in
    let m1 := setRowUpper (Z.of_nat (nth k repair O))
                (oldRHS + 1.5 * slackValue)%float (fst st) in
    (outputDebug "        Constraint repaired with infeasibility"%string m1,
     S (snd st)).

(** Lines 542-707. *)
Definition repairInfeasibility (m : Model) : Model * bool :=
  if (length generatedHyperplanes =? 0)%nat then (m, false)
  else
    let numCurrConstraints := length (rows m) in
    match selectRows m (seq numOrigConstraints (numCurrConstraints - numOrigConstraints))
            (mkSelection 0 [] []) with
    | None => (modelError "        Error when trying to repair infeasibility"%string m, false)
    | Some sel =>
      let repair := repairConstraints sel in
      let MIPSolutionStatus := relaxedStatus m repair (relaxParameters sel) in
      if negb (status_eqb MIPSolutionStatus Optimal)
      then (outputDebug "        Could not repair the infeasible dual problem."%string
              (if status_eqb MIPSolutionStatus Error
               then modelError "MIP solver return status unknown."%string m else m),
            false)
      else
        let solution := relaxedSolution m repair (relaxParameters sel) in
        let numConstraintsToRepair := length repair in
        let st := fold_left (repairStep solution repair) (seq 0 numConstraintsToRepair)
                    (m, O) in
        (outputDebug "        Number of constraints modified: "%string (fst st), true)
    end.

(** The rows the first loop may pick: cuts past the original constraints
    that are neither the cutoff row nor an integer cut. *)
Definition relaxable (m : Model) (i : nat) : Prop :=
  (numOrigConstraints <= i < length (rows m))%nat /\
  Z.of_nat i <> cutOffConstraintIndex m /\
  ~ In (Z.of_nat i) (integerCuts m).

Lemma existsb_Zeqb_false (x : Z) (l : list Z) :
  existsb (Z.eqb x) l = false -> ~ In x l.
Proof.
  intros H Hin. assert (E : existsb (Z.eqb x) l = true).
  { apply existsb_exists. exists x. split; [exact Hin|apply Z.eqb_refl]. }
  congruence.
Qed.

(** The selection is a strictly increasing subsequence of the rows visited,
    made of rows that pass the two tests. *)
Lemma selectRows_spec m : forall visit s s',
  selectRows m visit s = Some s' ->
  exists picked,
    repairConstraints s' = repairConstraints s ++ picked /\
    (length picked <= length visit)%nat /\
    Forall (fun i => In i visit /\ Z.of_nat i <> cutOffConstraintIndex m /\
                     ~ In (Z.of_nat i) (integerCuts m)) picked /\
    (StronglySorted lt visit -> StronglySorted lt picked).
Proof.
  induction visit as [|i rest IH]; intros s s' H; simpl in H.
  - inversion H; subst. exists []. rewrite app_nil_r.
    repeat split; simpl; try lia; constructor.
  - assert (Hskip : forall s0,
              repairConstraints s0 = repairConstraints s ->
              selectRows m rest s0 = Some s' ->
              exists picked,
                repairConstraints s' = repairConstraints s ++ picked /\
                (length picked <= length (i :: rest))%nat /\
                Forall (fun j => In j (i :: rest) /\
                                 Z.of_nat j <> cutOffConstraintIndex m /\
                                 ~ In (Z.of_nat j) (integerCuts m)) picked /\
                (StronglySorted lt (i :: rest) -> StronglySorted lt picked)).
    { intros s0 E1 H0. destruct (IH _ _ H0) as (picked & P1 & P3 & P4 & P5).
      exists picked. rewrite <- E1. split; [exact P1|].
      split; [simpl; lia|]. split.
      - eapply Forall_impl; [|exact P4]. intros j (Hj & Hc). split; [right; exact Hj|exact Hc].
      - intros Hs. apply P5. exact (proj1 (StronglySorted_inv Hs)). }
    destruct (Z.of_nat i =? cutOffConstraintIndex m)%Z eqn:Ec;
      [eapply Hskip; [|exact H]; reflexivity|].
    destruct (existsb (Z.eqb (Z.of_nat i)) (integerCuts m)) eqn:Ei;
      [eapply Hskip; [|exact H]; reflexivity|].
    destruct (nth_error generatedHyperplanes (hyperplaneCounter s)) as [[|]|];
      [eapply Hskip; [|exact H]; reflexivity| |discriminate].
    destruct (IH _ _ H) as (picked & P1 & P3 & P4 & P5). simpl in P1.
    exists (i :: picked). rewrite <- app_assoc in P1.
    split; [exact P1|]. split; [simpl; lia|]. split.
    + constructor.
      * split; [left; reflexivity|]. split; [apply Z.eqb_neq; exact Ec|].
        apply existsb_Zeqb_false. exact Ei.
      * eapply Forall_impl; [|exact P4]. intros j (Hj & Hc).
        split; [right; exact Hj|exact Hc].
    + intros Hs. pose proof (StronglySorted_inv Hs) as [Hrest Hlt].
      constructor; [apply P5; exact Hrest|].
      apply Forall_forall. intros j Hj.
      apply (proj1 (Forall_forall _ _) P4) in Hj. destruct Hj as [Hj _].
      exact (proj1 (Forall_forall _ _) Hlt j Hj).
Qed.

Lemma seq_StronglySorted : forall n a, StronglySorted lt (seq a n).
Proof.
  induction n as [|n IH]; intros a; simpl; constructor; [apply IH|].
  apply Forall_forall. intros x Hx. apply in_seq in Hx. lia.
Qed.

(** Two states of the interface that differ in the upper bounds of the rows
    in [allowed] at most. *)
Definition sameButUppers (allowed : nat -> Prop) (m m' : Model) : Prop :=
  length (rows m') = length (rows m) /\
  integerCuts m' = integerCuts m /\
  cutOffConstraintDefined m' = cutOffConstraintDefined m /\
  cutOffConstraintIndex m' = cutOffConstraintIndex m /\
  (forall j r, nth_error (rows m) j = Some r ->
     exists u, nth_error (rows m') j
               = Some (mkRow (coefficients r) (rowLower r) u (rowName r)) /\
               (~ allowed j -> u = rowUpper r)).

Lemma sameButUppers_refl allowed m : sameButUppers allowed m m.
Proof.
  repeat split. intros j r Hj. exists (rowUpper r). destruct r; simpl. auto.
Qed.

Lemma sameButUppers_setRowUpper (allowed : nat -> Prop) m0 m i v :
  sameButUppers allowed m0 m -> allowed i ->
  sameButUppers allowed m0 (outputDebug
    "        Constraint repaired with infeasibility"%string
    (setRowUpper (Z.of_nat i) v m)).
Proof.
  intros (Hl & Hc & Hd & Hi & Hrows) Ha. unfold setRowUpper.
  destruct (Z.of_nat i <? 0)%Z eqn:E; [apply Z.ltb_lt in E; lia|].
  rewrite Nat2Z.id. unfold sameButUppers. simpl. rewrite length_setRowUpperAt.
  repeat (split; [assumption|]).
  intros j r Hj. destruct (Hrows j r Hj) as (u & Hu & Hkeep).
  rewrite nth_error_setRowUpperAt, Hu.
  destruct (Nat.eqb i j) eqn:Eij; simpl.
  - apply Nat.eqb_eq in Eij. subst j. exists v. split; [reflexivity|]. tauto.
  - exists u. auto.
Qed.

Lemma repairSteps_sameButUppers (allowed : nat -> Prop) solution repair m0 :
  forall ks st,
  Forall (fun k => allowed (nth k repair O)) ks ->
  sameButUppers allowed m0 (fst st) ->
  sameButUppers allowed m0 (fst (fold_left (repairStep solution repair) ks st)).
Proof.
  induction ks as [|k rest IH]; intros st Hks Hst; simpl; [exact Hst|].
  inversion Hks; subst. apply IH; [assumption|].
  unfold repairStep. destruct (_ =? _)%float; [exact Hst|]. simpl.
  apply sameButUppers_setRowUpper; assumption.
Qed.

Lemma sameButUppers_log allowed m0 m msg :
  sameButUppers allowed m0 m -> sameButUppers allowed m0 (outputDebug msg m).
Proof. intros H. exact H. Qed.

Lemma sameButUppers_error allowed m0 m msg :
  sameButUppers allowed m0 m -> sameButUppers allowed m0 (modelError msg m).
Proof. intros H. exact H. Qed.

Lemma repairInfeasibility_sameButUppers m :
  sameButUppers (fun j => relaxable m j /\ snd (repairInfeasibility m) = true)
    m (fst (repairInfeasibility m)).
Proof.
  unfold repairInfeasibility.
  destruct (length generatedHyperplanes =? 0)%nat; [apply sameButUppers_refl|].
  destruct (selectRows m _ _) as [sel|] eqn:Hsel;
    [|apply sameButUppers_error, sameButUppers_refl].
  cbv zeta.
  destruct (negb _);
    [destruct (status_eqb _ Error);
     [apply sameButUppers_log, sameButUppers_error, sameButUppers_refl
     |apply sameButUppers_log, sameButUppers_refl]|]. simpl.
  apply selectRows_spec in Hsel. destruct Hsel as (picked & P1 & _ & P4 & _).
  simpl in P1. rewrite P1. apply sameButUppers_log.
  apply (repairSteps_sameButUppers _ _ picked m); [|apply sameButUppers_refl].
  apply Forall_forall. intros k Hk. apply in_seq in Hk.
  assert (Hin : In (nth k picked O) picked) by (apply nth_In; lia).
  apply (proj1 (Forall_forall _ _) P4) in Hin. destruct Hin as (Hseq & Hc & Hi).
  apply in_seq in Hseq. split; [|reflexivity]. split; [lia|]. split; assumption.
Qed.

(** [repairInfeasibility] never relaxes an original constraint, the cutoff
    row or an integer cut, and changes nothing at all when it returns false:
    the interface keeps its rows, each with its coefficients, lower bound and
    name, and a row keeps its upper bound too unless the call returned true
    and the row is a cut past the original constraints that is neither
    [cutOffConstraintIndex] nor in [integerCuts]. *)
Theorem repairInfeasibility_relaxes_only_cuts (m : Model) (j : nat) (r : Row) :
  let m' := fst (repairInfeasibility m) in
  length (rows m') = length (rows m) /\
  integerCuts m' = integerCuts m /\
  cutOffConstraintIndex m' = cutOffConstraintIndex m /\
  (nth_error (rows m) j = Some r ->
   exists u, nth_error (rows m') j
             = Some (mkRow (coefficients r) (rowLower r) u (rowName r)) /\
             ((j < numOrigConstraints)%nat \/ Z.of_nat j = cutOffConstraintIndex m \/
              In (Z.of_nat j) (integerCuts m) \/
              snd (repairInfeasibility m) = false -> u = rowUpper r)).
Proof.
  destruct (repairInfeasibility_sameButUppers m) as (Hl & Hc & _ & Hi & Hrows).
  simpl. split; [exact Hl|]. split; [exact Hc|]. split; [exact Hi|].
  intros Hj. destruct (Hrows j r Hj) as (u & Hu & Hkeep). exists u.
  split; [exact Hu|]. intros Hcase. apply Hkeep. intros [(Hrange & Hnc & Hni) Htrue].
  destruct Hcase as [H|[H|[H|H]]]; [lia|tauto|tauto|congruence].
Qed.

(** *** Which cuts are relaxed *)

(** The number of leading entries of the ledger that are convex. *)
Fixpoint convexPrefix (l : list bool) : nat :=
  match l with
  | true :: rest => S (convexPrefix rest)
  | _ => O
  end.

Definition noRowSkipped (m : Model) : Prop :=
  forall i, (numOrigConstraints <= i < length (rows m))%nat ->
            Z.of_nat i <> cutOffConstraintIndex m /\ ~ In (Z.of_nat i) (integerCuts m).

Lemma existsb_Zeqb_notIn (x : Z) (l : list Z) :
  ~ In x l -> existsb (Z.eqb x) l = false.
Proof.
  intros H. destruct (existsb (Z.eqb x) l) eqn:E; [|reflexivity].
  apply existsb_exists in E. destruct E as (y & Hy & Hxy).
  apply Z.eqb_eq in Hxy. subst y. tauto.
Qed.

Lemma selectRows_stuck m c : forall n a repair relax,
  nth_error generatedHyperplanes c = Some false ->
  (forall i, (a <= i < a + n)%nat ->
             Z.of_nat i <> cutOffConstraintIndex m /\ ~ In (Z.of_nat i) (integerCuts m)) ->
  selectRows m (seq a n) (mkSelection c repair relax)
  = Some (mkSelection c (repair ++ seq a n) (relax ++ map relaxParameter (seq a n))).
Proof.
  induction n as [|n IH]; intros a repair relax Hc Hrows; simpl.
  - rewrite !app_nil_r. reflexivity.
  - destruct (Hrows a ltac:(lia)) as [H1 H2].
    apply Z.eqb_neq in H1. rewrite H1, (existsb_Zeqb_notIn _ _ H2), Hc.
    rewrite IH; [|exact Hc|intros i Hi; apply Hrows; lia].
    rewrite <- !app_assoc. reflexivity.
Qed.

Lemma nth_error_convexPrefix : forall l c,
  (c < convexPrefix l)%nat -> nth_error l c = Some true.
Proof.
  induction l as [|b rest IH]; intros c Hc; simpl in Hc; [lia|].
  destruct b; [|lia]. destruct c; simpl; [reflexivity|]. apply IH. lia.
Qed.

Lemma nth_error_at_convexPrefix : forall l,
  nth_error l (convexPrefix l)
  = if (convexPrefix l <? length l)%nat then Some false else None.
Proof.
  induction l as [|b rest IH]; simpl; [reflexivity|].
  destruct b; simpl; [|reflexivity]. rewrite IH.
  replace (S (convexPrefix rest) <? S (length rest))%nat
    with (convexPrefix rest <? length rest)%nat; [reflexivity|].
  destruct (Nat.ltb_spec (convexPrefix rest) (length rest));
    destruct (Nat.ltb_spec (S (convexPrefix rest)) (S (length rest))); try reflexivity; lia.
Qed.

Lemma selectRows_convex m : forall n a c,
  (c + n <= convexPrefix generatedHyperplanes)%nat ->
  (forall i, (a <= i < a + n)%nat ->
             Z.of_nat i <> cutOffConstraintIndex m /\ ~ In (Z.of_nat i) (integerCuts m)) ->
  selectRows m (seq a n) (mkSelection c [] []) = Some (mkSelection (c + n) [] []).
Proof.
  induction n as [|n IH]; intros a c Hc Hrows; simpl.
  - rewrite Nat.add_0_r. reflexivity.
  - destruct (Hrows a ltac:(lia)) as [H1 H2].
    apply Z.eqb_neq in H1. rewrite H1, (existsb_Zeqb_notIn _ _ H2).
    rewrite nth_error_convexPrefix by lia.
    rewrite IH; [|lia|intros i Hi; apply Hrows; lia].
    f_equal. f_equal. lia.
Qed.

(** With neither the cutoff row nor an integer cut among the cuts, the first
    loop of [repairInfeasibility] skips one cut per leading convex entry of
    the hyperplane ledger and then, the counter no longer advancing, picks
    every cut that follows the first non-convex entry, whatever the later
    entries are; when the ledger has convex entries only and fewer than
    there are cuts, [generatedHyperplanes.at] throws. *)
Theorem selectRows_relaxes_every_cut_after_first_nonconvex (m : Model) :
  noRowSkipped m ->
  let n := (length (rows m) - numOrigConstraints)%nat in
  let p := convexPrefix generatedHyperplanes in
  selectRows m (seq numOrigConstraints n) (mkSelection 0 [] [])
  = if (n <=? p)%nat then Some (mkSelection n [] [])
    else if (p <? length generatedHyperplanes)%nat
    then Some (mkSelection p (seq (numOrigConstraints + p) (n - p))
                 (map relaxParameter (seq (numOrigConstraints + p) (n - p))))
    else None.
Proof.
  intros Hno n p.
  destruct (Nat.leb_spec n p) as [Hnp|Hnp].
  - apply (selectRows_convex m n numOrigConstraints 0); [exact Hnp|].
    intros i Hi. apply Hno. unfold n in Hi. lia.
  - replace n with (p + (n - p))%nat at 1 by lia. rewrite seq_app.
    assert (Hsplit : forall l1 l2 s,
              selectRows m (l1 ++ l2) s
              = match selectRows m l1 s with
                | Some s1 => selectRows m l2 s1
                | None => None
                end).
    { induction l1 as [|i rest IH]; intros l2 s; simpl; [reflexivity|].
      destruct (_ =? _)%Z; [apply IH|].
      destruct (existsb _ _); [apply IH|].
      destruct (nth_error _ _) as [[|]|]; [apply IH|apply IH|reflexivity]. }
    rewrite Hsplit.
    rewrite (selectRows_convex m p numOrigConstraints 0);
      [|fold p; lia|intros i Hi; apply Hno; unfold n in Hnp; lia].
    simpl. pose proof (nth_error_at_convexPrefix generatedHyperplanes) as Hat.
    fold p in Hat. destruct (p <? length generatedHyperplanes)%nat.
    + rewrite (selectRows_stuck m p (n - p) (numOrigConstraints + p) [] [] Hat);
        [reflexivity|]. intros i Hi. apply Hno. unfold n in Hi. lia.
    + destruct (n - p)%nat as [|k] eqn:Ek; [lia|]. simpl.
      assert (Hrow : (numOrigConstraints <= numOrigConstraints + p < length (rows m))%nat)
        by (unfold n in Hnp; lia).
      destruct (Hno _ Hrow) as [H1 H2].
      apply Z.eqb_neq in H1. rewrite H1, (existsb_Zeqb_notIn _ _ H2), Hat. reflexivity.
Qed.

(** *** The new bounds of the relaxed cuts *)

(** A row with its upper bound raised by one and a half times a slack value,
    or the row itself for a slack of zero. *)
Definition raisedBy (slackValue : double) (base : double) (r : Row) : Row :=
  if (slackValue =? 0.0)%float then r
  else mkRow (coefficients r) (rowLower r) (base + 1.5 * slackValue)%float (rowName r).

Lemma nth_map_rowUpper l j r :
  nth_error l j = Some r -> nth j (map rowUpper l) 0.0%float = rowUpper r.
Proof.
  intros H. apply nth_error_nth. rewrite nth_error_map, H. reflexivity.
Qed.

Lemma repairSteps_own solution m n : forall t,
  (t <= n)%nat -> (numOrigConstraints + n <= length (rows m))%nat ->
  let st := fold_left (repairStep solution (seq numOrigConstraints n)) (seq 0 t) (m, O) in
  forall j r, nth_error (rows m) j = Some r ->
    nth_error (rows (fst st)) j
    = Some (if (numOrigConstraints <=? j)%nat && (j <? numOrigConstraints + t)%nat
            then raisedBy (solution (numOrigVariables + (j - numOrigConstraints))%nat)
                   (rowUpper r) r
            else r).
Proof.
  induction t as [|t IH]; intros Ht Hn; cbv zeta.
  - simpl. intros j r Hj. rewrite Hj.
    destruct (Nat.leb_spec numOrigConstraints j); simpl; [|reflexivity].
    destruct (Nat.ltb_spec j (numOrigConstraints + 0)); [lia|reflexivity].
  - rewrite seq_S, fold_left_app. simpl fold_left at 1. simpl "+"%nat.
    specialize (IH ltac:(lia) Hn). cbv zeta in IH.
    set (st := fold_left (repairStep solution (seq numOrigConstraints n)) (seq 0 t) (m, O))
      in *.
    intros j r Hj. specialize (IH j r Hj) as IHj.
    assert (Hcase : (numOrigConstraints <=? j)%nat && (j <? numOrigConstraints + S t)%nat
                    = ((numOrigConstraints <=? j)%nat && (j <? numOrigConstraints + t)%nat)
                      || Nat.eqb (numOrigConstraints + t) j).
    { destruct (Nat.leb_spec numOrigConstraints j);
        destruct (Nat.ltb_spec j (numOrigConstraints + S t));
        destruct (Nat.ltb_spec j (numOrigConstraints + t));
        destruct (Nat.eqb_spec (numOrigConstraints + t) j); simpl; try reflexivity; lia. }
    rewrite Hcase. unfold repairStep.
    destruct (solution (numOrigVariables + t)%nat =? 0.0)%float eqn:Es.
    + rewrite IHj.
      destruct ((numOrigConstraints <=? j)%nat && (j <? numOrigConstraints + t)%nat)
        eqn:E1; simpl; [reflexivity|].
      destruct (Nat.eqb_spec (numOrigConstraints + t) j) as [E|E]; [|reflexivity].
      subst j. replace (numOrigConstraints + t - numOrigConstraints)%nat with t by lia.
      unfold raisedBy. rewrite Es. reflexivity.
    + simpl. unfold setRowUpper.
      destruct (Z.of_nat (nth t (seq numOrigConstraints n) O) <? 0)%Z eqn:E;
        [apply Z.ltb_lt in E; lia|].
      simpl. rewrite Nat2Z.id, seq_nth by lia. rewrite nth_error_setRowUpperAt, IHj.
      destruct (Nat.eqb_spec (numOrigConstraints + t) j) as [Ej|Ej].
      * subst j.
        destruct (Nat.ltb_spec (numOrigConstraints + t) (numOrigConstraints + t)); [lia|].
        rewrite andb_false_r. simpl.
        assert (Hrow : exists rt, nth_error (rows m) (numOrigConstraints + t) = Some rt)
          by (exists r; exact Hj).
        destruct Hrow as [rt Hrt].
        pose proof (IH _ _ Hrt) as Hread.
        destruct (Nat.ltb_spec (numOrigConstraints + t) (numOrigConstraints + t)); [lia|].
        rewrite andb_false_r in Hread.
        rewrite (nth_map_rowUpper _ _ _ Hread).
        replace (numOrigConstraints + t - numOrigConstraints)%nat with t by lia.
        unfold raisedBy. rewrite Es. congruence.
      * rewrite orb_false_r. reflexivity.
Qed.

(** When nothing is skipped (neither the cutoff row nor an integer cut is
    among the cuts, and the first ledger entry is not convex) and the relaxed
    problem is solved to optimality, [repairInfeasibility] returns true and
    has raised the upper bound of each cut by one and a half times the value
    of that cut's slack column, leaving the cuts with a zero slack alone. *)
Theorem repairInfeasibility_raises_each_cut_by_its_slack (m : Model) :
  let n := (length (rows m) - numOrigConstraints)%nat in
  let repair := seq numOrigConstraints n in
  let relax := map relaxParameter repair in
  noRowSkipped m ->
  nth_error generatedHyperplanes 0 = Some false ->
  relaxedStatus m repair relax = Optimal ->
  snd (repairInfeasibility m) = true /\
  forall k r, nth_error (rows m) (numOrigConstraints + k) = Some r ->
    nth_error (rows (fst (repairInfeasibility m))) (numOrigConstraints + k)
    = Some (raisedBy (relaxedSolution m repair relax (numOrigVariables + k)%nat)
              (rowUpper r) r).
Proof.
  intros n repair relax Hno H0 Hst. unfold repairInfeasibility.
  destruct generatedHyperplanes as [|b rest] eqn:Eg; [discriminate|]. simpl length.
  simpl Nat.eqb. cbv iota. rewrite <- Eg in *.
  fold n. rewrite (selectRows_stuck m 0 n numOrigConstraints [] [] H0);
    [|intros i Hi; apply Hno; unfold n in Hi; lia].
  simpl. fold repair. fold relax. rewrite Hst. simpl. split; [reflexivity|].
  intros k r Hk. unfold repair at 2 3. rewrite length_seq.
  assert (Hlt : (numOrigConstraints + k < length (rows m))%nat)
    by (apply nth_error_Some; congruence).
  rewrite (repairSteps_own _ m n n (le_n n) ltac:(unfold n; lia) _ _ Hk).
  destruct (Nat.leb_spec numOrigConstraints (numOrigConstraints + k)); [|lia].
  destruct (Nat.ltb_spec (numOrigConstraints + k) (numOrigConstraints + n));
    [|unfold n in *; lia].
  simpl. replace (numOrigConstraints + k - numOrigConstraints)%nat with k by lia.
  reflexivity.
Qed.

Lemma repairSteps_keep_row solution repair j : forall ks st,
  Forall (fun k => nth k repair O <> j) ks ->
  nth_error (rows (fst (fold_left (repairStep solution repair) ks st))) j
  = nth_error (rows (fst st)) j.
Proof.
  induction ks as [|k rest IH]; intros st Hks; simpl; [reflexivity|].
  pose proof (Forall_inv Hks) as Hk. simpl in Hk.
  rewrite IH by exact (Forall_inv_tail Hks).
  unfold repairStep. destruct (_ =? _)%float; [reflexivity|]. simpl.
  unfold setRowUpper. destruct (_ <? _)%Z; [reflexivity|]. simpl.
  rewrite Nat2Z.id, nth_error_setRowUpperAt.
  destruct (Nat.eqb_spec (nth k repair O) j); [contradiction|reflexivity].
Qed.

Lemma StronglySorted_nth_lt (l : list nat) : forall k a,
  StronglySorted lt (a :: l) -> (k < length l)%nat -> (a < nth k l O)%nat.
Proof.
  intros k a Hs Hk. inversion Hs; subst.
  apply (proj1 (Forall_forall _ _) H2). apply nth_In. exact Hk.
Qed.

(** The first cut picked for relaxation gets its new upper bound from the
    row at index [numOrigConstraints], the first row past the original
    constraints, which need not be the cut itself: when the call returns
    true and the first slack value is not zero, that cut ends with the upper
    bound of row [numOrigConstraints] plus one and a half times the slack. *)
Theorem repairInfeasibility_first_cut_takes_bound_of_first_row
  (m : Model) (sel : Selection) (first : nat) (others : list nat) (r0 r : Row) :
  let slackValue := relaxedSolution m (repairConstraints sel) (relaxParameters sel)
                      numOrigVariables in
  generatedHyperplanes <> [] ->
  selectRows m (seq numOrigConstraints (length (rows m) - numOrigConstraints))
    (mkSelection 0 [] []) = Some sel ->
  repairConstraints sel = first :: others ->
  relaxedStatus m (repairConstraints sel) (relaxParameters sel) = Optimal ->
  (slackValue =? 0.0)%float = false ->
  nth_error (rows m) numOrigConstraints = Some r0 ->
  nth_error (rows m) first = Some r ->
  snd (repairInfeasibility m) = true /\
  nth_error (rows (fst (repairInfeasibility m))) first
  = Some (mkRow (coefficients r) (rowLower r) (rowUpper r0 + 1.5 * slackValue)%float
            (rowName r)).
Proof.
  intros slackValue Hg Hsel Hrep Hst Hs H0 Hfirst. unfold repairInfeasibility.
  destruct generatedHyperplanes as [|b rest] eqn:Eg; [congruence|]. simpl length.
  simpl Nat.eqb. cbv iota. rewrite <- Eg in *. rewrite Hsel, Hst. simpl.
  split; [reflexivity|].
  pose proof (selectRows_spec m _ _ _ Hsel) as (picked & P1 & _ & _ & P5).
  simpl in P1. rewrite P1 in Hrep. subst picked.
  assert (Hsorted : StronglySorted lt (first :: others))
    by (apply P5, seq_StronglySorted).
  rewrite P1. simpl length. simpl seq. simpl fold_left.
  rewrite repairSteps_keep_row.
  - unfold slackValue in *. rewrite P1 in Hs.
    unfold repairStep. simpl fst. rewrite !Nat.add_0_r, Hs. simpl.
    unfold setRowUpper. destruct (Z.of_nat first <? 0)%Z eqn:E;
      [apply Z.ltb_lt in E; lia|].
    simpl. rewrite Nat2Z.id, nth_error_setRowUpperAt, Nat.eqb_refl, Hfirst.
    rewrite (nth_map_rowUpper _ _ _ H0), P1. reflexivity.
  - apply Forall_forall. intros k Hk. apply in_seq in Hk.
    destruct k as [|k]; [lia|]. simpl.
    pose proof (StronglySorted_nth_lt others k first Hsorted ltac:(lia)). lia.
Qed.

End Repair.

(** A small interface: one original constraint and two cuts. *)
Definition demoCuts : Model :=
  fst (applyOps 1e30%float 1e300%float (-1e300)%float
         [ AddLinearConstraint false [(0%Z, 2.0%float)] 1.0%float "H_0"%string false;
           AddLinearConstraint false [(1%Z, 3.0%float)] 2.0%float "H_1"%string false ]
         (loadedModel [demoRow "c0"] true [(0%Z, 1.0%float)] (-1) 0)).

(** The same with a cutoff row before the cuts and an integer cut after. *)
Definition demoCutsAfterCutOff : Model :=
  fst (applyOps 1e30%float 1e300%float (-1e300)%float
         [ SetCutOffAsConstraint false 10.0%float;
           AddLinearConstraint false [(0%Z, 2.0%float)] 1.0%float "H_0"%string false;
           AddLinearConstraint false [(1%Z, 3.0%float)] 2.0%float "H_1"%string false;
           CreateIntegerCut false [0%Z] [1%Z] ]
         (loadedModel [demoRow "c0"] true [(0%Z, 1.0%float)] (-1) 0)).

Definition demoStatus (m : Model) (repair : list nat) (relax : list double)
  : E_ProblemSolutionStatus := Optimal.

(** The slack of the first added column is 2, the others are 0; the
    interface has two columns. *)
Definition demoSolution (m : Model) (repair : list nat) (relax : list double)
  (j : nat) : double :=
  if Nat.eqb j 2 then 2.0%float else 0.0%float.

Lemma demoCuts_noRowSkipped : noRowSkipped 1 demoCuts.
Proof.
  intros i Hi. simpl in Hi. split; [simpl; lia|simpl; tauto].
Qed.

Lemma selectRows_relaxes_every_cut_after_first_nonconvex_witness :
  selectRows [true; false; true] demoCuts [1; 2]%nat (mkSelection 0 [] [])
  = Some (mkSelection 1 [2%nat] [relaxParameter 2]).
Proof.
  exact (selectRows_relaxes_every_cut_after_first_nonconvex [true; false; true] 1
           demoCuts demoCuts_noRowSkipped).
Defined.

Lemma repairInfeasibility_raises_each_cut_by_its_slack_witness :
  snd (repairInfeasibility [false; true] 1 2 demoStatus demoSolution demoCuts) = true /\
  option_map rowUpper
    (nth_error
       (rows (fst (repairInfeasibility [false; true] 1 2 demoStatus demoSolution
                     demoCuts))) 1)
  = Some (-1.0 + 1.5 * 2.0)%float.
Proof.
  destruct (repairInfeasibility_raises_each_cut_by_its_slack
              [false; true] 1 2 demoStatus demoSolution demoCuts
              demoCuts_noRowSkipped eq_refl eq_refl) as [Hok Hrows].
  split; [exact Hok|].
  exact (f_equal (option_map rowUpper) (Hrows 0%nat _ eq_refl)).
Defined.

Lemma repairInfeasibility_first_cut_takes_bound_of_first_row_witness :
  snd (repairInfeasibility [true; false; true] 1 2 demoStatus demoSolution
         demoCutsAfterCutOff) = true /\
  option_map rowUpper
    (nth_error
       (rows (fst (repairInfeasibility [true; false; true] 1 2 demoStatus demoSolution
                     demoCutsAfterCutOff))) 2)
  = Some (10.0 + 1.5 * 2.0)%float.
Proof.
  destruct (repairInfeasibility_first_cut_takes_bound_of_first_row
              [true; false; true] 1 2 demoStatus demoSolution demoCutsAfterCutOff
              (mkSelection 1 [2; 3]%nat [relaxParameter 2; relaxParameter 3])
              2%nat [3%nat]
              (mkRow [(0%Z, 1.0%float)] (- 1e30)%float 10.0%float "CUTOFF_C"%string)
              (mkRow [(0%Z, 2.0%float)] (- 1e30)%float (- 1.0)%float "H_0"%string))
    as [Hok Hrow].
  - discriminate.
  - vm_compute. reflexivity.
  - reflexivity.
  - reflexivity.
  - vm_compute. reflexivity.
  - vm_compute. reflexivity.
  - vm_compute. reflexivity.
  - split; [exact Hok|]. rewrite Hrow. reflexivity.
Defined.

End CbcRows.

(** * Switching between the MIP and the LP relaxation in the Cbc solver *)

Module CbcColumns.

Import Cbc.
Import CbcFacts.

(** What [activateDiscreteVariables] reads and writes of [osiInterface] and
    of the solver: which columns are marked integer, the flag
    [discreteVariablesActivated], and the debug output. *)
Record Osi := mkOsi {
  isInteger : Z -> bool;
  discreteVariablesActivated : bool;
  debug : list string }.

(** [osiInterface->setInteger(i)] and [osiInterface->setContinuous(i)]. *)
Definition setInteger (i : Z) (o : Osi) : Osi :=
  mkOsi (fun j => if (j =? i)%Z then true else isInteger o j)
        (discreteVariablesActivated o) (debug o).

Definition setContinuous (i : Z) (o : Osi) : Osi :=
  mkOsi (fun j => if (j =? i)%Z then false else isInteger o j)
        (discreteVariablesActivated o) (debug o).

Definition outputDebug (msg : string) (o : Osi) : Osi :=
  mkOsi (isInteger o) (discreteVariablesActivated o) (debug o ++ [msg]).

(** The test of lines 301 and 314. *)
Definition isIntegerOrBinary (t : E_VariableType) : bool :=
  match t with
  | Integer | Binary => true
  | _ => false
  end.

(** The loops of lines 299-305 and 312-318 over the indexes still to visit;
    [None] when [variableTypes.at] throws, which nothing here catches. *)
Fixpoint activateLoop (activate : bool) (types : list E_VariableType)
  (visit : list nat) (o : Osi) : option Osi :=
  match visit with
  | [] => Some o
  | i :: rest =>
    match nth_error types i with
    | None => None
    | Some t =>
      activateLoop activate types rest
        (if isIntegerOrBinary t
         then (if activate then setInteger (Z.of_nat i) o
               else setContinuous (Z.of_nat i) o)
         else o)
    end
  end.

(** Lines 293-322. *)
Definition activateDiscreteVariables (activate : bool) (s : MIPSolverCbc) (o : Osi)
  : option Osi :=
  let o := outputDebug (if activate then "Activating MIP strategy"%string
                        else "Activating LP strategy"%string) o in
  match activateLoop activate (variableTypes s)
          (seq 0 (Z.to_nat (numberOfVariables s))) o with
  | None => None
  | Some o' => Some (mkOsi (isInteger o') activate (debug o'))
  end.

Lemma activateLoop_spec activate types : forall n a o,
  (a + n <= length types)%nat ->
  exists o',
    activateLoop activate types (seq a n) o = Some o' /\
    (forall i t, nth_error types i = Some t ->
       isInteger o' (Z.of_nat i)
       = if (a <=? i)%nat && (i <? a + n)%nat && isIntegerOrBinary t
         then activate else isInteger o (Z.of_nat i)).
Proof.
  induction n as [|n IH]; intros a o Hlen; simpl.
  - exists o. split; [reflexivity|]. intros i t Hi.
    destruct (Nat.leb_spec a i); destruct (Nat.ltb_spec i (a + 0)); simpl;
      try reflexivity; lia.
  - destruct (nth_error types a) as [ta|] eqn:Ea;
      [|apply nth_error_None in Ea; lia].
    destruct (IH (S a)
                (if isIntegerOrBinary ta
                 then (if activate then setInteger (Z.of_nat a) o
                       else setContinuous (Z.of_nat a) o)
                 else o) ltac:(lia)) as (o' & Hrun & Hmarks).
    exists o'. split; [exact Hrun|]. intros i t Hi. rewrite (Hmarks i t Hi).
    destruct (Nat.eq_dec i a) as [E|E].
    + subst i. assert (t = ta) by congruence. subst ta.
      destruct (Nat.leb_spec (S a) a); [lia|]. simpl.
      destruct (Nat.leb_spec a a); [|lia].
      destruct (Nat.ltb_spec a (a + S n)); [|lia]. simpl.
      destruct (isIntegerOrBinary t); [|reflexivity].
      destruct activate; simpl; rewrite Z.eqb_refl; reflexivity.
    + assert (Hkeep : isInteger
                (if isIntegerOrBinary ta
                 then (if activate then setInteger (Z.of_nat a) o
                       else setContinuous (Z.of_nat a) o)
                 else o) (Z.of_nat i) = isInteger o (Z.of_nat i)).
      { destruct (isIntegerOrBinary ta); [|reflexivity].
        destruct activate; simpl;
          (destruct (Z.eqb_spec (Z.of_nat i) (Z.of_nat a)); [lia|reflexivity]). }
      rewrite Hkeep.
      destruct (Nat.leb_spec (S a) i); destruct (Nat.leb_spec a i);
        destruct (Nat.ltb_spec i (S a + n)); destruct (Nat.ltb_spec i (a + S n));
        simpl; try reflexivity; lia.
Qed.

Lemma existsb_discreteIndexes : forall types k i,
  existsb (Z.eqb (k + Z.of_nat i)) (discreteIndexes k types)
  = match nth_error types i with
    | Some t => isDiscreteType t
    | None => false
    end.
Proof.
  induction types as [|t rest IH]; intros k i; simpl.
  - destruct i; reflexivity.
  - rewrite existsb_app. destruct i as [|i].
    + simpl. rewrite Z.add_0_r.
      assert (Hrest : existsb (Z.eqb k) (discreteIndexes (k + 1) rest) = false).
      { clear. assert (H : forall l a, (k < a)%Z ->
                  existsb (Z.eqb k) (discreteIndexes a l) = false).
        { induction l as [|t l IHl]; intros a Ha; simpl; [reflexivity|].
          rewrite existsb_app, IHl by lia.
          destruct (isDiscreteType t); simpl; [|reflexivity].
          destruct (Z.eqb_spec k a); [lia|reflexivity]. }
        apply H. lia. }
      rewrite Hrest, orb_false_r. destruct (isDiscreteType t); simpl;
        [rewrite Z.eqb_refl|]; reflexivity.
    + replace (k + Z.of_nat (S i))%Z with ((k + 1) + Z.of_nat i)%Z by lia.
      rewrite IH. simpl.
      destruct (isDiscreteType t); simpl; [|reflexivity].
      destruct (Z.eqb_spec (k + 1 + Z.of_nat i) k); [lia|reflexivity].
Qed.

(** For the variables added by any sequence of [addVariable] calls, with
    the interface loaded from the [CoinModel] (its integer columns are the
    model's): [activateDiscreteVariables] never runs into an exception of
    [variableTypes.at]; after it has activated the LP strategy, the columns
    still marked integer are exactly the Semicontinuous variables, which
    [addVariable] marks integer and [activateDiscreteVariables] passes over;
    and activating the MIP strategy next marks exactly the columns that were
    integer when loaded. *)
Theorem activateDiscreteVariables_passes_over_semicontinuous
  (calls : list AddVariableCall) (loaded : Osi) :
  let s := addVariables calls initialSolver in
  (forall j, isInteger loaded j = existsb (Z.eqb j) (integerColumns (coinModel s))) ->
  exists lp mip,
    activateDiscreteVariables false s loaded = Some lp /\
    activateDiscreteVariables true s lp = Some mip /\
    discreteVariablesActivated lp = false /\
    discreteVariablesActivated mip = true /\
    forall i t, nth_error (variableTypes s) i = Some t ->
      isInteger lp (Z.of_nat i)
      = match t with Semicontinuous => true | _ => false end /\
      isInteger mip (Z.of_nat i) = isInteger loaded (Z.of_nat i).
Proof.
  intros s Hload.
  assert (H : integersAgree s).
  { unfold s, addVariables. apply (fold_left_ind_cbc _ integersAgree); [repeat split|].
    intros s' c Hs'. apply addVariable_integersAgree. exact Hs'. }
  destruct H as (Hn & Hint & _).
  assert (Hmarked : forall i t, nth_error (variableTypes s) i = Some t ->
                                isInteger loaded (Z.of_nat i) = isDiscreteType t).
  { intros i t Hi. rewrite Hload, Hint.
    pose proof (existsb_discreteIndexes (variableTypes s) 0 i) as E.
    rewrite Z.add_0_l, Hi in E. exact E. }
  unfold activateDiscreteVariables. rewrite Hn, Nat2Z.id.
  destruct (activateLoop_spec false (variableTypes s) (length (variableTypes s)) 0
              (outputDebug "Activating LP strategy"%string loaded) (le_n _))
    as (o1 & Hrun1 & Hm1).
  rewrite Hrun1.
  destruct (activateLoop_spec true (variableTypes s) (length (variableTypes s)) 0
              (outputDebug "Activating MIP strategy"%string
                 (mkOsi (isInteger o1) false (debug o1))) (le_n _))
    as (o2 & Hrun2 & Hm2).
  exists (mkOsi (isInteger o1) false (debug o1)), (mkOsi (isInteger o2) true (debug o2)).
  rewrite Hrun2. repeat (split; [reflexivity|]).
  intros i t Hi.
  assert (Hlt : (i < length (variableTypes s))%nat) by (apply nth_error_Some; congruence).
  simpl. rewrite (Hm2 i t Hi). simpl. rewrite !(Hm1 i t Hi). simpl.
  rewrite (Hmarked i t Hi).
  destruct (Nat.ltb_spec i (length (variableTypes s))); [|lia].
  destruct t; simpl; split; reflexivity.
Qed.

Definition demoTypedCalls : list AddVariableCall :=
  [mkCall None "x"%string Integer 0%float 5%float;
   mkCall None "y"%string Semicontinuous 1%float 4%float;
   mkCall (Some SetInteger) "b"%string Binary 0%float 1%float;
   mkCall None "z"%string Real 2%float 9%float].

Definition demoLoaded : Osi :=
  mkOsi (fun j => existsb (Z.eqb j)
                    (integerColumns (coinModel (addVariables demoTypedCalls initialSolver))))
        false [].

Lemma activateDiscreteVariables_passes_over_semicontinuous_witness :
  exists lp mip,
    activateDiscreteVariables false (addVariables demoTypedCalls initialSolver) demoLoaded
    = Some lp /\
    activateDiscreteVariables true (addVariables demoTypedCalls initialSolver) lp
    = Some mip /\
    discreteVariablesActivated lp = false /\
    discreteVariablesActivated mip = true /\
    forall i t,
      nth_error (variableTypes (addVariables demoTypedCalls initialSolver)) i = Some t ->
      isInteger lp (Z.of_nat i)
      = match t with Semicontinuous => true | _ => false end /\
      isInteger mip (Z.of_nat i) = isInteger demoLoaded (Z.of_nat i).
Proof.
  apply (activateDiscreteVariables_passes_over_semicontinuous demoTypedCalls demoLoaded).
  intros j. reflexivity.
Defined.

End CbcColumns.

(** * Further properties of the lazy-constraint callback *)

Module GurobiFacts.

Import Selector.
Import Gurobi.

(** *** What [addLazyConstraint] hands to the search *)

(** The cut [createHyperplane] adds for a hyperplane: none when there are no
    terms, when a coefficient is not-a-number or when [addLazy] throws. *)
Definition cutOf (ext : Collaborators) (hp : Hyperplane) : list GRBTempConstr :=
  match createHyperplaneTerms ext hp with
  | None => []
  | Some (terms, constant) =>
    let c := mkGRBTempConstr (exprOf terms) (- constant)%float in
    if existsb (fun E => is_nan (value E)) terms || addLazyThrows ext c then [] else [c]
  end.

(** What the selectors of [addLazyConstraint] push for the candidate points:
    the strategy's selector first, then the objective line search when the
    objective is more than quadratic. *)
Definition selectedFor (ext : Collaborators) (pts : list SolutionPoint) : list Hyperplane :=
  match CutStrategy (settings ext) with
  | ESH => runESH ext pts
  | ECP => runECP ext pts
  end
  ++ (if classification_gtb (classification (reformulatedProblem ext)) Quadratic
      then runObjectiveLinesearch ext pts else []).

(** The state [w'] is [w] after the hyperplanes [hps] went through
    [createHyperplane] and were counted. *)
Definition flushed (ext : Collaborators) (hps : list Hyperplane) (w w' : World) : Prop :=
  lazyConstraints (search w')
  = lazyConstraints (search w) ++ flat_map (cutOf ext) hps /\
  numHyperplanesAdded (currentIteration (results w'))
  = (numHyperplanesAdded (currentIteration (results w))
     + Z.of_nat (length (flat_map (cutOf ext) hps)))%Z /\
  totNumHyperplanes (currentIteration (results w'))
  = (totNumHyperplanes (currentIteration (results w))
     + Z.of_nat (length (flat_map (cutOf ext) hps)))%Z /\
  lastNumAddedHyperplanes (cb w')
  = (lastNumAddedHyperplanes (cb w) + Z.of_nat (length hps))%Z /\
  cbCalls (cb w') = cbCalls (cb w) /\
  solver w' = solver w /\
  aborted (search w') = aborted (search w) /\
  numberOfIntegerCuts w' = numberOfIntegerCuts w.

Lemma createHyperplane_flushed ext hp w :
  flushed ext [hp] w
    (with_cb (fun c => set_lastNumAddedHyperplanes (lastNumAddedHyperplanes c + 1) c)
       (createHyperplane ext hp w)).
Proof.
  unfold flushed, createHyperplane, cutOf. simpl flat_map. rewrite app_nil_r.
  destruct (createHyperplaneTerms ext hp) as [[terms constant]|]; simpl;
    [|rewrite app_nil_r; repeat split; lia].
  destruct (find (fun E => neqb (value E) (value E)) terms) eqn:Hfind.
  - assert (Hex : existsb (fun E => is_nan (value E)) terms = true).
    { destruct (existsb (fun E => is_nan (value E)) terms) eqn:Hex; [reflexivity|].
      apply find_none_existsb in Hex. unfold is_nan in Hex. unfold neqb in Hfind.
      congruence. }
    rewrite Hex. simpl. rewrite app_nil_r. repeat split; lia.
  - assert (Hex : existsb (fun E => is_nan (value E)) terms = false)
      by (apply find_none_existsb; exact Hfind).
    rewrite Hex. simpl.
    destruct (addLazyThrows ext _); simpl; rewrite ?app_nil_r; repeat split; lia.
Qed.

Lemma flushed_step ext hp hps w w1 w2 :
  flushed ext [hp] w w1 -> flushed ext hps w1 w2 -> flushed ext (hp :: hps) w w2.
Proof.
  intros (A1 & A2 & A3 & A4 & A5 & A6 & A7 & A8) (B1 & B2 & B3 & B4 & B5 & B6 & B7 & B8).
  unfold flushed. simpl flat_map in *. rewrite app_nil_r in A1, A2, A3.
  rewrite B1, A1, B2, A2, B3, A3, B4, A4, B5, A5, B6, A6, B7, A7, B8, A8.
  rewrite <- app_assoc, length_app. simpl length.
  repeat split; lia.
Qed.

Lemma fold_createHyperplane_flushed ext : forall hps w,
  flushed ext hps w
    (fold_left
       (fun w hp =>
          with_cb (fun c => set_lastNumAddedHyperplanes (lastNumAddedHyperplanes c + 1) c)
            (createHyperplane ext hp w)) hps w).
Proof.
  induction hps as [|hp rest IH]; intros w; simpl fold_left.
  - unfold flushed. simpl. rewrite app_nil_r. repeat split; lia.
  - eapply flushed_step; [apply createHyperplane_flushed|apply IH].
Qed.

Lemma addLazyConstraint_flushed ext pts w :
  let queued := hyperplaneWaitingList (solver w) ++ selectedFor ext pts in
  let w' := addLazyConstraint ext pts w in
  lazyConstraints (search w')
  = lazyConstraints (search w) ++ flat_map (cutOf ext) queued /\
  hyperplaneWaitingList (solver w') = [] /\
  numHyperplanesAdded (currentIteration (results w'))
  = (numHyperplanesAdded (currentIteration (results w))
     + Z.of_nat (length (flat_map (cutOf ext) queued)))%Z /\
  lastNumAddedHyperplanes (cb w')
  = (lastNumAddedHyperplanes (cb w) + Z.of_nat (length queued))%Z /\
  cbCalls (cb w') = (cbCalls (cb w) + 1)%Z /\
  cutoff (solver w') = cutoff (solver w) /\
  integerCutWaitingList (solver w') = integerCutWaitingList (solver w) /\
  aborted (search w') = aborted (search w) /\
  numberOfIntegerCuts w' = numberOfIntegerCuts w.
Proof.
  intros queued w'. unfold w', addLazyConstraint. cbv zeta.
  match goal with
  | |- context [flushWaitingList ext ?w0] =>
    set (w1 := w0);
    assert (Hq : hyperplaneWaitingList (solver w1) = queued);
    [|assert (Hsame : lazyConstraints (search w1) = lazyConstraints (search w) /\
                      currentIteration (results w1) = currentIteration (results w) /\
                      lastNumAddedHyperplanes (cb w1) = lastNumAddedHyperplanes (cb w) /\
                      cbCalls (cb w1) = (cbCalls (cb w) + 1)%Z /\
                      cutoff (solver w1) = cutoff (solver w) /\
                      integerCutWaitingList (solver w1)
                      = integerCutWaitingList (solver w) /\
                      aborted (search w1) = aborted (search w) /\
                      numberOfIntegerCuts w1 = numberOfIntegerCuts w)]
  end.
  - unfold w1, queued, selectedFor, objectiveLinesearchPass.
    destruct (CutStrategy (settings ext));
      destruct (classification_gtb _ _); simpl;
      rewrite <- ?app_assoc, ?app_nil_r; reflexivity.
  - unfold w1, objectiveLinesearchPass.
    destruct (CutStrategy (settings ext));
      destruct (classification_gtb _ _); simpl; repeat split; reflexivity.
  - destruct Hsame as (S1 & S2 & S3 & S4 & S5 & S6 & S7 & S8).
    pose proof (fold_createHyperplane_flushed ext (hyperplaneWaitingList (solver w1)) w1)
      as (F1 & F2 & F3 & F4 & F5 & F6 & F7 & F8).
    fold (flushWaitingList ext w1) in F1, F2, F3, F4, F5, F6, F7, F8.
    rewrite Hq in F1, F2, F3, F4. simpl.
    rewrite F1, F2, F4, F5, F6, F7, F8, S1, S2, S3, S4, S5, S6, S7, S8.
    repeat split; reflexivity.
Qed.

(** [addLazyConstraint] hands to the search, in the order of the waiting
    list, one lazy constraint for each hyperplane that was waiting or that
    its selectors picked for the candidate points and for which
    [createHyperplane] got through (terms present, none not-a-number,
    [addLazy] not throwing); it leaves the waiting list empty; the
    iteration's [numHyperplanesAdded] grows by the number of constraints
    added, whereas [lastNumAddedHyperplanes] grows by the number of
    hyperplanes processed, added or not. *)
Theorem addLazyConstraint_adds_the_cuts_of_waiting_hyperplanes
  (ext : Collaborators) (pts : list SolutionPoint) (w : World) :
  let queued := hyperplaneWaitingList (solver w) ++ selectedFor ext pts in
  let w' := addLazyConstraint ext pts w in
  lazyConstraints (search w')
  = lazyConstraints (search w) ++ flat_map (cutOf ext) queued /\
  hyperplaneWaitingList (solver w') = [] /\
  numHyperplanesAdded (currentIteration (results w'))
  = (numHyperplanesAdded (currentIteration (results w))
     + Z.of_nat (length (flat_map (cutOf ext) queued)))%Z /\
  lastNumAddedHyperplanes (cb w')
  = (lastNumAddedHyperplanes (cb w) + Z.of_nat (length queued))%Z /\
  cbCalls (cb w') = (cbCalls (cb w) + 1)%Z.
Proof.
  intros queued w'.
  destruct (addLazyConstraint_flushed ext pts w) as (H1 & H2 & H3 & H4 & H5 & _).
  repeat split; assumption.
Qed.

(** *** The integer cuts handed to the search *)

(** The lazy constraint that goes to the search for a waiting integer cut:
    the one [integerCutFor] builds from its two index lists, unless [addLazy]
    throws on it. *)
Definition integerCutOf (ext : Collaborators) (ic : list Z * list Z) : list GRBTempConstr :=
  let c := integerCutFor ext (fst ic) (snd ic) in
  if addLazyThrows ext c then [] else [c].

Lemma fold_createIntegerCut ext : forall (cuts : list (list Z * list Z)) w,
  let w' := fold_left (fun w ic => createIntegerCutOnesZeroes ext (fst ic) (snd ic) w)
              cuts w in
  lazyConstraints (search w')
  = lazyConstraints (search w) ++ flat_map (integerCutOf ext) cuts /\
  numberOfIntegerCuts w'
  = (numberOfIntegerCuts w + Z.of_nat (length (flat_map (integerCutOf ext) cuts)))%Z /\
  solver w' = solver w /\ results w' = results w /\ cb w' = cb w /\
  aborted (search w') = aborted (search w).
Proof.
  induction cuts as [|ic rest IH]; intros w; simpl.
  - rewrite app_nil_r. repeat split; lia.
  - destruct (IH (createIntegerCutOnesZeroes ext (fst ic) (snd ic) w))
      as (H1 & H2 & H3 & H4 & H5 & H6).
    rewrite H1, H2, H3, H4, H5, H6. unfold createIntegerCutOnesZeroes, integerCutOf.
    destruct (addLazyThrows ext _); simpl; rewrite <- ?app_assoc; simpl;
      repeat split; lia.
Qed.

Lemma length_integerCutOf ext (waiting : list (list Z * list Z)) :
  (length (flat_map (integerCutOf ext) waiting) <= length waiting)%nat.
Proof.
  induction waiting as [|ic rest IH]; simpl; [lia|].
  rewrite length_app. unfold integerCutOf at 1.
  destruct (addLazyThrows ext (integerCutFor ext (fst ic) (snd ic))); simpl; lia.
Qed.

(** With HyperplaneCuts.UseIntegerCuts set, the integer-cut block of the
    callback goes through the waiting integer cuts in order, one call each:
    the search receives one lazy constraint per cut for which [addLazy] does
    not throw, [numberOfIntegerCuts] counts exactly those, and the waiting
    list is left empty, the cuts that failed included; the hyperplane
    waiting list is not touched.  With the setting off the block changes
    nothing, so the integer cuts stay on their waiting list. *)
Theorem flushIntegerCuts_adds_one_cut_per_waiting_entry (ext : Collaborators) (w : World) :
  let w' := flushIntegerCuts ext w in
  let cuts := flat_map (integerCutOf ext) (integerCutWaitingList (solver w)) in
  if UseIntegerCuts (settings ext)
  then lazyConstraints (search w') = lazyConstraints (search w) ++ cuts /\
       (length cuts <= length (integerCutWaitingList (solver w)))%nat /\
       numberOfIntegerCuts w' = (numberOfIntegerCuts w + Z.of_nat (length cuts))%Z /\
       integerCutWaitingList (solver w') = [] /\
       hyperplaneWaitingList (solver w') = hyperplaneWaitingList (solver w)
  else w' = w.
Proof.
  cbv zeta. unfold flushIntegerCuts.
  destruct (UseIntegerCuts (settings ext)); [|reflexivity].
  destruct (fold_createIntegerCut ext (integerCutWaitingList (solver w)) w)
    as (H1 & H2 & H3 & _).
  cbv zeta in H1, H2, H3.
  pose proof (length_integerCutOf ext (integerCutWaitingList (solver w))) as Hlen.
  set (waiting := integerCutWaitingList (solver w)) in *.
  set (wf := fold_left
               (fun w ic => createIntegerCutOnesZeroes ext (fst ic) (snd ic) w)
               waiting w) in *.
  clearbody wf.
  rewrite <- H1, <- H2, <- H3.
  destruct waiting; repeat split; try reflexivity; exact Hlen.
Qed.

(** *** The cutoff *)

Lemma submitPrimalCandidates_solver ext pts w :
  solver (submitPrimalCandidates ext pts w) = solver w.
Proof.
  unfold submitPrimalCandidates.
  apply (fold_left_preserves (fun w' => solver w' = solver w)); [reflexivity|].
  intros w' pt H.
  destruct (addPrimalSolutionCandidate_frame ext pt PrimalTask w') as (_ & Hs & _).
  congruence.
Qed.

Lemma flushIntegerCuts_cutoff ext w :
  cutoff (solver (flushIntegerCuts ext w)) = cutoff (solver w).
Proof.
  unfold flushIntegerCuts. destruct (UseIntegerCuts (settings ext)); [|reflexivity].
  destruct (fold_createIntegerCut ext (integerCutWaitingList (solver w)) w)
    as (_ & _ & H3 & _).
  cbv zeta in H3.
  set (waiting := integerCutWaitingList (solver w)) in *.
  set (wf := fold_left
               (fun w ic => createIntegerCutOnesZeroes ext (fst ic) (snd ic) w)
               waiting w) in *.
  clearbody wf. rewrite <- H3.
  destruct waiting; reflexivity.
Qed.

Lemma incumbentBlock_cutoff ext ev w :
  cutoff (solver (fst (incumbentBlock ext ev w))) = cutoff (solver w).
Proof.
  unfold incumbentBlock. destruct (where_ ev); try reflexivity.
  set (w1 := if isSolved (currentIteration (results w)) then openIteration ext w else w).
  assert (H1 : cutoff (solver w1) = cutoff (solver w)).
  { unfold w1, openIteration. destruct (isSolved _); reflexivity. }
  destruct (_ && _); [exact H1|].
  rewrite <- H1.
  set (pts := [_]).
  destruct (addLazyConstraint_flushed ext pts w1) as (_ & _ & _ & _ & _ & H2 & _).
  cbv zeta in H2. rewrite <- H2.
  set (w2 := addLazyConstraint ext pts w1).
  cbv zeta.
  match goal with
  | |- cutoff (solver (fst (if gapToleranceMet ext ?wf then _ else _))) = _ =>
    transitivity (cutoff (solver wf)); [destruct (gapToleranceMet ext wf); reflexivity|]
  end.
  match goal with
  | |- cutoff (solver (with_results _ (flushIntegerCuts ext ?w0))) = _ =>
    transitivity (cutoff (solver (flushIntegerCuts ext w0))); [reflexivity|];
    rewrite (flushIntegerCuts_cutoff ext w0)
  end.
  repeat match goal with
  | |- cutoff (solver (if ?b then _ else _)) = _ => destruct b
  | |- cutoff (solver (submitPrimalCandidates ext _ _)) = _ =>
    rewrite submitPrimalCandidates_solver
  | |- cutoff (solver (with_log _ ?w0)) = _ =>
    transitivity (cutoff (solver w0)); [reflexivity|]
  | |- cutoff (solver (with_results _ ?w0)) = _ =>
    transitivity (cutoff (solver w0)); [reflexivity|]
  | |- cutoff (solver (set_statExploredNodes _ ?w0)) = _ =>
    transitivity (cutoff (solver w0)); [reflexivity|]
  end; reflexivity.
Qed.

Lemma relaxationBlock_cutoff ext ev w :
  cutoff (solver (relaxationBlock ext ev w)) = cutoff (solver w).
Proof.
  unfold relaxationBlock. destruct (where_ ev); try reflexivity.
  destruct (_ && _); reflexivity.
Qed.

Lemma reinjectBlock_cutoff ext ev w :
  results (reinjectBlock ext ev w) = results w /\
  match where_ ev with
  | MIPSOL =>
    cutoff (solver (reinjectBlock ext ev w))
    = Some (if isMinimization (cb w)
            then (primalBound (results w) + CutOffTolerance (settings ext))%float
            else (- primalBound (results w) - CutOffTolerance (settings ext))%float)
  | _ => cutoff (solver (reinjectBlock ext ev w)) = cutoff (solver w)
  end.
Proof.
  unfold reinjectBlock. destruct (where_ ev); try (split; reflexivity).
  destruct (setSolutions_frame (primalSolution (results w)) w) as (Hr & Hl & Hc & Hm').
  destruct (isMinimization (cb w)) eqn:Hm;
    destruct (_ || _); destruct (hasAuxilliaryObjectiveVariable ext); simpl;
    rewrite ?Hc, ?Hm; simpl; rewrite ?Hr; split; reflexivity.
Qed.

(** A callback invocation changes the solver's Cutoff parameter only on an
    integer-feasible-solution event, and then sets it from the primal bound
    as it stands when the callback returns: the bound plus
    MIP.CutOffTolerance when minimizing, minus the bound minus the tolerance
    when maximizing. *)
Theorem callback_sets_cutoff_from_primal_bound
  (ext : Collaborators) (ev : Event) (w : World) :
  let w' := callback ext ev w in
  cutoff (solver w') = cutoff (solver w) \/
  where_ ev = MIPSOL /\
  cutoff (solver w')
  = Some (if isMinimization (cb w)
          then (primalBound (results w') + CutOffTolerance (settings ext))%float
          else (- primalBound (results w') - CutOffTolerance (settings ext))%float).
Proof.
  simpl. unfold callback. destruct (ignored (where_ ev)); [left; reflexivity|]. cbv zeta.
  destruct (boundBlocks_frame ext ev w) as (_ & Hm & Hcb & _).
  set (w2 := primalBoundBlock ext ev (dualBoundBlock ext ev w)) in *.
  destruct (terminationMet ext w2); [left; simpl; rewrite Hm; reflexivity|].
  pose proof (relaxationBlock_cutoff ext ev w2) as H3.
  pose proof (proj1 (relaxationBlock_quiet ext ev w2)) as Q3.
  set (w3 := relaxationBlock ext ev w2) in *.
  pose proof (incumbentBlock_cutoff ext ev w3) as H4.
  pose proof (incumbentBlock_footprint ext ev w3) as Q4.
  destruct (incumbentBlock ext ev w3) as [w4 returned]. simpl in H4, Q4.
  destruct returned; [left; rewrite H4, H3, Hm; reflexivity|].
  assert (Hmin : isMinimization (cb (nodeCountBlock ev w4)) = isMinimization (cb w)).
  { destruct (footprint_fields _ _ (proj1 (nodeCountBlock_quiet ev w4)))
      as (_ & _ & _ & G4 & _).
    destruct (footprint_fields _ _ Q4) as (_ & _ & _ & F4 & _).
    destruct (footprint_fields _ _ Q3) as (_ & _ & _ & E4 & _).
    rewrite G4, F4, E4, Hcb. reflexivity. }
  destruct (reinjectBlock_cutoff ext ev (nodeCountBlock ev w4)) as [Hres Hcut].
  destruct (where_ ev) eqn:Hwhere;
    try (left; rewrite Hcut; unfold nodeCountBlock; rewrite Hwhere; simpl;
         rewrite H4, H3, Hm; reflexivity).
  right. split; [reflexivity|]. rewrite Hcut, Hres, Hmin. reflexivity.
Qed.

End GurobiFacts.
